(** * BMJson: a shallow embedding of [include/BMJson.h]

    The development follows the header top to bottom: the value model
    ([JsonValue], [JsonArray], [JsonObject]), the initializer lists
    ([JsonInitValue]), the accessor ([JsonValueWrapper]), the tokenizer
    ([JsonTokenizer]), the document ([Json]) with its serializer and its
    recursive-descent parser, and then the properties of each.

    Conventions of the embedding.
    - [std::string] and [std::string_view] are [string]; [size_t] is [nat];
      [int64_t] is [Z] with the range check written out where the code has
      one ([stoll]); [double] is an IEEE-754 binary64 datum ([spec_float]).
    - [std::shared_ptr<T>] is [option T]: [None] is the empty pointer.  The
      trees are finite, so no container reaches itself.
    - [std::unordered_map<std::string, JsonValue>] is an association list
      with unique keys.  The standard leaves the iteration order of the map
      open; the list fixes one admissible order, the order of insertion.
    - A C++ exception is a [Raise] result ([Throws] in the parser);
      dereferencing an empty pointer in the serializer is [None]. *)

From Stdlib Require Import String Ascii List ZArith Lia Bool Arith.
From Stdlib Require Import DecimalString DecimalNat DecimalZ DecimalPos.
From Stdlib Require Import SpecFloat.
Import ListNotations.

Local Open Scope list_scope.
Local Open Scope string_scope.

#[local] Set Warnings "-register-all".

(** ** Characters and strings *)

Definition NUL : ascii := "000"%char.
Definition quote : ascii := "034"%char.
Definition backslash : ascii := "\"%char.

(** [std::isdigit] and [std::isspace] in the "C" locale. *)
Definition isdigit (c : ascii) : bool :=
  let n := nat_of_ascii c in ((48 <=? n) && (n <=? 57))%nat.

Definition isspace (c : ascii) : bool :=
  let n := nat_of_ascii c in ((n =? 32) || ((9 <=? n) && (n <=? 13)))%nat.

Definition size (s : string) : nat := String.length s.

(** [s.substr(pos, n)]: the characters from [pos], at most [n] of them. *)
Definition substr (s : string) (pos n : nat) : string := substring pos n s.

(** [s.substr(pos)]: everything from [pos]. *)
Definition substr_from (s : string) (pos : nat) : string :=
  substring pos (size s - pos) s.

(** [s += c]. *)
Definition push_back (s : string) (c : ascii) : string := s ++ String c "".

(** [s.find(c) != std::string::npos]. *)
Fixpoint contains (c : ascii) (s : string) : bool :=
  match s with
  | EmptyString => false
  | String a r => Ascii.eqb a c || contains c r
  end.

(** [std::string(n, c)]. *)
Fixpoint repeat_char (n : nat) (c : ascii) : string :=
  match n with
  | 0 => ""
  | S k => String c (repeat_char k c)
  end.

(** ** Exceptions and conversions of the C++ library *)

Inductive exn : Type :=
  | runtime_error (what : string)
  | out_of_range
  | invalid_argument.

Inductive result (A : Type) : Type :=
  | Ok (a : A)
  | Raise (e : exn).
Arguments Ok {A} a.
Arguments Raise {A} e.

(** [std::to_string] on [size_t] and [int64_t]. *)
Definition to_string_size_t (n : nat) : string :=
  NilZero.string_of_uint (Nat.to_uint n).

Definition to_string_int64 (n : Z) : string :=
  NilZero.string_of_int (Z.to_int n).

Fixpoint skip_space (s : string) : string :=
  match s with
  | String c r => if isspace c then skip_space r else s
  | EmptyString => s
  end.

Definition digit_value (c : ascii) : Z := Z.of_nat (nat_of_ascii c - 48).

(** The digits at the front of [s], accumulated in base ten: the value so
    far, how many digits were read, and what follows them. *)
Fixpoint read_digits (s : string) (acc : Z) (count : nat) : Z * nat * string :=
  match s with
  | String c r =>
      if isdigit c then read_digits r (10 * acc + digit_value c)%Z (S count)
      else (acc, count, s)
  | EmptyString => (acc, count, s)
  end.

Definition read_sign (s : string) : bool * string :=
  match s with
  | String "-" r => (true, r)
  | String "+" r => (false, r)
  | _ => (false, s)
  end.

Definition INT64_MIN : Z := (- 2 ^ 63)%Z.
Definition INT64_MAX : Z := (2 ^ 63 - 1)%Z.

(** [std::stoll(str)]: [strtoll] in base ten.  Leading white space and one
    sign are skipped, the longest run of digits is converted and the rest
    is ignored; no digit raises [std::invalid_argument], a value outside
    [int64_t] raises [std::out_of_range]. *)
Definition stoll (str : string) : result Z :=
  let (neg, s) := read_sign (skip_space str) in
  let '(v, count, _) := read_digits s 0%Z 0 in
  match count with
  | 0 => Raise invalid_argument
  | _ =>
      let v := if neg then (- v)%Z else v in
      if ((INT64_MIN <=? v) && (v <=? INT64_MAX))%Z then Ok v
      else Raise out_of_range
  end.

(** *** Doubles *)

Definition double : Type := spec_float.
Definition prec : Z := 53.
Definition emax : Z := 1024.

(** The binary64 nearest to [m * 10 ^ x] (ties to even), [m] positive. *)
Definition round_decimal (neg : bool) (m : positive) (x : Z) : double :=
  match x with
  | Zneg k =>
      let '(q, e, l) :=
        SFdiv_core_binary prec emax (Zpos m) 0 (Zpos (10 ^ k)) 0 in
      binary_round_aux prec emax neg q e l
  | _ => binary_round prec emax neg (m * Z.to_pos (10 ^ x))%positive 0
  end.

Definition is_subnormal (d : double) : bool :=
  match d with
  | S754_finite _ m _ => negb (Zpos (digits2_pos m) =? prec)%Z
  | _ => false
  end.

(** [d] is exactly [m * 10 ^ x]: both sides are brought to integers. *)
Definition represents (d : double) (m : positive) (x : Z) : bool :=
  match d with
  | S754_finite _ mant e =>
      (Zpos mant * 2 ^ Z.max e 0 * 10 ^ Z.max (- x) 0
       =? Zpos m * 10 ^ Z.max x 0 * 2 ^ Z.max (- e) 0)%Z
  | _ => false
  end.

(** The exponent part of a decimal floating literal: [e] or [E], an
    optional sign and at least one digit; anything else is not part of the
    number and leaves the exponent at zero. *)
Definition read_exponent (s : string) : Z :=
  match s with
  | String c r =>
      if Ascii.eqb c "e" || Ascii.eqb c "E" then
        let (neg, r) := read_sign r in
        let '(v, count, _) := read_digits r 0%Z 0 in
        match count with
        | 0 => 0%Z
        | _ => if neg then (- v)%Z else v
        end
      else 0%Z
  | EmptyString => 0%Z
  end.

(** [std::stod(str)]: [strtod] on decimal text (the hexadecimal, [inf] and
    [nan] forms need letters that a number token never holds and are left
    out).  Leading white space and one sign are skipped; the mantissa is a
    run of digits with at most one point and at least one digit.  No
    mantissa raises [std::invalid_argument]; [ERANGE] raises
    [std::out_of_range]: that is overflow, and underflow, which [strtod]
    reports for a result below the normal range that is not the decimal
    exactly (a subnormal number written out in full is returned). *)
Definition stod (str : string) : result double :=
  let (neg, s) := read_sign (skip_space str) in
  let '(ip, n1, s1) := read_digits s 0%Z 0 in
  let '(m, n2, s2) :=
    match s1 with
    | String "." r => read_digits r ip 0
    | _ => (ip, 0, s1)
    end in
  match n1 + n2 with
  | 0 => Raise invalid_argument
  | _ =>
      match m with
      | Zpos p =>
          let d := round_decimal neg p (read_exponent s2 - Z.of_nat n2) in
          match d with
          | S754_finite _ _ _ =>
              if is_subnormal d
                 && negb (represents d p (read_exponent s2 - Z.of_nat n2))
              then Raise out_of_range else Ok d
          | _ => Raise out_of_range
          end
      | _ => Ok (S754_zero neg)
      end
  end.

Definition pad6 (s : string) : string :=
  repeat_char (6 - size s) "0" ++ s.

(** [std::to_string(double)]: [printf] with ["%f"], six decimals, the exact
    value of the double rounded to nearest, ties to even. *)
Definition to_string_double (d : double) : string :=
  match d with
  | S754_nan => "nan"
  | S754_infinity s => if s then "-inf" else "inf"
  | S754_zero s => if s then "-0.000000" else "0.000000"
  | S754_finite s m e =>
      let n :=
        match e with
        | Zneg k =>
            let num := (Zpos m * 1000000)%Z in
            let den := Zpos (2 ^ k) in
            let q := (num / den)%Z in
            let r := (num mod den)%Z in
            match (2 * r ?= den)%Z with
            | Gt => (q + 1)%Z
            | Eq => if Z.even q then q else (q + 1)%Z
            | Lt => q
            end
        | _ => (Zpos m * 2 ^ e * 1000000)%Z
        end in
      (if s then "-" else "") ++
      to_string_int64 (n / 1000000) ++ "." ++
      pad6 (to_string_int64 (n mod 1000000))
  end.

(** ** The value model *)

(** [JsonValue]: the variant, one constructor per alternative, in the
    order of the declaration.  [JsonArray] is its [Values] vector and
    [JsonObject] its [Properties] map. *)
Inductive JsonValue : Type :=
  | VUndefined
  | VNull
  | VBool (b : bool)
  | VInt64 (n : Z)
  | VDouble (d : double)
  | VString (s : string)
  | VArray (p : option (list JsonValue))
  | VObject (p : option (list (string * JsonValue))).

Definition JsonArray : Type := list JsonValue.
Definition JsonObject : Type := list (string * JsonValue).

(** The alternatives as tags: the [T] of [HasType<T>], after
    [TJsonValueTypeConverter] has sent every integral type to [int64_t],
    every floating type to [double] and the two containers to their
    shared pointers. *)
Inductive JsonType : Type :=
  | TUndefined | TNull | TBool | TInt64 | TDouble | TString | TArray | TObject.

Definition index_of (v : JsonValue) : JsonType :=
  match v with
  | VUndefined => TUndefined
  | VNull => TNull
  | VBool _ => TBool
  | VInt64 _ => TInt64
  | VDouble _ => TDouble
  | VString _ => TString
  | VArray _ => TArray
  | VObject _ => TObject
  end.

Definition JsonType_eqb (a b : JsonType) : bool :=
  match a, b with
  | TUndefined, TUndefined | TNull, TNull | TBool, TBool | TInt64, TInt64
  | TDouble, TDouble | TString, TString | TArray, TArray | TObject, TObject => true
  | _, _ => false
  end.

(** [HasType<T>(Value)]: [std::holds_alternative]. *)
Definition HasType (T : JsonType) (Value : JsonValue) : bool :=
  JsonType_eqb (index_of Value) T.

(** [T{}]: the value-initialised alternative. *)
Definition value_init (T : JsonType) : JsonValue :=
  match T with
  | TUndefined => VUndefined
  | TNull => VNull
  | TBool => VBool false
  | TInt64 => VInt64 0
  | TDouble => VDouble (S754_zero false)
  | TString => VString ""
  | TArray => VArray None
  | TObject => VObject None
  end.

(** *** [std::unordered_map<std::string, JsonValue>] *)

Module unordered_map.
Fixpoint find (Key : string) (m : JsonObject) : option JsonValue :=
  match m with
  | [] => None
  | (k, v) :: r => if String.eqb k Key then Some v else find Key r
  end.

(** [m.emplace(Key, Value)]: nothing happens when the key is there. *)
Definition emplace (Key : string) (Value : JsonValue) (m : JsonObject)
  : JsonObject :=
  match find Key m with
  | Some _ => m
  | None => (m ++ [(Key, Value)])%list
  end.

(** [m[Key]] as far as the map goes: a missing key is inserted with a
    value-initialised [JsonValue], which holds the first alternative,
    [UndefinedValue]. *)
Definition subscript (Key : string) (m : JsonObject) : JsonObject :=
  emplace Key VUndefined m.

(** Assignment through a reference to the mapped value of [Key]. *)
Fixpoint assign (Key : string) (Value : JsonValue) (m : JsonObject)
  : JsonObject :=
  match m with
  | [] => []
  | (k, v) :: r =>
      if String.eqb k Key then (k, Value) :: r
      else (k, v) :: assign Key Value r
  end.

Definition keys (m : JsonObject) : list string := map fst m.
End unordered_map.

(** ** Initializer lists *)

(** [TJsonInitList] is a list of [JsonInitValue]s: a value with or without
    a key.  A nested list has been turned into the value of its entry by
    the constructor that took it, which is [InitFromList] below. *)
Module JsonInitValue.
Record t : Type := make {
  Key : option string;
  Value : JsonValue
}.

Definition has_key (InitValue : t) : bool :=
  match Key InitValue with Some _ => true | None => false end.

(** The loop over the list when its first entry has a key: entries
    without a key are skipped, the others are [emplace]d. *)
Fixpoint fill_object (List : list t) (Obj : JsonObject) : JsonObject :=
  match List with
  | [] => Obj
  | InitValue :: rest =>
      match Key InitValue with
      | None => fill_object rest Obj
      | Some k => fill_object rest (unordered_map.emplace k (Value InitValue) Obj)
      end
  end.

(** The loop when it has none: entries with a key are skipped, the others
    are pushed back. *)
Fixpoint fill_array (List : list t) (Array : JsonArray) : JsonArray :=
  match List with
  | [] => Array
  | InitValue :: rest =>
      match Key InitValue with
      | Some _ => fill_array rest Array
      | None => fill_array rest (Array ++ [Value InitValue])%list
      end
  end.

Definition InitFromList (List : list t) (bObjectOnly : bool) : JsonValue :=
  match List with
  | [] => VUndefined
  | first :: _ =>
      if has_key first then VObject (Some (fill_object List []))
      else if negb bObjectOnly then VArray (Some (fill_array List []))
      else VUndefined
  end.

(** The four constructors. *)
Definition keyed (KeyIn : string) (ValueIn : JsonValue) : t :=
  make (Some KeyIn) ValueIn.
Definition unkeyed (ValueIn : JsonValue) : t := make None ValueIn.
Definition keyed_list (KeyIn : string) (List : list t) : t :=
  make (Some KeyIn) (InitFromList List false).
Definition unkeyed_list (List : list t) : t :=
  make None (InitFromList List false).
End JsonInitValue.

(** ** The accessor *)

(** What the reference member [Value] of a wrapper designates: the mapped
    value of a key, an element of a vector, or the function-local static
    [EmptyValue] of the const [JsonObject::operator[]]. *)
Inductive Ref : Type :=
  | Property (Key : string)
  | Element (Index : nat)
  | EmptyValue.

Module JsonValueWrapper.
(** [bIsConst] and [bHasOr] are the two template parameters;
    [DefaultValue] is there exactly when [bHasOr] is set. *)
Record t : Type := make {
  Value : Ref;
  bIsConst : bool;
  DefaultValue : option JsonValue
}.

Definition bHasOr (w : t) : bool :=
  match DefaultValue w with Some _ => true | None => false end.

(** [Or(OrInit)], available when [!bHasOr]: a wrapper on the same slot
    that carries the default. *)
Definition Or (OrInit : JsonValue) (w : t) : t :=
  make (Value w) (bIsConst w) (Some OrInit).

(** [Get_Internal<T>()], the two overloads.  [slot] is what the bound
    slot holds; the answer is the value referred to by the returned
    reference and what the slot holds afterwards. *)
Definition Get_Internal (T : JsonType) (w : t) (slot : JsonValue)
  : result (JsonValue * JsonValue) :=
  match DefaultValue w with
  | None =>
      if bIsConst w then
        if negb (HasType T slot)
        then Raise (runtime_error "Field is not of the requested type")
        else Ok (slot, slot)
      else
        let slot := if negb (HasType T slot) then value_init T else slot in
        Ok (slot, slot)
  | Some Default =>
      if negb (HasType T slot) then
        if negb (HasType T Default)
        then Raise (runtime_error "Or value is not of the requested type")
        else Ok (Default, slot)
      else Ok (slot, slot)
  end.

Definition GetAs (T : JsonType) (w : t) (slot : JsonValue)
  : result (JsonValue * JsonValue) :=
  Get_Internal T w slot.

(** [operator TReturnType<JsonArray>()] and its twin for objects: the
    pointer is read with [Get_Internal] and an empty one is refused. *)
Definition to_JsonArray (w : t) (slot : JsonValue)
  : result (JsonArray * JsonValue) :=
  match Get_Internal TArray w slot with
  | Ok (VArray (Some a), slot') => Ok (a, slot')
  | Ok (_, _) => Raise (runtime_error "Field is not a JsonArray")
  | Raise e => Raise e
  end.

Definition to_JsonObject (w : t) (slot : JsonValue)
  : result (JsonObject * JsonValue) :=
  match Get_Internal TObject w slot with
  | Ok (VObject (Some o), slot') => Ok (o, slot')
  | Ok (_, _) => Raise (runtime_error "Field is not a JsonObject")
  | Raise e => Raise e
  end.

(** [Else(Func)]: the callback runs on the caller's state [S]. *)
Definition Else {S : Type} (Func : S -> S) (w : t) (slot : JsonValue) (s : S) : S :=
  let bUndefined := HasType TUndefined slot in
  let bUndefined :=
    match DefaultValue w with
    | Some Default => bUndefined && HasType TUndefined Default
    | None => bUndefined
    end in
  if bUndefined then Func s else s.

(** [operator=(T&&)], available when [!bHasOr]. *)
Definition assign (ValueIn : JsonValue) (w : t) (slot : JsonValue) : JsonValue :=
  ValueIn.

(** The two container conversions once more, this time with what the slot
    holds afterwards also when they throw: [Get_Internal] has run, and has
    reset a slot of another type, before the pointer is tested. *)
Definition as_JsonArray (w : t) (slot : JsonValue)
  : result JsonArray * JsonValue :=
  match Get_Internal TArray w slot with
  | Ok (VArray (Some a), slot') => (Ok a, slot')
  | Ok (_, slot') => (Raise (runtime_error "Field is not a JsonArray"), slot')
  | Raise e => (Raise e, slot)
  end.

Definition as_JsonObject (w : t) (slot : JsonValue)
  : result JsonObject * JsonValue :=
  match Get_Internal TObject w slot with
  | Ok (VObject (Some o), slot') => (Ok o, slot')
  | Ok (_, slot') => (Raise (runtime_error "Field is not a JsonObject"), slot')
  | Raise e => (Raise e, slot)
  end.

(** [CreateObject()] and [CreateArray()], for wrappers that are neither
    const nor defaulted: the container in the slot, after a slot of
    another type has been given a new empty one.  A slot that holds an
    empty pointer passes the type test and is dereferenced: [None]. *)
Definition CreateObject (w : t) (slot : JsonValue)
  : option (JsonObject * JsonValue) :=
  let slot := if negb (HasType TObject slot) then VObject (Some []) else slot in
  match slot with
  | VObject (Some o) => Some (o, slot)
  | _ => None
  end.

Definition CreateArray (w : t) (slot : JsonValue)
  : option (JsonArray * JsonValue) :=
  let slot := if negb (HasType TArray slot) then VArray (Some []) else slot in
  match slot with
  | VArray (Some a) => Some (a, slot)
  | _ => None
  end.

(** [operator=(TJsonInitList List)]. *)
Definition assign_list (List : list JsonInitValue.t) (w : t) (slot : JsonValue)
  : JsonValue :=
  JsonInitValue.InitFromList List false.
End JsonValueWrapper.

(** Integral and floating arguments of [Or] and of the assignments reach
    the variant through [InitValue]: [static_cast<int64_t>]. *)
Definition InitValue_int (ValueIn : Z) : JsonValue := VInt64 ValueIn.

Module JsonObject.
(** What a reference into this object designates. *)
Definition load (r : Ref) (o : JsonObject) : JsonValue :=
  match r with
  | Property Key =>
      match unordered_map.find Key o with Some v => v | None => VUndefined end
  | _ => VUndefined
  end.

Definition store (r : Ref) (v : JsonValue) (o : JsonObject) : JsonObject :=
  match r with
  | Property Key => unordered_map.assign Key v o
  | _ => o
  end.

(** [operator[](Key)]: [Properties[Key]], wrapped. *)
Definition subscript (Key : string) (o : JsonObject)
  : JsonValueWrapper.t * JsonObject :=
  (JsonValueWrapper.make (Property Key) false None,
   unordered_map.subscript Key o).

(** [operator[](Key) const]: [Properties.find(Key)], and the static
    [EmptyValue] when the key is missing. *)
Definition subscript_const (Key : string) (o : JsonObject)
  : JsonValueWrapper.t :=
  match unordered_map.find Key o with
  | Some _ => JsonValueWrapper.make (Property Key) true None
  | None => JsonValueWrapper.make EmptyValue true None
  end.

(** A typed read through a wrapper bound into [o]. *)
Definition GetAs (T : JsonType) (w : JsonValueWrapper.t) (o : JsonObject)
  : result (JsonValue * JsonObject) :=
  match JsonValueWrapper.GetAs T w (load (JsonValueWrapper.Value w) o) with
  | Ok (v, slot) => Ok (v, store (JsonValueWrapper.Value w) slot o)
  | Raise e => Raise e
  end.

(** [HasField<T>(JsonObject, Key)], [T = void] being [None]. *)
Definition HasField (T : option JsonType) (o : JsonObject) (Key : string) : bool :=
  match unordered_map.find Key o with
  | Some v => match T with Some T => HasType T v | None => true end
  | None => false
  end.

(** [InitFromList(List)], behind the constructor and the assignment from
    a list: the properties are replaced when the list makes an object. *)
Definition InitFromList (List : list JsonInitValue.t) (o : JsonObject)
  : JsonObject :=
  match JsonInitValue.InitFromList List true with
  | VObject (Some Properties) => Properties
  | _ => o
  end.
End JsonObject.

Module JsonArray.
(** [operator[](Index)], const or not: [Values.at(Index)], which throws
    [std::out_of_range] unless [Index < Values.size()]. *)
Definition subscript (Index : nat) (a : JsonArray) : result JsonValueWrapper.t :=
  if (Index <? length a)%nat
  then Ok (JsonValueWrapper.make (Element Index) false None)
  else Raise out_of_range.

Definition subscript_const (Index : nat) (a : JsonArray)
  : result JsonValueWrapper.t :=
  if (Index <? length a)%nat
  then Ok (JsonValueWrapper.make (Element Index) true None)
  else Raise out_of_range.

Definition load (r : Ref) (a : JsonArray) : JsonValue :=
  match r with
  | Element Index => nth Index a VUndefined
  | _ => VUndefined
  end.

(** [AddValue()]: [Values.emplace_back()], a slot holding [Undefined]. *)
Definition AddValue (a : JsonArray) : JsonValueWrapper.t * JsonArray :=
  (JsonValueWrapper.make (Element (length a)) false None,
   (a ++ [VUndefined])%list).

Definition HasField (T : option JsonType) (a : JsonArray) (Index : nat) : bool :=
  match nth_error a Index with
  | Some v => match T with Some T => HasType T v | None => true end
  | None => false
  end.

Definition store (r : Ref) (v : JsonValue) (a : JsonArray) : JsonArray :=
  match r with
  | Element Index =>
      if (Index <? length a)%nat
      then (firstn Index a ++ v :: skipn (S Index) a)%list else a
  | _ => a
  end.

(** [InitFromList(List)]: the values are replaced when the list makes an
    array. *)
Definition InitFromList (List : list JsonInitValue.t) (a : JsonArray)
  : JsonArray :=
  match JsonInitValue.InitFromList List false with
  | VArray (Some Values) => Values
  | _ => a
  end.
End JsonArray.

(** ** Tokens *)

Module JsonTokenType.
Inductive t : Type :=
  | None | ObjectStart | ObjectEnd | ArrayStart | ArrayEnd | String
  | Number | Boolean | Null | Comma | Colon | Invalid.

Definition eqb (a b : t) : bool :=
  match a, b with
  | None, None | ObjectStart, ObjectStart | ObjectEnd, ObjectEnd
  | ArrayStart, ArrayStart | ArrayEnd, ArrayEnd | String, String
  | Number, Number | Boolean, Boolean | Null, Null | Comma, Comma
  | Colon, Colon | Invalid, Invalid => true
  | _, _ => false
  end.
End JsonTokenType.

Module JsonToken.
Record t : Type := make {
  Type_ : JsonTokenType.t;
  Position : nat;
  Value : string
}.

Definition is_a (ty : JsonTokenType.t) (tok : t) : bool :=
  JsonTokenType.eqb (Type_ tok) ty.
End JsonToken.

(** ** The tokenizer *)

Module JsonTokenizer.
Record t : Type := make {
  Position : nat;
  Input : string;
  CurrentToken : JsonToken.t
}.

Definition Init (InputIn : string) : t :=
  make 0 InputIn (JsonToken.make JsonTokenType.Invalid 0 "").

Definition GetInput (tz : t) : string := Input tz.

Definition with_Position (tz : t) (p : nat) : t :=
  make p (Input tz) (CurrentToken tz).

Definition with_CurrentToken (tz : t) (tok : JsonToken.t) : t :=
  make (Position tz) (Input tz) tok.

Definition IsValidNumberChar (c : ascii) : bool :=
  isdigit c || Ascii.eqb c "." || Ascii.eqb c "-" || Ascii.eqb c "+"
  || Ascii.eqb c "e" || Ascii.eqb c "E".

(** [Peek]: the character under the cursor, ['\0'] past the end. *)
Definition Peek (tz : t) : ascii :=
  match String.get (Position tz) (Input tz) with
  | Some c => c
  | Datatypes.None => NUL
  end.

(** [Get]: the same, and the cursor moves on when it was inside. *)
Definition Get (tz : t) : ascii * t :=
  match String.get (Position tz) (Input tz) with
  | Some c => (c, with_Position tz (S (Position tz)))
  | Datatypes.None => (NUL, tz)
  end.

(** The loops of the tokenizer run on a counter that starts at the number
    of characters left (one more where the last round reads the end):
    every round that goes on has moved the cursor, so the loop's own test
    stops it before the counter does. *)
Fixpoint SkipWhitespace_loop (n : nat) (tz : t) : t :=
  match n with
  | 0 => tz
  | S n' =>
      match String.get (Position tz) (Input tz) with
      | Some c =>
          if isspace c
          then SkipWhitespace_loop n' (with_Position tz (S (Position tz)))
          else tz
      | Datatypes.None => tz
      end
  end.

Definition SkipWhitespace (tz : t) : t :=
  SkipWhitespace_loop (size (Input tz) - Position tz) tz.

Definition ParseNull (tz : t) : JsonToken.t * t :=
  if String.eqb (substr (Input tz) (Position tz) 4) "null"
  then (JsonToken.make JsonTokenType.Null (Position tz) "null",
        with_Position tz (Position tz + 4))
  else (JsonToken.make JsonTokenType.Invalid (Position tz) "", tz).

Fixpoint ParseString_loop (n : nat) (tz : t) (Value : string) : string * t :=
  match n with
  | 0 => (Value, tz)
  | S n' =>
      let (Current, tz) := Get tz in
      if Ascii.eqb Current NUL then (Value, tz)
      else if Ascii.eqb Current backslash then
        let (c, tz) := Get tz in
        ParseString_loop n' tz (push_back Value c)
      else if Ascii.eqb Current quote then (Value, tz)
      else ParseString_loop n' tz (push_back Value Current)
  end.

Definition ParseString (tz : t) : JsonToken.t * t :=
  let TokenPosition := Position tz in
  let (_, tz) := Get tz in
  let (Value, tz) :=
    ParseString_loop (S (size (Input tz) - Position tz)) tz "" in
  (JsonToken.make JsonTokenType.String TokenPosition Value, tz).

Fixpoint ParseNumer_loop (n : nat) (tz : t) (Value : string) : string * t :=
  match n with
  | 0 => (Value, tz)
  | S n' =>
      let Current := Peek tz in
      if IsValidNumberChar Current
      then ParseNumer_loop n' (snd (Get tz)) (push_back Value Current)
      else (Value, tz)
  end.

Definition ParseNumer (tz : t) : JsonToken.t * t :=
  let (Value, tz') :=
    ParseNumer_loop (size (Input tz) - Position tz) tz "" in
  (JsonToken.make JsonTokenType.Number (Position tz) Value, tz').

Definition ParseBoolean (tz : t) : JsonToken.t * t :=
  if String.eqb (substr (Input tz) (Position tz) 4) "true"
  then (JsonToken.make JsonTokenType.Boolean (Position tz) "true",
        with_Position tz (Position tz + 4))
  else if String.eqb (substr (Input tz) (Position tz) 5) "false"
  then (JsonToken.make JsonTokenType.Boolean (Position tz) "false",
        with_Position tz (Position tz + 5))
  else (JsonToken.make JsonTokenType.Invalid (Position tz) "", tz).

(** A one-character token: [{Type, TokenPosition, {Get()}}]. *)
Definition symbol (ty : JsonTokenType.t) (tz : t) : JsonToken.t * t :=
  let (c, tz') := Get tz in
  (JsonToken.make ty (Position tz) (String c ""), tz').

Definition NextToken (tz : t) : JsonToken.t * t :=
  let tz := SkipWhitespace tz in
  if (size (Input tz) <=? Position tz)%nat
  then (JsonToken.make JsonTokenType.None (Position tz) "", tz)
  else
    let Current := Peek tz in
    if Ascii.eqb Current "{" then symbol JsonTokenType.ObjectStart tz
    else if Ascii.eqb Current "}" then symbol JsonTokenType.ObjectEnd tz
    else if Ascii.eqb Current "[" then symbol JsonTokenType.ArrayStart tz
    else if Ascii.eqb Current "]" then symbol JsonTokenType.ArrayEnd tz
    else if Ascii.eqb Current "," then symbol JsonTokenType.Comma tz
    else if Ascii.eqb Current ":" then symbol JsonTokenType.Colon tz
    else if Ascii.eqb Current "n" then ParseNull tz
    else if Ascii.eqb Current quote then ParseString tz
    else if Ascii.eqb Current "t" || Ascii.eqb Current "f" then ParseBoolean tz
    else if IsValidNumberChar Current then ParseNumer tz
    else (JsonToken.make JsonTokenType.Invalid (Position tz) "", tz).

(** The first half of [PeekToken] and of [GetToken]: an [Invalid] cache
    is empty and is filled from the input. *)
Definition fill (tz : t) : t :=
  if JsonToken.is_a JsonTokenType.Invalid (CurrentToken tz)
  then let (tok, tz') := NextToken tz in with_CurrentToken tz' tok
  else tz.

Definition PeekToken (tz : t) : JsonToken.t * t :=
  let tz := fill tz in
  (CurrentToken tz, tz).

(** [GetToken] hands out the cached token and reads the next one into
    the cache at once. *)
Definition GetToken (tz : t) : JsonToken.t * t :=
  let tz := fill tz in
  let Token := CurrentToken tz in
  let (tok, tz') := NextToken tz in
  (Token, with_CurrentToken tz' tok).
End JsonTokenizer.

(** ** The document: [class Json] *)

Definition LF : ascii := "010"%char.
Definition TAB : ascii := "009"%char.

Module Json.
Record t : Type := make {
  Tokenizer : JsonTokenizer.t;
  CurrentToken : JsonToken.t;
  ErrorMessage : option string;
  RootObject : option JsonObject
}.

(** [Json()]: an empty root object, no error, nothing to read. *)
Definition new : t :=
  make (JsonTokenizer.make 0 "" (JsonToken.make JsonTokenType.Invalid 0 ""))
       (JsonToken.make JsonTokenType.Invalid 0 "") None (Some []).

Definition with_Tokenizer (j : t) (tz : JsonTokenizer.t) : t :=
  make tz (CurrentToken j) (ErrorMessage j) (RootObject j).
Definition with_CurrentToken (j : t) (tok : JsonToken.t) : t :=
  make (Tokenizer j) tok (ErrorMessage j) (RootObject j).
Definition with_ErrorMessage (j : t) (e : option string) : t :=
  make (Tokenizer j) (CurrentToken j) e (RootObject j).
Definition with_RootObject (j : t) (r : option JsonObject) : t :=
  make (Tokenizer j) (CurrentToken j) (ErrorMessage j) r.

Definition HasError (j : t) : bool :=
  match ErrorMessage j with Some _ => true | None => false end.

Definition GetError (j : t) : string :=
  match ErrorMessage j with Some e => e | None => "" end.

Definition GetRootObject (j : t) : option JsonObject := RootObject j.

Definition Reset (bCreateRoot : bool) (j : t) : t :=
  let root :=
    if bCreateRoot then
      match RootObject j with
      | Some _ => Some []
      | None => Some []
      end
    else RootObject j in
  make (JsonTokenizer.Init "")
       (JsonToken.make JsonTokenType.Invalid 0 "") None root.

(** *** Error reporting *)

Definition MaxErrorLocation : nat := 50.

Definition ErrorLocation (Input : string) (Token : JsonToken.t) : string :=
  let Position := JsonToken.Position Token in
  if (size Input <=? Position)%nat then "Error position out of bounds"
  else
    let Start :=
      if (MaxErrorLocation <=? Position)%nat
      then Position - MaxErrorLocation else 0 in
    let Diff := Position - Start in
    let End := Nat.min (Position + MaxErrorLocation + Diff) (size Input) in
    let Location := substr Input Start (End - Start) in
    if (0 <? Diff)%nat
    then substr Location 0 Diff ++ " *ERROR*--> " ++ substr_from Location Diff
    else Location.

(** [std::format("Error at position {}[{}]: {} \nError Reason: {}", ...)]. *)
Definition format_error (Token : JsonToken.t) (Location message : string) : string :=
  "Error at position " ++ to_string_size_t (JsonToken.Position Token)
  ++ "[" ++ JsonToken.Value Token ++ "]: " ++ Location
  ++ " " ++ String LF "Error Reason: " ++ message.

Definition ThrowError (Token : JsonToken.t) (message : string) (j : t) : t :=
  if HasError j then j
  else
    let Input := JsonTokenizer.GetInput (Tokenizer j) in
    with_ErrorMessage j
      (Some (format_error Token (ErrorLocation Input Token) message)).

Definition UpdateToken (bPeak : bool) (j : t) : t :=
  let (tok, tz) :=
    if bPeak then JsonTokenizer.PeekToken (Tokenizer j)
    else JsonTokenizer.GetToken (Tokenizer j) in
  let j := make tz tok (ErrorMessage j) (RootObject j) in
  if JsonToken.is_a JsonTokenType.Invalid (CurrentToken j)
  then ThrowError (CurrentToken j) "Invalid token" j
  else j.

Definition Peek (j : t) : t := UpdateToken true j.
Definition Consume (j : t) : t := UpdateToken false j.

(** *** Serialization

    The three functions write into [Result]; the model takes the text so
    far and returns the new one.  An empty container pointer cannot be
    dereferenced: [None]. *)

Definition indent (bPretty : bool) (Result : string) (Depth : nat) : string :=
  if bPretty then Result ++ String LF "" ++ repeat_char Depth TAB else Result.

Definition is_container (Value : JsonValue) : bool :=
  HasType TObject Value || HasType TArray Value.

Section Containers.
Variable SerializeValue : JsonValue -> string -> bool -> nat -> option string.

Fixpoint SerializeArray_loop (Values : JsonArray) (Written : nat)
    (Result : string) (bPretty : bool) (Depth : nat) : option string :=
  match Values with
  | [] => Some Result
  | Value :: rest =>
      let Result := if (0 <? Written)%nat then Result ++ "," else Result in
      let Result := indent bPretty Result (Depth + 1) in
      match SerializeValue Value "" bPretty Depth with
      | Some ValueString =>
          SerializeArray_loop rest (S Written) (Result ++ ValueString)
                              bPretty Depth
      | None => None
      end
  end.

Definition close (bracket : string) (Result : string) (bPretty : bool)
    (Depth : nat) : string :=
  (if bPretty && (1 <? size Result)%nat
   then indent true Result Depth else Result) ++ bracket.

Definition SerializeArray_with (Array : JsonArray) (Result : string)
    (bPretty : bool) (Depth : nat) : option string :=
  match SerializeArray_loop Array 0 (Result ++ "[") bPretty Depth with
  | Some Result => Some (close "]" Result bPretty Depth)
  | None => None
  end.

Fixpoint SerializeObject_loop (Properties : JsonObject) (Written : nat)
    (Result : string) (bPretty : bool) (Depth : nat) : option string :=
  match Properties with
  | [] => Some Result
  | (Key, Value) :: rest =>
      let Result := if (0 <? Written)%nat then Result ++ "," else Result in
      let Result := indent bPretty Result (Depth + 1) in
      let Separator :=
        if bPretty && is_container Value
        then String LF "" ++ repeat_char (Depth + 1) TAB else " " in
      match SerializeValue Value "" bPretty Depth with
      | Some ValueString =>
          SerializeObject_loop rest (S Written)
            (Result ++ String quote Key ++ String quote ":" ++ Separator
                    ++ ValueString)
            bPretty Depth
      | None => None
      end
  end.

Definition SerializeObject_with (Object : JsonObject) (Result : string)
    (bPretty : bool) (Depth : nat) : option string :=
  match SerializeObject_loop Object 0 (Result ++ "{") bPretty Depth with
  | Some Result => Some (close "}" Result bPretty Depth)
  | None => None
  end.
End Containers.

Fixpoint SerializeValue (Value : JsonValue) (Result : string) (bPretty : bool)
    (Depth : nat) {struct Value} : option string :=
  match Value with
  | VInt64 Number => Some (to_string_int64 Number)
  | VDouble Number => Some (to_string_double Number)
  | VNull => Some "null"
  | VBool Bool => Some (if Bool then "true" else "false")
  | VString String_ => Some (String quote String_ ++ String quote "")
  | VArray (Some Array) =>
      SerializeArray_with SerializeValue Array Result bPretty (Depth + 1)
  | VObject (Some Object) =>
      SerializeObject_with SerializeValue Object Result bPretty (Depth + 1)
  | VArray None | VObject None => None
  | VUndefined => Some Result
  end.

Definition SerializeArray := SerializeArray_with SerializeValue.
Definition SerializeObject := SerializeObject_with SerializeValue.

Definition Serialize (bPretty : bool) (j : t) : option string :=
  match RootObject j with
  | None => Some ""
  | Some Object => SerializeObject Object "" bPretty 0
  end.
(** *** Access *)

(** [operator[](Key)]: the root is created when it is missing, and
    [RootObject->Properties[Key]] is wrapped. *)
Definition subscript (Key : string) (j : t) : JsonValueWrapper.t * t :=
  let Root := match RootObject j with Some o => o | None => [] end in
  (JsonValueWrapper.make (Property Key) false None,
   with_RootObject j (Some (unordered_map.subscript Key Root))).

(** [operator[](Key) const]: no root is an error; otherwise the same
    [RootObject->Properties[Key]], the pointee of a const pointer not
    being const. *)
Definition subscript_const (Key : string) (j : t)
  : result (JsonValueWrapper.t * t) :=
  match RootObject j with
  | None =>
      Raise (runtime_error "Root object is null, const access not possible")
  | Some Root =>
      Ok (JsonValueWrapper.make (Property Key) true None,
          with_RootObject j (Some (unordered_map.subscript Key Root)))
  end.

(** A typed read through a wrapper bound into the root object. *)
Definition GetAs (T : JsonType) (w : JsonValueWrapper.t) (j : t)
  : result (JsonValue * t) :=
  let Root := match RootObject j with Some o => o | None => [] end in
  match JsonObject.GetAs T w Root with
  | Ok (v, Root') => Ok (v, with_RootObject j (Some Root'))
  | Raise e => Raise e
  end.

(** [HasField<T>(JsonParser, Key)]. *)
Definition HasField (T : option JsonType) (j : t) (Key : string) : bool :=
  match GetRootObject j with
  | None => false
  | Some Root => JsonObject.HasField T Root Key
  end.

(** Assignment through a wrapper bound into the root object. *)
Definition assign (ValueIn : JsonValue) (w : JsonValueWrapper.t) (j : t) : t :=
  let Root := match RootObject j with Some o => o | None => [] end in
  with_RootObject j
    (Some (JsonObject.store (JsonValueWrapper.Value w)
             (JsonValueWrapper.assign ValueIn w
                (JsonObject.load (JsonValueWrapper.Value w) Root))
             Root)).

(** The conversion to [JsonArray&] through a wrapper bound into the root
    object, with the document as the conversion leaves it. *)
Definition as_JsonArray (w : JsonValueWrapper.t) (j : t) : result JsonArray * t :=
  let Root := match RootObject j with Some o => o | None => [] end in
  let (r, slot) :=
    JsonValueWrapper.as_JsonArray w
      (JsonObject.load (JsonValueWrapper.Value w) Root) in
  (r, with_RootObject j
        (Some (JsonObject.store (JsonValueWrapper.Value w) slot Root))).

(** [InitFromList(List)], behind the constructor and the assignment from
    a list. *)
Definition InitFromList (List : list JsonInitValue.t) (j : t) : t :=
  let Root := match RootObject j with Some o => o | None => [] end in
  with_RootObject j (Some (JsonObject.InitFromList List Root)).

(** *** Deserialization

    A parsing function either returns, with the document it leaves
    behind, or lets an exception of the conversions through.  The
    recursion runs on a counter, which stands for the room on the call
    stack: a rule that is given [n] nests its calls at most [n] deep, and
    runs its loop at most [n] rounds.  [OutOfFuel] is the counter running
    out: a nesting deeper than the room there is, where the program
    overflows its stack. *)

Inductive outcome (A : Type) : Type :=
  | Returns (a : A) (j : t)
  | Throws (e : exn)
  | OutOfFuel.
Arguments Returns {A} a j.
Arguments Throws {A} e.
Arguments OutOfFuel {A}.

Definition bind {A B : Type} (m : outcome A) (k : A -> t -> outcome B)
  : outcome B :=
  match m with
  | Returns a j => k a j
  | Throws e => Throws e
  | OutOfFuel => OutOfFuel
  end.

(** [ThrowParserError(...)]: [ThrowError(...); return {}]. *)
Definition ThrowParserError {A : Type} (empty : A) (message : string) (j : t)
  : outcome A :=
  Returns empty (ThrowError (CurrentToken j) message j).

Definition IsFloat (j : t) : bool :=
  contains "." (JsonToken.Value (CurrentToken j))
  || contains "e" (JsonToken.Value (CurrentToken j)).

Definition convert {A : Type} (r : result A) (k : A -> JsonValue) (j : t)
  : outcome JsonValue :=
  match r with
  | Ok a => Returns (k a) j
  | Raise e => Throws e
  end.

Section Rules.
Variable ParseValue : t -> outcome JsonValue.

Fixpoint ParseArray_loop (n : nat) (Values : JsonArray) (j : t)
  : outcome (option JsonArray) :=
  match n with
  | 0 => OutOfFuel
  | S n' =>
      bind (ParseValue j) (fun Value j =>
      if HasError j then Returns None j
      else
        let Values := (Values ++ [Value])%list in
        let j := Consume j in
        if negb (JsonToken.is_a JsonTokenType.Comma (CurrentToken j))
           && negb (JsonToken.is_a JsonTokenType.ArrayEnd (CurrentToken j))
        then ThrowParserError None "Expected ',' or ']'" j
        else if JsonToken.is_a JsonTokenType.ArrayEnd (CurrentToken j)
        then Returns (Some Values) j
        else ParseArray_loop n' Values (Peek j))
  end.

Definition ParseArray_with (n : nat) (j : t) : outcome (option JsonArray) :=
  let j := Consume j in
  if negb (JsonToken.is_a JsonTokenType.ArrayStart (CurrentToken j))
  then ThrowParserError None "Expected '['" j
  else
    let j := Peek j in
    if JsonToken.is_a JsonTokenType.ArrayEnd (CurrentToken j)
    then Returns (Some []) (Consume j)
    else ParseArray_loop n [] j.

Fixpoint ParseObject_loop (n : nat) (Result : JsonObject) (j : t)
  : outcome (option JsonObject) :=
  match n with
  | 0 => OutOfFuel
  | S n' =>
      if negb (JsonToken.is_a JsonTokenType.String (CurrentToken j))
      then ThrowParserError None "Expected string key" j
      else
        let j := Consume j in
        let Key := JsonToken.Value (CurrentToken j) in
        let j := Consume j in
        if negb (JsonToken.is_a JsonTokenType.Colon (CurrentToken j))
        then ThrowParserError None "Expected ':'" j
        else
          bind (ParseValue j) (fun Value j =>
          if HasError j then Returns None j
          else
            let Result := unordered_map.emplace Key Value Result in
            let j := Consume j in
            if negb (JsonToken.is_a JsonTokenType.Comma (CurrentToken j))
               && negb (JsonToken.is_a JsonTokenType.ObjectEnd (CurrentToken j))
            then ThrowParserError None "Expected ',' or '}'" j
            else if JsonToken.is_a JsonTokenType.ObjectEnd (CurrentToken j)
            then Returns (Some Result) j
            else ParseObject_loop n' Result (Peek j))
  end.

Definition ParseObject_with (n : nat) (j : t) : outcome (option JsonObject) :=
  let j := Consume j in
  if negb (JsonToken.is_a JsonTokenType.ObjectStart (CurrentToken j))
  then ThrowParserError None "Expected '{'" j
  else
    let j := Peek j in
    if JsonToken.is_a JsonTokenType.ObjectEnd (CurrentToken j)
    then Returns (Some []) (Consume j)
    else ParseObject_loop n [] j.
End Rules.

Fixpoint ParseValue (fuel : nat) (j : t) : outcome JsonValue :=
  match fuel with
  | 0 => OutOfFuel
  | S fuel' =>
      let j := Peek j in
      match JsonToken.Type_ (CurrentToken j) with
      | JsonTokenType.ObjectStart =>
          bind (ParseObject_with (ParseValue fuel') fuel' j)
               (fun p j => Returns (VObject p) j)
      | JsonTokenType.ArrayStart =>
          bind (ParseArray_with (ParseValue fuel') fuel' j)
               (fun p j => Returns (VArray p) j)
      | JsonTokenType.String =>
          let j := Consume j in
          Returns (VString (JsonToken.Value (CurrentToken j))) j
      | JsonTokenType.Number =>
          let j := Consume j in
          if IsFloat j
          then convert (stod (JsonToken.Value (CurrentToken j))) VDouble j
          else convert (stoll (JsonToken.Value (CurrentToken j))) VInt64 j
      | JsonTokenType.Null =>
          let j := Consume j in
          Returns VNull j
      | JsonTokenType.Boolean =>
          let j := Consume j in
          Returns (VBool (String.eqb (JsonToken.Value (CurrentToken j)) "true")) j
      | _ => ThrowParserError VUndefined "Unexpected token while parsing value" j
      end
  end.

Definition ParseArray (fuel : nat) : t -> outcome (option JsonArray) :=
  ParseArray_with (ParseValue fuel) fuel.

Definition ParseObject (fuel : nat) : t -> outcome (option JsonObject) :=
  ParseObject_with (ParseValue fuel) fuel.

(** [Parse(Input)].  The rules are given room for one nested call more
    than the input has characters; [Parse_total] below shows that no
    input needs more and that more room changes nothing.  A run on a
    stack that is smaller than the nesting of the input is not described. *)
Definition Parse (Input : string) (j : t) : outcome unit :=
  let j := make (JsonTokenizer.Init Input) (CurrentToken j) None (RootObject j) in
  bind (ParseObject (S (size Input)) j)
       (fun Root j => Returns tt (with_RootObject j Root)).
End Json.


(** ** Definitions used by the statements *)

(** [doc["x"].Or(7).GetAs<int>()] on a document that is not const. *)
Definition read_or (Key : string) (Default : JsonValue) (T : JsonType)
    (doc : Json.t) : result (JsonValue * Json.t) :=
  let (w, doc) := Json.subscript Key doc in
  Json.GetAs T (JsonValueWrapper.Or Default w) doc.

(** The same on a const document. *)
Definition read_or_const (Key : string) (Default : JsonValue) (T : JsonType)
    (doc : Json.t) : result (JsonValue * Json.t) :=
  match Json.subscript_const Key doc with
  | Ok (w, doc) => Json.GetAs T (JsonValueWrapper.Or Default w) doc
  | Raise e => Raise e
  end.

(** C2 as the specification has it: the read of a missing key returns the
    default and leaves the document as it was. *)
Definition read_or_leaves_document (doc : Json.t) : Prop :=
  Json.HasField None doc "x" = false ->
  read_or "x" (InitValue_int 7) TInt64 doc = Ok (VInt64 7, doc).

(** [CIsValidJsonGetValue<T>]: the types a typed read can ask for. *)
Definition CIsValidJsonGetValue (T : JsonType) : bool :=
  match T with
  | TBool | TInt64 | TDouble | TString | TArray | TObject => true
  | TUndefined | TNull => false
  end.

Definition quoted (s : string) : string := String quote s ++ String quote "".

(** [drop n s]: [s] without its first [n] characters. *)
Fixpoint drop (n : nat) (s : string) : string :=
  match n, s with
  | 0, _ => s
  | S n', String _ r => drop n' r
  | S _, EmptyString => EmptyString
  end.

(** What the tokenizer has not read yet. *)
Definition remaining (tz : JsonTokenizer.t) : string :=
  drop (JsonTokenizer.Position tz) (JsonTokenizer.Input tz).

(** Two states are on the same text when they differ in the cursor only. *)
Definition moved (tz tz' : JsonTokenizer.t) : Prop :=
  JsonTokenizer.Input tz' = JsonTokenizer.Input tz
  /\ JsonTokenizer.CurrentToken tz' = JsonTokenizer.CurrentToken tz.

(** *** The tokenizer as a function of the text that is left

    The three scanners below say what [ParseString], [ParseNumer] and
    [NextToken] do in terms of the unread text alone; the lemmas
    [ParseString_loop_scan], [ParseNumer_loop_scan] and [NextToken_lex]
    prove that they agree with the tokenizer. *)

Fixpoint scan_string (s Value : string) : string * string :=
  match s with
  | EmptyString => (Value, "")
  | String c r =>
      if Ascii.eqb c NUL then (Value, r)
      else if Ascii.eqb c backslash then
        match r with
        | String d r' => scan_string r' (push_back Value d)
        | EmptyString => (push_back Value NUL, "")
        end
      else if Ascii.eqb c quote then (Value, r)
      else scan_string r (push_back Value c)
  end.

Fixpoint scan_number (s Value : string) : string * string :=
  match s with
  | EmptyString => (Value, "")
  | String c r =>
      if JsonTokenizer.IsValidNumberChar c
      then scan_number r (push_back Value c)
      else (Value, s)
  end.

Definition lex (text : string) : JsonTokenType.t * string * string :=
  let s := skip_space text in
  match s with
  | EmptyString => (JsonTokenType.None, "", "")
  | String c r =>
      if Ascii.eqb c "{" then (JsonTokenType.ObjectStart, "{", r)
      else if Ascii.eqb c "}" then (JsonTokenType.ObjectEnd, "}", r)
      else if Ascii.eqb c "[" then (JsonTokenType.ArrayStart, "[", r)
      else if Ascii.eqb c "]" then (JsonTokenType.ArrayEnd, "]", r)
      else if Ascii.eqb c "," then (JsonTokenType.Comma, ",", r)
      else if Ascii.eqb c ":" then (JsonTokenType.Colon, ":", r)
      else if Ascii.eqb c "n" then
        if String.eqb (substring 0 4 s) "null"
        then (JsonTokenType.Null, "null", drop 4 s)
        else (JsonTokenType.Invalid, "", s)
      else if Ascii.eqb c quote then
        let (v, r') := scan_string r "" in (JsonTokenType.String, v, r')
      else if Ascii.eqb c "t" || Ascii.eqb c "f" then
        if String.eqb (substring 0 4 s) "true"
        then (JsonTokenType.Boolean, "true", drop 4 s)
        else if String.eqb (substring 0 5 s) "false"
        then (JsonTokenType.Boolean, "false", drop 5 s)
        else (JsonTokenType.Invalid, "", s)
      else if JsonTokenizer.IsValidNumberChar c then
        let (v, r') := scan_number s "" in (JsonTokenType.Number, v, r')
      else (JsonTokenType.Invalid, "", s)
  end.

(** Strings that [ParseString] reads back unchanged: no quote, no
    backslash, no NUL. *)
Definition plain_char (c : ascii) : bool :=
  negb (Ascii.eqb c quote) && negb (Ascii.eqb c backslash)
  && negb (Ascii.eqb c NUL).

Fixpoint plain (s : string) : bool :=
  match s with
  | EmptyString => true
  | String c r => plain_char c && plain r
  end.

(** The body of a string literal that is closed by the quote behind it:
    a backslash has a character after it, and a quote or a NUL stands
    only behind a backslash. *)
Fixpoint escaped (s : string) : bool :=
  match s with
  | EmptyString => true
  | String c r =>
      if Ascii.eqb c backslash then
        match r with
        | String _ r' => escaped r'
        | EmptyString => false
        end
      else negb (Ascii.eqb c quote) && negb (Ascii.eqb c NUL) && escaped r
  end.

(** C8 as amended: every backslash is left out and the character after
    it is kept as it stands. *)
Fixpoint unescape (s : string) : string :=
  match s with
  | EmptyString => EmptyString
  | String c r =>
      if Ascii.eqb c backslash then
        match r with
        | String d r' => String d (unescape r')
        | EmptyString => EmptyString
        end
      else String c (unescape r)
  end.

(** C8 as the specification has it: the text between the quotes, escape
    sequences included, is the value of the token. *)
Definition stored_literally (body : string) : Prop :=
  JsonToken.Value
    (fst (JsonTokenizer.NextToken (JsonTokenizer.Init (quoted body))))
  = body.

(** The outcome of a rule run on a document with another root object. *)
Definition reroot {A : Type} (r : option JsonObject) (m : Json.outcome A)
  : Json.outcome A :=
  match m with
  | Json.Returns a j => Json.Returns a (Json.with_RootObject j r)
  | Json.Throws e => Json.Throws e
  | Json.OutOfFuel => Json.OutOfFuel
  end.

(** C5 as the specification has it: after a parse that reports an error
    the document still has a root object. *)
Definition keeps_partial_tree (Input : string) : Prop :=
  forall j, Json.Parse Input Json.new = Json.Returns tt j ->
            Json.HasError j = true ->
            exists Root, Json.RootObject j = Some Root.

(** The error a rule finds on entry is the error it leaves. *)
Definition keeps {A : Type} (f : Json.t -> Json.outcome A) : Prop :=
  forall j e r j',
    Json.ErrorMessage j = Some e -> f j = Json.Returns r j' ->
    Json.ErrorMessage j' = Some e.

(** A rule does not look at the root object. *)
Definition rerooted {A : Type} (f : Json.t -> Json.outcome A) : Prop :=
  forall j r, f (Json.with_RootObject j r) = reroot r (f j).

(** *** The token stream of a tokenizer

    [Reads tz T]: the tokens that [tz] will hand out are the tokens of the
    text [T].  Either the cache is empty and the unread text lexes like
    [T], or the cache holds the first token of [T] and the unread text is
    what follows that token. *)
Definition Reads (tz : JsonTokenizer.t) (T : string) : Prop :=
  if JsonToken.is_a JsonTokenType.Invalid (JsonTokenizer.CurrentToken tz)
  then lex (remaining tz) = lex T
  else (JsonToken.Type_ (JsonTokenizer.CurrentToken tz),
        JsonToken.Value (JsonTokenizer.CurrentToken tz),
        remaining tz) = lex T.

(** White space, as [std::isspace] sees it. *)
Fixpoint blank (s : string) : bool :=
  match s with
  | EmptyString => true
  | String c r => isspace c && blank r
  end.

(** Text that ends a number token: nothing, or a character that cannot be
    part of a number. *)
Definition stops (k : string) : bool :=
  match k with
  | EmptyString => true
  | String c _ => negb (JsonTokenizer.IsValidNumberChar c)
  end.

(** Text made of the characters of number tokens, and not empty. *)
Fixpoint number_chars (s : string) : bool :=
  match s with
  | EmptyString => true
  | String c r => JsonTokenizer.IsValidNumberChar c && number_chars r
  end.

Definition number_text (s : string) : bool :=
  match s with
  | EmptyString => false
  | _ => number_chars s
  end.

Fixpoint all_digits (s : string) : bool :=
  match s with
  | EmptyString => true
  | String c r => isdigit c && all_digits r
  end.

(** *** Trees that survive a round trip *)

Definition in_int64 (n : Z) : bool :=
  ((INT64_MIN <=? n) && (n <=? INT64_MAX))%Z.

Definition double_eqb (a b : double) : bool :=
  match a, b with
  | S754_zero s, S754_zero s' => Bool.eqb s s'
  | S754_infinity s, S754_infinity s' => Bool.eqb s s'
  | S754_nan, S754_nan => true
  | S754_finite s m e, S754_finite s' m' e' =>
      Bool.eqb s s' && Pos.eqb m m' && Z.eqb e e'
  | _, _ => false
  end.

(** A double whose six-decimal text is the text of a number token that
    [ParseValue] takes for a float and [std::stod] turns into the same
    double again. *)
Definition double_survives (d : double) : bool :=
  let t := to_string_double d in
  number_text t && (contains "." t || contains "e" t)
  && match stod t with
     | Ok d' => double_eqb d' d
     | Raise _ => false
     end.

(** The invariant of the map: no key twice. *)
Fixpoint unique_keys (m : JsonObject) : bool :=
  match m with
  | [] => true
  | (k, _) :: r =>
      match unordered_map.find k r with
      | Some _ => false
      | None => unique_keys r
      end
  end.

(** A tree that [Serialize] can write and [Parse] reads back: no
    [Undefined], no empty container pointer, integers that are [int64_t]s,
    doubles that survive their text, strings and keys that are [plain], and
    maps without a repeated key. *)
Fixpoint round_trips (v : JsonValue) : bool :=
  match v with
  | VUndefined => false
  | VNull => true
  | VBool _ => true
  | VInt64 n => in_int64 n
  | VDouble d => double_survives d
  | VString s => plain s
  | VArray (Some a) => forallb round_trips a
  | VArray None => false
  | VObject (Some o) =>
      forallb (fun kv => plain (fst kv) && round_trips (snd kv)) o
      && unique_keys o
  | VObject None => false
  end.

(** What the serializer writes between two values: the comma before every
    value but the first, and the line break and the tabs of the pretty
    mode. *)
Definition comma (Written : nat) : string :=
  if (0 <? Written)%nat then "," else "".

Definition newline (bPretty : bool) (Depth : nat) : string :=
  if bPretty then String LF "" ++ repeat_char Depth TAB else "".

(** The token a value's text starts with, seen from the text [t]. *)
Definition first_token (v : JsonValue) (t k : string)
  : JsonTokenType.t * string * string :=
  match v with
  | VUndefined => lex t
  | VNull => (JsonTokenType.Null, "null", k)
  | VBool b => (JsonTokenType.Boolean, if b then "true" else "false", k)
  | VInt64 n => (JsonTokenType.Number, to_string_int64 n, k)
  | VDouble d => (JsonTokenType.Number, to_string_double d, k)
  | VString s => (JsonTokenType.String, s, k)
  | VArray _ => (JsonTokenType.ArrayStart, "[", drop 1 t)
  | VObject _ => (JsonTokenType.ObjectStart, "{", drop 1 t)
  end.

(** The line break before a closing bracket: pretty mode, and something
    was written after the opening bracket. *)
Definition closing (bPretty : bool) (Result : string) (Depth : nat) : string :=
  if bPretty && (1 <? size Result)%nat then newline true Depth else "".

(** What stands between a key and its value. *)
Definition separator (bPretty : bool) (Value : JsonValue) (Depth : nat) : string :=
  if bPretty && Json.is_container Value
  then String LF "" ++ repeat_char (Depth + 1) TAB else " ".

(** [reads_back v]: wherever the text of [v] stands in the input, followed
    by text that ends a number, [ParseValue] returns [v], records no error
    and leaves the rest of the input to be read. *)
Definition reads_back (v : JsonValue) : Prop :=
  forall bPretty Depth s,
    Json.SerializeValue v "" bPretty Depth = Some s ->
    round_trips v = true ->
    forall fuel j k,
      String.length s <= fuel ->
      Json.HasError j = false ->
      Reads (Json.Tokenizer j) (s ++ k) ->
      stops k = true ->
      exists j',
        Json.ParseValue fuel j = Json.Returns v j'
        /\ Json.HasError j' = false
        /\ Reads (Json.Tokenizer j') k.

(** A document for the examples: an integer, an array and a nested object
    with the double 1.5. *)
Definition sample_tree : JsonObject :=
  [("a", VInt64 (-12));
   ("b", VArray (Some [VBool true; VNull; VString "x y"]));
   ("c", VObject (Some [("d", VDouble (S754_finite false 6755399441055744 (-52)))]))].

Definition sample_document : Json.t :=
  Json.with_RootObject Json.new (Some sample_tree).

(** *** C1 as the specification has it *)

(** A character the specification lets a string hold: no quote and no
    control character. *)
Definition allowed_char (c : ascii) : bool :=
  negb (Ascii.eqb c quote)
  && (32 <=? nat_of_ascii c)%nat && negb (nat_of_ascii c =? 127)%nat.

Fixpoint allowed (s : string) : bool :=
  match s with
  | EmptyString => true
  | String c r => allowed_char c && allowed r
  end.

Fixpoint strings_allowed (v : JsonValue) : bool :=
  match v with
  | VString s => allowed s
  | VArray (Some a) => forallb strings_allowed a
  | VObject (Some o) =>
      forallb (fun kv => allowed (fst kv) && strings_allowed (snd kv)) o
  | _ => true
  end.

(** Trees equal in structure and scalar values: the elements of an array
    are compared in order, the members of an object by their keys,
    whatever their order. *)
Fixpoint same_tree (a b : JsonValue) {struct a} : bool :=
  match a, b with
  | VUndefined, VUndefined => true
  | VNull, VNull => true
  | VBool x, VBool y => Bool.eqb x y
  | VInt64 x, VInt64 y => Z.eqb x y
  | VDouble x, VDouble y => double_eqb x y
  | VString x, VString y => String.eqb x y
  | VArray None, VArray None => true
  | VArray (Some xs), VArray (Some ys) =>
      (fix elements (xs ys : list JsonValue) {struct xs} : bool :=
         match xs, ys with
         | [], [] => true
         | x :: xs', y :: ys' => same_tree x y && elements xs' ys'
         | _, _ => false
         end) xs ys
  | VObject None, VObject None => true
  | VObject (Some xo), VObject (Some yo) =>
      (length xo =? length yo)%nat
      && forallb (fun kv =>
                    match unordered_map.find (fst kv) yo with
                    | Some y => same_tree (snd kv) y
                    | None => false
                    end) xo
  | _, _ => false
  end.

(** The round trip of the specification for the tree under [Root]: when
    its strings are allowed, the compact text is written, [Parse] reads
    it, and the tree it leaves is the same. *)
Definition round_trip_as_specified (Root : JsonObject) : Prop :=
  strings_allowed (VObject (Some Root)) = true ->
  exists text j' Root',
    Json.Serialize false (Json.with_RootObject Json.new (Some Root)) = Some text
    /\ Json.Parse text Json.new = Json.Returns tt j'
    /\ Json.RootObject j' = Some Root'
    /\ same_tree (VObject (Some Root')) (VObject (Some Root)) = true.

(** The double nearest to one third, for the examples. *)
Definition one_third : double := S754_finite false 6004799503160661 (-54).

(** *** What is left to read

    A token that stands for text: every type but [None], the end of the
    input, and [Invalid], the empty cache and the character no token
    starts with. *)
Definition real (ty : JsonTokenType.t) : bool :=
  negb (JsonTokenType.eqb ty JsonTokenType.Invalid)
  && negb (JsonTokenType.eqb ty JsonTokenType.None).

(** The unread characters, and one more for a token in the cache. *)
Definition pending (tz : JsonTokenizer.t) : nat :=
  String.length (remaining tz)
  + (if real (JsonToken.Type_ (JsonTokenizer.CurrentToken tz)) then 1 else 0).

(** The exceptions of [std::stoll] and [std::stod]. *)
Definition conversion_error (e : exn) : bool :=
  match e with
  | invalid_argument | out_of_range => true
  | runtime_error _ => false
  end.

(** A rule that ends whenever there is less than [F] to read: it returns,
    and leaves no more to read than it found, or it throws what a
    conversion threw. *)
Definition halts {A : Type} (F : nat) (f : Json.t -> Json.outcome A) : Prop :=
  forall j,
    pending (Json.Tokenizer j) < F ->
    match f j with
    | Json.Returns _ j' =>
        pending (Json.Tokenizer j') <= pending (Json.Tokenizer j)
    | Json.Throws e => conversion_error e = true
    | Json.OutOfFuel => False
    end.

(** *** Trees that a parse can leave *)

Definition finite (d : double) : bool :=
  match d with
  | S754_zero _ | S754_finite _ _ _ => true
  | S754_infinity _ | S754_nan => false
  end.

(** No [Undefined], no empty container pointer, integers in [int64_t],
    doubles that are numbers, and no key twice in an object. *)
Fixpoint well_formed (v : JsonValue) : bool :=
  match v with
  | VUndefined => false
  | VNull => true
  | VBool _ => true
  | VInt64 n => in_int64 n
  | VDouble d => finite d
  | VString _ => true
  | VArray (Some a) => forallb well_formed a
  | VArray None => false
  | VObject (Some o) =>
      forallb (fun kv => well_formed (snd kv)) o && unique_keys o
  | VObject None => false
  end.

(** What a rule returns without an error is well formed. *)
Definition parses_well_formed (f : Json.t -> Json.outcome JsonValue) : Prop :=
  forall j v j',
    f j = Json.Returns v j' -> Json.HasError j' = false ->
    well_formed v = true.

(** A text for the examples: an array, a nested object and a double. *)
Definition sample_text : string :=
  "{" ++ quoted "a" ++ ": [1, {" ++ quoted "b" ++ ": null}], "
      ++ quoted "c" ++ ": 2.5}".

(** *** Initializer lists *)

(** [bIsObject]: the list is not empty and its first entry has a key. *)
Definition bIsObject (List : list JsonInitValue.t) : bool :=
  match List with
  | [] => false
  | first :: _ => JsonInitValue.has_key first
  end.

(** The value of the first entry of the list that has the key [Key]. *)
Fixpoint first_keyed (Key : string) (List : list JsonInitValue.t)
  : option JsonValue :=
  match List with
  | [] => None
  | InitValue :: rest =>
      match JsonInitValue.Key InitValue with
      | Some k =>
          if String.eqb k Key then Some (JsonInitValue.Value InitValue)
          else first_keyed Key rest
      | None => first_keyed Key rest
      end
  end.

(** The values of the entries without a key, in the order of the list. *)
Definition unkeyed_values (List : list JsonInitValue.t) : list JsonValue :=
  map JsonInitValue.Value
      (filter (fun InitValue => negb (JsonInitValue.has_key InitValue)) List).

(** A list for the examples: two entries for the key a around an entry
    without a key. *)
Definition sample_list : list JsonInitValue.t :=
  [JsonInitValue.keyed "a" (VInt64 1); JsonInitValue.unkeyed VNull;
   JsonInitValue.keyed "a" (VInt64 2); JsonInitValue.keyed "b" (VBool true)].

(** *** Reading and writing a member of a document *)

(** [doc[Key].GetAs<T>()] on a document that is not const. *)
Definition read (Key : string) (T : JsonType) (doc : Json.t)
  : result (JsonValue * Json.t) :=
  let (w, doc) := Json.subscript Key doc in
  Json.GetAs T w doc.

(** [doc[Key] = ValueIn]. *)
Definition write (Key : string) (ValueIn : JsonValue) (doc : Json.t) : Json.t :=
  let (w, doc) := Json.subscript Key doc in
  Json.assign ValueIn w doc.

(** [JsonArray& a = doc[Key]], with the document as the statement leaves
    it, thrown or not. *)
Definition convert_JsonArray (Key : string) (doc : Json.t)
  : result JsonArray * Json.t :=
  let (w, doc) := Json.subscript Key doc in
  Json.as_JsonArray w doc.

(** *** What an error message says *)

(** The reasons the parser gives. *)
Definition parse_errors : list string :=
  ["Invalid token"; "Expected '{'"; "Expected '['"; "Expected string key";
   "Expected ':'"; "Expected ',' or '}'"; "Expected ',' or ']'";
   "Unexpected token while parsing value"].

(** The document reads [Input], and the error it holds, if any, was
    formatted for a token of that input with one of the reasons above. *)
Definition reported (Input : string) (j : Json.t) : Prop :=
  JsonTokenizer.Input (Json.Tokenizer j) = Input
  /\ match Json.ErrorMessage j with
     | None => True
     | Some e =>
         exists Token reason,
           e = Json.format_error Token (Json.ErrorLocation Input Token) reason
           /\ In reason parse_errors
     end.

Definition reports {A : Type} (f : Json.t -> Json.outcome A) : Prop :=
  forall Input j r j',
    reported Input j -> f j = Json.Returns r j' -> reported Input j'.

(** *** What may follow the digits of an integer

    Characters of a number token that [std::stoll] stops at and that do
    not make the token a float: signs and the capital [E], and after the
    first of them anything but a point or a small [e]. *)
Definition ignored_tail (tail : string) : bool :=
  match tail with
  | EmptyString => true
  | String c _ => negb (isdigit c)
  end
  && number_chars tail
  && negb (contains "." tail) && negb (contains "e" tail).

(** * Properties *)

(** ** Strings *)

Lemma append_assoc (a b c : string) : (a ++ b) ++ c = a ++ (b ++ c).
Proof. induction a as [| x a IH]; simpl; [reflexivity | rewrite IH; reflexivity]. Qed.

Lemma append_nil_r (a : string) : a ++ "" = a.
Proof. induction a as [| x a IH]; simpl; [reflexivity | rewrite IH; reflexivity]. Qed.

Lemma length_append (a b : string) :
  String.length (a ++ b) = String.length a + String.length b.
Proof. induction a as [| x a IH]; simpl; [reflexivity | rewrite IH; reflexivity]. Qed.


(** ** Array indexing *)

(** C7.  Indexing a [JsonArray] at its length or beyond, through either
    [operator[]], throws [std::out_of_range]: no wrapper is returned, so no
    default value is, and nothing is read outside the vector. *)
Theorem array_subscript_out_of_bounds
    (a : JsonArray) (Index : nat) (H : length a <= Index) :
  JsonArray.subscript Index a = Raise out_of_range
  /\ JsonArray.subscript_const Index a = Raise out_of_range
  /\ (forall w, JsonArray.subscript Index a <> Ok w)
  /\ (forall w, JsonArray.subscript_const Index a <> Ok w).
Proof.
  unfold JsonArray.subscript, JsonArray.subscript_const.
  assert (E : (Index <? length a)%nat = false) by (apply Nat.ltb_ge; exact H).
  rewrite E. repeat split; intros w; discriminate.
Qed.

Lemma array_subscript_out_of_bounds_witness :
  length [VNull; VBool true] <= 2
  /\ JsonArray.subscript 2 [VNull; VBool true] = Raise out_of_range.
Proof.
  split; [simpl; lia |].
  apply (array_subscript_out_of_bounds [VNull; VBool true] 2); simpl; lia.
Defined.

(** In bounds the wrapper designates the element asked for. *)
Lemma array_subscript_in_bounds (a : JsonArray) (Index : nat) :
  Index < length a ->
  exists w, JsonArray.subscript Index a = Ok w
            /\ nth_error a Index = Some (JsonArray.load (JsonValueWrapper.Value w) a).
Proof.
  intros H. unfold JsonArray.subscript.
  apply Nat.ltb_lt in H as E. rewrite E.
  eexists; split; [reflexivity |]. simpl.
  apply nth_error_nth'. exact H.
Qed.

(** ** The map *)

Lemma find_app (Key : string) (m m' : JsonObject) :
  unordered_map.find Key (m ++ m')%list =
  match unordered_map.find Key m with
  | Some v => Some v
  | None => unordered_map.find Key m'
  end.
Proof.
  induction m as [| [k v] m IH]; simpl; [reflexivity |].
  destruct (String.eqb k Key); [reflexivity | exact IH].
Qed.

Lemma find_subscript_absent (Key : string) (m : JsonObject) :
  unordered_map.find Key m = None ->
  unordered_map.subscript Key m = (m ++ [(Key, VUndefined)])%list
  /\ unordered_map.find Key (unordered_map.subscript Key m) = Some VUndefined.
Proof.
  intros H. unfold unordered_map.subscript, unordered_map.emplace.
  rewrite H. split; [reflexivity |].
  rewrite find_app, H. simpl. rewrite String.eqb_refl. reflexivity.
Qed.

Lemma find_subscript_present (Key : string) (m : JsonObject) (v : JsonValue) :
  unordered_map.find Key m = Some v ->
  unordered_map.subscript Key m = m.
Proof.
  intros H. unfold unordered_map.subscript, unordered_map.emplace.
  rewrite H. reflexivity.
Qed.

Lemma assign_same (Key : string) (m : JsonObject) (v : JsonValue) :
  unordered_map.find Key m = Some v ->
  unordered_map.assign Key v m = m.
Proof.
  induction m as [| [k x] m IH]; simpl; [reflexivity |].
  destruct (String.eqb k Key) eqn:E.
  - intros [= ->]. reflexivity.
  - intros H. rewrite (IH H). reflexivity.
Qed.

(** ** The accessor *)

(** A defaulted read hands the slot back as it found it, whatever the
    slot, the default and the type asked for. *)
Lemma Get_Internal_Or_frame (T : JsonType) (w : JsonValueWrapper.t)
    (Default slot v slot' : JsonValue) :
  JsonValueWrapper.Get_Internal T (JsonValueWrapper.Or Default w) slot
    = Ok (v, slot') ->
  slot' = slot.
Proof.
  unfold JsonValueWrapper.Get_Internal, JsonValueWrapper.Or. simpl.
  destruct (HasType T slot); simpl.
  - intros [= _ <-]. reflexivity.
  - destruct (HasType T Default); simpl; [| discriminate].
    intros [= _ <-]. reflexivity.
Qed.

(** C2, counterexample.  On the empty document the read returns 7, and the
    document has gained the key ["x"], bound to [Undefined]: the lookup
    [doc["x"]] inserted it before [Or] was reached. *)
Lemma read_or_inserts_key :
  ~ read_or_leaves_document Json.new
  /\ (exists doc',
        read_or "x" (InitValue_int 7) TInt64 Json.new = Ok (VInt64 7, doc')
        /\ Json.RootObject Json.new = Some []
        /\ Json.RootObject doc' = Some [("x", VUndefined)]).
Proof.
  split.
  - intros H. specialize (H eq_refl). vm_compute in H. discriminate.
  - eexists. split; [vm_compute; reflexivity |]. split; reflexivity.
Qed.

(** C2, amended.  On a document with no entry for the key, the read
    returns the default; the lookup has inserted the key with an
    [Undefined] value after the entries that were there, and the read has
    not touched that slot.  On a document where the key holds 5 the read
    returns 5 and the document is the same.  A defaulted read never changes
    the slot it is bound to. *)
Theorem read_or_default (doc : Json.t) (Root : JsonObject) (Key : string)
    (HRoot : Json.RootObject doc = Some Root) :
  (unordered_map.find Key Root = None ->
     read_or Key (InitValue_int 7) TInt64 doc
     = Ok (VInt64 7,
           Json.with_RootObject doc (Some (Root ++ [(Key, VUndefined)])%list)))
  /\ (unordered_map.find Key Root = Some (VInt64 5) ->
     read_or Key (InitValue_int 7) TInt64 doc = Ok (VInt64 5, doc))
  /\ (forall T w Default slot v slot',
        JsonValueWrapper.Get_Internal T (JsonValueWrapper.Or Default w) slot
          = Ok (v, slot') ->
        slot' = slot).
Proof.
  split; [| split].
  - intros H. unfold read_or, Json.subscript. rewrite HRoot.
    destruct (find_subscript_absent Key Root H) as [E F].
    unfold Json.GetAs, JsonObject.GetAs. simpl.
    rewrite F. simpl. rewrite E.
    rewrite (assign_same Key _ VUndefined); [reflexivity |].
    rewrite <- E. exact F.
  - intros H. unfold read_or, Json.subscript. rewrite HRoot.
    rewrite (find_subscript_present Key Root _ H).
    unfold Json.GetAs, JsonObject.GetAs. simpl.
    rewrite H. simpl. rewrite (assign_same Key Root _ H).
    destruct doc; simpl in *. rewrite HRoot. reflexivity.
  - intros T w Default slot v slot'. apply Get_Internal_Or_frame.
Qed.

Lemma read_or_default_witness :
  Json.RootObject Json.new = Some []
  /\ read_or "x" (InitValue_int 7) TInt64 Json.new
     = Ok (VInt64 7, Json.with_RootObject Json.new (Some [("x", VUndefined)])).
Proof.
  split; [reflexivity |].
  apply (proj1 (read_or_default Json.new [] "x" eq_refl)). reflexivity.
Defined.

(** The const document behaves the same: its [operator[]] goes through
    the non-const map of the root. *)
Lemma read_or_const_same (doc : Json.t) (Root : JsonObject) (Key : string)
    (Default : JsonValue) (T : JsonType) :
  Json.RootObject doc = Some Root ->
  read_or_const Key Default T doc = read_or Key Default T doc.
Proof.
  intros H. unfold read_or_const, read_or, Json.subscript_const, Json.subscript.
  rewrite H. reflexivity.
Qed.

(** C10.  Const indexing of a [JsonObject] at a missing key returns a
    wrapper on the static [EmptyValue] and has no object to give back: the
    object is the one it was, without the key.  The wrapper observes
    [Undefined], so [Else] runs its callback, and every typed read and
    every container conversion through it throws the type-mismatch error
    and leaves the object alone.  Non-const indexing of the same key
    inserts it with an [Undefined] value. *)
Theorem const_subscript_missing_key (o : JsonObject) (Key : string)
    (H : unordered_map.find Key o = None) :
  let w := JsonObject.subscript_const Key o in
  let slot := JsonObject.load (JsonValueWrapper.Value w) o in
  JsonValueWrapper.Value w = EmptyValue
  /\ slot = VUndefined
  /\ unordered_map.find Key o = None
  /\ (forall (S : Type) (Func : S -> S) (s : S),
        JsonValueWrapper.Else Func w slot s = Func s)
  /\ (forall T, CIsValidJsonGetValue T = true ->
        JsonObject.GetAs T w o
        = Raise (runtime_error "Field is not of the requested type"))
  /\ JsonValueWrapper.to_JsonArray w slot
     = Raise (runtime_error "Field is not of the requested type")
  /\ JsonValueWrapper.to_JsonObject w slot
     = Raise (runtime_error "Field is not of the requested type")
  /\ snd (JsonObject.subscript Key o) = (o ++ [(Key, VUndefined)])%list
  /\ unordered_map.find Key (snd (JsonObject.subscript Key o)) = Some VUndefined.
Proof.
  pose proof (find_subscript_absent Key o H) as [E F].
  unfold JsonObject.subscript_const. rewrite H. simpl.
  repeat split; try assumption.
  intros T HT. destruct T; try discriminate HT; reflexivity.
Qed.

Lemma const_subscript_missing_key_witness :
  unordered_map.find "b" [("a", VInt64 1)] = None
  /\ JsonObject.GetAs TInt64 (JsonObject.subscript_const "b" [("a", VInt64 1)])
       [("a", VInt64 1)]
     = Raise (runtime_error "Field is not of the requested type").
Proof.
  split; [reflexivity |].
  apply (const_subscript_missing_key [("a", VInt64 1)] "b" eq_refl).
  reflexivity.
Defined.

(** ** Serializing [Undefined] *)

(** C9.  [SerializeValue] has no branch for [Undefined] and leaves the
    text it was given, which both callers pass empty: the value
    contributes nothing.  A member holding [Undefined] is written as the
    quoted key, the colon and the one-space separator, and the next thing
    written is the comma of the next member or the closing brace.  A
    non-const lookup of a missing key leaves such a member behind, and the
    document then serializes to text that [Parse] refuses. *)
Theorem Undefined_serializes_to_nothing (Key : string) (doc : Json.t)
    (H : Json.HasField None doc Key = false) :
  (forall bPretty Depth,
     Json.SerializeValue VUndefined "" bPretty Depth = Some "")
  /\ (forall rest Written Result bPretty Depth,
        Json.SerializeObject_loop Json.SerializeValue
          ((Key, VUndefined) :: rest) Written Result bPretty Depth
        = Json.SerializeObject_loop Json.SerializeValue rest (S Written)
            (Json.indent bPretty
               (if (0 <? Written)%nat then Result ++ "," else Result)
               (Depth + 1)
             ++ String quote Key ++ String quote ":" ++ " " ++ "")
            bPretty Depth)
  /\ Json.HasField (Some TUndefined) (snd (Json.subscript Key doc)) Key = true
  /\ Json.Serialize false (snd (Json.subscript Key Json.new))
     = Some ("{" ++ quoted Key ++ ": }")
  /\ (exists j, Json.Parse ("{" ++ quoted "x" ++ ": }") Json.new
                = Json.Returns tt j
                /\ Json.HasError j = true).
Proof.
  split; [reflexivity |]. split; [| split; [| split]].
  - intros rest Written Result bPretty Depth. simpl.
    destruct bPretty; reflexivity.
  - unfold Json.HasField, Json.GetRootObject, Json.subscript,
      JsonObject.HasField in *. simpl.
    destruct (Json.RootObject doc) as [Root |]; simpl in *.
    + destruct (unordered_map.find Key Root) eqn:E; [discriminate |].
      rewrite (proj2 (find_subscript_absent Key Root E)). reflexivity.
    + rewrite String.eqb_refl. reflexivity.
  - unfold quoted, Json.Serialize, Json.SerializeObject,
      Json.SerializeObject_with, Json.close. simpl.
    rewrite !append_assoc. reflexivity.
  - eexists. split; [vm_compute; reflexivity | reflexivity].
Qed.

Lemma Undefined_serializes_to_nothing_witness :
  Json.HasField None Json.new "x" = false
  /\ Json.Serialize false (snd (Json.subscript "x" Json.new))
     = Some ("{" ++ quoted "x" ++ ": }").
Proof.
  split; [reflexivity |].
  exact (proj1 (proj2 (proj2 (proj2
           (Undefined_serializes_to_nothing "x" Json.new eq_refl))))).
Defined.

(** ** Number tokens *)

(** C3, at the failing input [{"a": --1}].  The tokenizer takes [--1] for
    a number, [std::stoll] finds no digit and throws
    [std::invalid_argument], and the exception leaves [Parse]: no error
    is recorded, [Parse] does not return. *)
Theorem malformed_number_throws :
  JsonTokenizer.NextToken (JsonTokenizer.Init "--1}")
  = (JsonToken.make JsonTokenType.Number 0 "--1",
     JsonTokenizer.make 3 "--1}" (JsonToken.make JsonTokenType.Invalid 0 ""))
  /\ stoll "--1" = Raise invalid_argument
  /\ Json.Parse ("{" ++ quoted "a" ++ ": --1}") Json.new
     = Json.Throws invalid_argument
  /\ (forall j, Json.Parse ("{" ++ quoted "a" ++ ": --1}") Json.new
                <> Json.Returns tt j).
Proof.
  repeat split; try (vm_compute; reflexivity).
  intros j. vm_compute. discriminate.
Qed.

(** C4, at the failing input [{"a": 1E5}].  [IsFloat] looks for ['.'] and
    for ['e'] only, so the token [1E5] goes to [std::stoll], which stops at
    the ['E']: the member is the integer 1. *)
Theorem uppercase_exponent_is_integer :
  JsonTokenizer.IsValidNumberChar "E" = true
  /\ (contains "." "1E5" || contains "e" "1E5") = false
  /\ stoll "1E5" = Ok 1%Z
  /\ (exists j, Json.Parse ("{" ++ quoted "a" ++ ": 1E5}") Json.new
                = Json.Returns tt j
                /\ Json.HasError j = false
                /\ Json.RootObject j = Some [("a", VInt64 1)]).
Proof.
  repeat split; try (vm_compute; reflexivity).
  eexists. split; [vm_compute; reflexivity |]. split; reflexivity.
Qed.

(** ** The tokenizer on the text that is left *)

Lemma drop_nil (n : nat) : drop n "" = "".
Proof. destruct n; reflexivity. Qed.

Lemma get_drop (n : nat) (s : string) :
  String.get n s = match drop n s with String c _ => Some c | EmptyString => None end.
Proof.
  revert n. induction s as [| a s IH]; intros [| n]; simpl; try reflexivity.
  apply IH.
Qed.

Lemma drop_S (n : nat) (s : string) (c : ascii) (r : string) :
  drop n s = String c r -> drop (S n) s = r.
Proof.
  revert n. induction s as [| a s IH]; intros [| n]; simpl; intros H;
    try discriminate.
  - injection H as _ ->. reflexivity.
  - destruct s as [| b s'].
    + rewrite drop_nil in H. discriminate.
    + apply (IH n H).
Qed.

Lemma drop_add (n m : nat) (s : string) : drop (n + m) s = drop m (drop n s).
Proof.
  revert s. induction n as [| n IH]; intros s; simpl; [reflexivity |].
  destruct s as [| a s]; [rewrite drop_nil; reflexivity | apply IH].
Qed.

Lemma length_drop (n : nat) (s : string) :
  String.length (drop n s) = String.length s - n.
Proof.
  revert n. induction s as [| a s IH]; intros [| n]; simpl; try reflexivity.
  apply IH.
Qed.

Lemma drop_append (a b : string) : drop (String.length a) (a ++ b) = b.
Proof. induction a as [| x a IH]; simpl; [reflexivity | exact IH]. Qed.

Lemma substring_drop (n m : nat) (s : string) :
  substring n m s = substring 0 m (drop n s).
Proof.
  revert n. induction s as [| a s IH]; intros [| n]; simpl; try reflexivity.
  - destruct m; reflexivity.
  - apply IH.
Qed.

Lemma substring_append (a b : string) :
  substring 0 (String.length a) (a ++ b) = a.
Proof. induction a as [| x a IH]; simpl; [destruct b | rewrite IH]; reflexivity. Qed.

Lemma remaining_with_Position (tz : JsonTokenizer.t) (p : nat) :
  remaining (JsonTokenizer.with_Position tz p) = drop p (JsonTokenizer.Input tz).
Proof. reflexivity. Qed.

Lemma length_remaining (tz : JsonTokenizer.t) :
  String.length (remaining tz)
  = size (JsonTokenizer.Input tz) - JsonTokenizer.Position tz.
Proof. apply length_drop. Qed.

Lemma moved_refl (tz : JsonTokenizer.t) : moved tz tz.
Proof. split; reflexivity. Qed.

Lemma moved_trans (a b c : JsonTokenizer.t) : moved a b -> moved b c -> moved a c.
Proof. intros [H1 H2] [H3 H4]. split; congruence. Qed.

Lemma Peek_remaining (tz : JsonTokenizer.t) :
  JsonTokenizer.Peek tz
  = match remaining tz with String c _ => c | EmptyString => NUL end.
Proof.
  unfold JsonTokenizer.Peek, remaining. rewrite get_drop.
  destruct (drop _ _); reflexivity.
Qed.

Lemma Get_cons (tz : JsonTokenizer.t) (c : ascii) (r : string) :
  remaining tz = String c r ->
  exists tz', JsonTokenizer.Get tz = (c, tz') /\ remaining tz' = r /\ moved tz tz'
              /\ JsonTokenizer.Position tz' = S (JsonTokenizer.Position tz).
Proof.
  intros H. unfold JsonTokenizer.Get. rewrite get_drop.
  unfold remaining in H. rewrite H.
  eexists. split; [reflexivity |].
  split; [| split; [split; reflexivity | reflexivity]].
  rewrite remaining_with_Position. apply (drop_S _ _ _ _ H).
Qed.

Lemma Get_nil (tz : JsonTokenizer.t) :
  remaining tz = "" -> JsonTokenizer.Get tz = (NUL, tz).
Proof.
  intros H. unfold JsonTokenizer.Get. rewrite get_drop.
  unfold remaining in H. rewrite H. reflexivity.
Qed.

Lemma SkipWhitespace_loop_remaining (n : nat) (tz : JsonTokenizer.t) :
  String.length (remaining tz) <= n ->
  let tz' := JsonTokenizer.SkipWhitespace_loop n tz in
  remaining tz' = skip_space (remaining tz) /\ moved tz tz'
  /\ JsonTokenizer.Position tz <= JsonTokenizer.Position tz'.
Proof.
  revert tz. induction n as [| n IH]; intros tz Hn; simpl.
  - destruct (remaining tz); [| simpl in Hn; lia].
    split; [reflexivity | split; [apply moved_refl | lia]].
  - rewrite get_drop. fold (remaining tz).
    destruct (remaining tz) as [| c r] eqn:E.
    + split; [exact E | split; [apply moved_refl | lia]].
    + simpl. destruct (isspace c) eqn:Ec.
      * assert (R : remaining (JsonTokenizer.with_Position tz
                                 (S (JsonTokenizer.Position tz))) = r).
        { rewrite remaining_with_Position. apply (drop_S _ _ _ _ E). }
        destruct (IH (JsonTokenizer.with_Position tz (S (JsonTokenizer.Position tz))))
          as (H1 & H2 & H3).
        { rewrite R. simpl in Hn. lia. }
        rewrite R in H1. split; [exact H1 |].
        split; [| simpl in H3; lia].
        destruct H2 as [H2 H4]. split; [exact H2 | exact H4].
      * split; [exact E | split; [apply moved_refl | lia]].
Qed.

Lemma SkipWhitespace_remaining (tz : JsonTokenizer.t) :
  let tz' := JsonTokenizer.SkipWhitespace tz in
  remaining tz' = skip_space (remaining tz) /\ moved tz tz'
  /\ JsonTokenizer.Position tz <= JsonTokenizer.Position tz'.
Proof.
  apply SkipWhitespace_loop_remaining. rewrite length_remaining. lia.
Qed.

Lemma ParseString_loop_scan (n : nat) (tz : JsonTokenizer.t) (Value : string) :
  String.length (remaining tz) < n ->
  exists tz',
    JsonTokenizer.ParseString_loop n tz Value
    = (fst (scan_string (remaining tz) Value), tz')
    /\ remaining tz' = snd (scan_string (remaining tz) Value)
    /\ moved tz tz'
    /\ JsonTokenizer.Position tz <= JsonTokenizer.Position tz'.
Proof.
  revert tz Value. induction n as [| n IH]; intros tz Value Hn; [lia |].
  simpl. destruct (remaining tz) as [| c r] eqn:E.
  - rewrite (Get_nil tz E). simpl.
    exists tz. repeat split; [exact E | lia].
  - destruct (Get_cons tz c r E) as (tz1 & G1 & R1 & M1 & P1).
    rewrite G1. simpl. destruct (Ascii.eqb c NUL).
    { exists tz1. repeat split; try apply M1; [exact R1 | lia]. }
    destruct (Ascii.eqb c backslash).
    { destruct r as [| d r'].
      - rewrite (Get_nil tz1 R1).
        destruct (IH tz1 (push_back Value NUL)) as (tz2 & L & R2 & M2 & P2).
        { rewrite R1. simpl in *. lia. }
        rewrite R1 in L, R2. simpl in L, R2.
        exists tz2. split; [exact L |]. split; [exact R2 |].
        split; [exact (moved_trans _ _ _ M1 M2) | lia].
      - destruct (Get_cons tz1 d r' R1) as (tz2 & G2 & R2 & M2 & P2).
        rewrite G2.
        destruct (IH tz2 (push_back Value d)) as (tz3 & L & R3 & M3 & P3).
        { rewrite R2. simpl in Hn. lia. }
        rewrite R2 in L, R3.
        exists tz3. split; [exact L |]. split; [exact R3 |].
        split; [exact (moved_trans _ _ _ M1 (moved_trans _ _ _ M2 M3)) | lia]. }
    destruct (Ascii.eqb c quote).
    { exists tz1. repeat split; try apply M1; [exact R1 | lia]. }
    destruct (IH tz1 (push_back Value c)) as (tz2 & L & R2 & M2 & P2).
    { rewrite R1. simpl in Hn. lia. }
    rewrite R1 in L, R2.
    exists tz2. split; [exact L |]. split; [exact R2 |].
    split; [exact (moved_trans _ _ _ M1 M2) | lia].
Qed.

Lemma ParseNumer_loop_scan (n : nat) (tz : JsonTokenizer.t) (Value : string) :
  String.length (remaining tz) <= n ->
  exists tz',
    JsonTokenizer.ParseNumer_loop n tz Value
    = (fst (scan_number (remaining tz) Value), tz')
    /\ remaining tz' = snd (scan_number (remaining tz) Value)
    /\ moved tz tz'
    /\ JsonTokenizer.Position tz <= JsonTokenizer.Position tz'.
Proof.
  revert tz Value. induction n as [| n IH]; intros tz Value Hn.
  - destruct (remaining tz) eqn:E; [| simpl in Hn; lia].
    simpl. exists tz. rewrite E. repeat split; lia.
  - simpl. rewrite Peek_remaining.
    destruct (remaining tz) as [| c r] eqn:E.
    + simpl. exists tz. rewrite E. repeat split; lia.
    + simpl. destruct (JsonTokenizer.IsValidNumberChar c).
      * destruct (Get_cons tz c r E) as (tz1 & G1 & R1 & M1 & P1).
        rewrite G1. simpl.
        destruct (IH tz1 (push_back Value c)) as (tz2 & L & R2 & M2 & P2).
        { rewrite R1. simpl in Hn. lia. }
        rewrite R1 in L, R2.
        exists tz2. split; [exact L |]. split; [exact R2 |].
        split; [exact (moved_trans _ _ _ M1 M2) | lia].
      * exists tz. rewrite E. repeat split; lia.
Qed.

Lemma size_le_remaining (tz : JsonTokenizer.t) :
  (size (JsonTokenizer.Input tz) <=? JsonTokenizer.Position tz)%nat
  = match remaining tz with EmptyString => true | String _ _ => false end.
Proof.
  pose proof (length_remaining tz) as L.
  destruct (remaining tz) as [| c r]; simpl in L.
  - apply Nat.leb_le. lia.
  - apply Nat.leb_gt. lia.
Qed.

Lemma symbol_cons (ty : JsonTokenType.t) (tz : JsonTokenizer.t) (c : ascii)
    (r : string) :
  remaining tz = String c r ->
  exists tz',
    JsonTokenizer.symbol ty tz
    = (JsonToken.make ty (JsonTokenizer.Position tz) (String c ""), tz')
    /\ remaining tz' = r /\ moved tz tz'.
Proof.
  intros E. unfold JsonTokenizer.symbol.
  destruct (Get_cons tz c r E) as (tz' & G & R & M & _).
  rewrite G. exists tz'. repeat split; try apply M. exact R.
Qed.

Lemma substr_remaining (tz : JsonTokenizer.t) (n : nat) :
  substr (JsonTokenizer.Input tz) (JsonTokenizer.Position tz) n
  = substring 0 n (remaining tz).
Proof. apply substring_drop. Qed.

Lemma remaining_advance (tz : JsonTokenizer.t) (n : nat) :
  remaining (JsonTokenizer.with_Position tz (JsonTokenizer.Position tz + n))
  = drop n (remaining tz).
Proof. rewrite remaining_with_Position. apply drop_add. Qed.

(** [NextToken] reads the token that [lex] finds in the unread text and
    leaves the rest of it unread. *)
Lemma NextToken_lex (tz : JsonTokenizer.t) :
  exists tok tz',
    JsonTokenizer.NextToken tz = (tok, tz')
    /\ (JsonToken.Type_ tok, JsonToken.Value tok, remaining tz')
       = lex (remaining tz)
    /\ moved tz tz'.
Proof.
  unfold JsonTokenizer.NextToken, lex.
  destruct (SkipWhitespace_remaining tz) as (R0 & M0 & _).
  set (tz0 := JsonTokenizer.SkipWhitespace tz) in *.
  rewrite <- R0. rewrite size_le_remaining, Peek_remaining.
  destruct (remaining tz0) as [| c r] eqn:E.
  { eexists _, tz0. split; [reflexivity |]. simpl. rewrite E.
    split; [reflexivity | exact M0]. }
  assert (SYM : forall ty,
    exists tok tz', JsonTokenizer.symbol ty tz0 = (tok, tz')
      /\ (JsonToken.Type_ tok, JsonToken.Value tok, remaining tz')
         = (ty, String c "", r) /\ moved tz tz').
  { intros ty. destruct (symbol_cons ty tz0 c r E) as (tz' & S & R & M).
    eexists _, tz'. split; [exact S |]. simpl. rewrite R.
    split; [reflexivity | exact (moved_trans _ _ _ M0 M)]. }
  destruct (Ascii.eqb c "{") eqn:C1.
  { apply Ascii.eqb_eq in C1. subst c. apply SYM. }
  destruct (Ascii.eqb c "}") eqn:C2.
  { apply Ascii.eqb_eq in C2. subst c. apply SYM. }
  destruct (Ascii.eqb c "[") eqn:C3.
  { apply Ascii.eqb_eq in C3. subst c. apply SYM. }
  destruct (Ascii.eqb c "]") eqn:C4.
  { apply Ascii.eqb_eq in C4. subst c. apply SYM. }
  destruct (Ascii.eqb c ",") eqn:C5.
  { apply Ascii.eqb_eq in C5. subst c. apply SYM. }
  destruct (Ascii.eqb c ":") eqn:C6.
  { apply Ascii.eqb_eq in C6. subst c. apply SYM. }
  clear SYM.
  destruct (Ascii.eqb c "n") eqn:C7.
  { unfold JsonTokenizer.ParseNull. rewrite substr_remaining, E.
    destruct (String.eqb _ "null").
    - eexists _, _. split; [reflexivity |]. simpl.
      rewrite remaining_advance, E.
      split; [reflexivity |]. destruct M0; split; assumption.
    - eexists _, tz0. split; [reflexivity |]. simpl. rewrite E.
      split; [reflexivity | exact M0]. }
  destruct (Ascii.eqb c quote) eqn:C8.
  { unfold JsonTokenizer.ParseString.
    destruct (Get_cons tz0 c r E) as (tz1 & G & R1 & M1 & _).
    rewrite G.
    destruct (ParseString_loop_scan
                (S (size (JsonTokenizer.Input tz1) - JsonTokenizer.Position tz1))
                tz1 "") as (tz2 & L & R2 & M2 & _).
    { rewrite length_remaining. lia. }
    rewrite L. rewrite R1 in R2 |- *.
    eexists _, tz2. split; [reflexivity |]. simpl. rewrite R2.
    destruct (scan_string r ""). split; [reflexivity |].
    exact (moved_trans _ _ _ M0 (moved_trans _ _ _ M1 M2)). }
  destruct (Ascii.eqb c "t" || Ascii.eqb c "f") eqn:C9.
  { unfold JsonTokenizer.ParseBoolean. rewrite !substr_remaining, E.
    destruct (String.eqb _ "true").
    - eexists _, _. split; [reflexivity |]. simpl.
      rewrite remaining_advance, E.
      split; [reflexivity |]. destruct M0; split; assumption.
    - destruct (String.eqb _ "false").
      + eexists _, _. split; [reflexivity |]. simpl.
        rewrite remaining_advance, E.
        split; [reflexivity |]. destruct M0; split; assumption.
      + eexists _, tz0. split; [reflexivity |]. simpl. rewrite E.
        split; [reflexivity | exact M0]. }
  destruct (JsonTokenizer.IsValidNumberChar c) eqn:C10.
  { unfold JsonTokenizer.ParseNumer.
    destruct (ParseNumer_loop_scan
                (size (JsonTokenizer.Input tz0) - JsonTokenizer.Position tz0)
                tz0 "") as (tz2 & L & R2 & M2 & _).
    { rewrite length_remaining. lia. }
    rewrite L. rewrite E in R2 |- *.
    set (sc := scan_number (String c r) "") in *.
    eexists _, tz2. split; [reflexivity |].
    cbn [JsonToken.Type_ JsonToken.Value]. rewrite R2.
    destruct sc. split; [reflexivity |].
    exact (moved_trans _ _ _ M0 M2). }
  eexists _, tz0. split; [reflexivity |]. simpl. rewrite E.
  split; [reflexivity | exact M0].
Qed.

(** ** String tokens *)

Lemma push_back_append (a b : string) (c : ascii) :
  push_back a c ++ b = a ++ String c b.
Proof. unfold push_back. rewrite append_assoc. reflexivity. Qed.

Lemma scan_string_plain (s r Value : string) :
  plain s = true ->
  scan_string (s ++ r) Value = scan_string r (Value ++ s).
Proof.
  revert Value. induction s as [| c s IH]; intros Value H; simpl.
  - rewrite append_nil_r. reflexivity.
  - simpl in H. apply andb_prop in H as [Hc Hs].
    unfold plain_char in Hc.
    apply andb_prop in Hc as [Hc Hn]. apply andb_prop in Hc as [Hq Hb].
    apply negb_true_iff in Hq, Hb, Hn. rewrite Hq, Hb, Hn.
    rewrite (IH _ Hs). rewrite push_back_append. reflexivity.
Qed.

Lemma scan_string_quoted (s r : string) :
  plain s = true ->
  scan_string (s ++ String quote r) "" = (s, r).
Proof.
  intros H. rewrite (scan_string_plain _ _ _ H). reflexivity.
Qed.

(** C8, counterexample.  The token read from ["a\nb"] has the value [anb]:
    the backslash is not in it, and the value is not the text between the
    quotes. *)
Lemma backslash_not_stored :
  JsonTokenizer.NextToken (JsonTokenizer.Init (quoted "a\nb"))
  = (JsonToken.make JsonTokenType.String 0 "anb",
     JsonTokenizer.make 6 (quoted "a\nb")
       (JsonToken.make JsonTokenType.Invalid 0 ""))
  /\ contains backslash "anb" = false
  /\ ~ stored_literally "a\nb".
Proof.
  split; [reflexivity |]. split; [reflexivity |].
  unfold stored_literally. vm_compute. discriminate.
Qed.

Lemma scan_string_escaped (n : nat) :
  forall body Value rest,
    String.length body <= n ->
    escaped body = true ->
    scan_string (body ++ String quote rest) Value
    = (Value ++ unescape body, rest).
Proof.
  induction n as [| n IH]; intros body Value rest L E.
  - destruct body; [| cbn in L; lia].
    cbn. rewrite append_nil_r. reflexivity.
  - destruct body as [| c r].
    { cbn. rewrite append_nil_r. reflexivity. }
    cbn [escaped unescape append scan_string String.length] in *.
    destruct (Ascii.eqb c backslash) eqn:B.
    + apply Ascii.eqb_eq in B. subst c.
      change (Ascii.eqb backslash NUL) with false. cbv iota.
      destruct r as [| d r']; [discriminate |].
      cbn [append String.length] in *.
      rewrite (IH r' (push_back Value d) rest ltac:(lia) E).
      rewrite push_back_append. reflexivity.
    + apply andb_prop in E as [E Er]. apply andb_prop in E as [Eq En].
      apply negb_true_iff in Eq, En. rewrite En, Eq.
      rewrite (IH r (push_back Value c) rest ltac:(lia) Er).
      rewrite push_back_append. reflexivity.
Qed.

(** C8, amended.  In a string token every backslash is dropped and the
    character after it, whatever it is, goes into the value as it stands;
    nothing is decoded and scanning goes on behind that character.  For
    every body, with any number of backslashes, that the quote behind it
    closes, the token read from the body between quotes has the body
    without its escaping backslashes for its value, and what follows the
    closing quote is left to read. *)
Theorem escape_takes_next_character (tz : JsonTokenizer.t)
    (body rest : string)
    (HBody : escaped body = true)
    (H : remaining tz = quoted body ++ rest) :
  exists tok tz',
    JsonTokenizer.NextToken tz = (tok, tz')
    /\ JsonToken.Type_ tok = JsonTokenType.String
    /\ JsonToken.Value tok = unescape body
    /\ remaining tz' = rest.
Proof.
  destruct (NextToken_lex tz) as (tok & tz' & N & L & _).
  exists tok, tz'. split; [exact N |].
  rewrite H in L. unfold quoted in L. cbn [append] in L.
  rewrite append_assoc in L. cbn [append] in L.
  change (lex (String quote (body ++ String quote rest)))
    with (let (v, r') := scan_string (body ++ String quote rest) "" in
          (JsonTokenType.String, v, r')) in L.
  rewrite (scan_string_escaped _ body "" rest (le_n _) HBody) in L.
  cbn [append] in L.
  injection L as L1 L2 L3. repeat split; assumption.
Qed.

Lemma escape_takes_next_character_witness :
  exists tok tz',
    JsonTokenizer.NextToken (JsonTokenizer.Init (quoted "a\nb\\c\td" ++ ","))
    = (tok, tz')
    /\ JsonToken.Type_ tok = JsonTokenType.String
    /\ JsonToken.Value tok = "anb\ctd"
    /\ remaining tz' = ",".
Proof.
  apply (escape_takes_next_character
           (JsonTokenizer.Init (quoted "a\nb\\c\td" ++ ",")) "a\nb\\c\td" ",");
    reflexivity.
Defined.

(** ** The error slot *)

Arguments Json.UpdateToken : simpl never.
Arguments Json.Consume : simpl never.
Arguments Json.Peek : simpl never.
Arguments Json.ThrowError : simpl never.
Arguments JsonTokenizer.NextToken : simpl never.
Arguments JsonTokenizer.PeekToken : simpl never.
Arguments JsonTokenizer.GetToken : simpl never.

(** One step of a rule: the fixpoints and [bind] are unfolded, the token
    updates are left alone. *)
Ltac rule_step :=
  cbn [Json.ParseObject_loop Json.ParseArray_loop Json.ParseValue Json.bind
       negb andb].

Lemma Returns_inj {A : Type} (a a' : A) (j j' : Json.t) :
  Json.Returns a j = Json.Returns a' j' -> a = a' /\ j = j'.
Proof. intros H. injection H as -> ->. split; reflexivity. Qed.

(** The rule returned: its result and the document it left are named. *)
Ltac returned :=
  let H := fresh in
  intros H; apply Returns_inj in H; destruct H as [<- <-].

Lemma ThrowError_latched (Token : JsonToken.t) (message : string) (j : Json.t) :
  Json.HasError j = true -> Json.ThrowError Token message j = j.
Proof. intros H. unfold Json.ThrowError. rewrite H. reflexivity. Qed.

Lemma ThrowError_sets (Token : JsonToken.t) (message : string) (j : Json.t) :
  Json.HasError (Json.ThrowError Token message j) = true.
Proof.
  unfold Json.ThrowError. destruct (Json.HasError j) eqn:E; [exact E | reflexivity].
Qed.

Lemma ThrowError_keeps (Token : JsonToken.t) (message : string) (j : Json.t)
    (e : string) :
  Json.ErrorMessage j = Some e ->
  Json.ErrorMessage (Json.ThrowError Token message j) = Some e.
Proof.
  intros H. rewrite ThrowError_latched; [exact H |].
  unfold Json.HasError. rewrite H. reflexivity.
Qed.

Lemma ThrowError_fields (Token : JsonToken.t) (message : string) (j : Json.t) :
  Json.Tokenizer (Json.ThrowError Token message j) = Json.Tokenizer j
  /\ Json.CurrentToken (Json.ThrowError Token message j) = Json.CurrentToken j
  /\ Json.RootObject (Json.ThrowError Token message j) = Json.RootObject j.
Proof.
  unfold Json.ThrowError. destruct (Json.HasError j); repeat split.
Qed.

Lemma UpdateToken_keeps (bPeak : bool) (j : Json.t) (e : string) :
  Json.ErrorMessage j = Some e ->
  Json.ErrorMessage (Json.UpdateToken bPeak j) = Some e.
Proof.
  intros H. unfold Json.UpdateToken.
  destruct (if bPeak then _ else _) as [tok tz]. simpl.
  destruct (JsonToken.is_a JsonTokenType.Invalid tok); [| exact H].
  apply ThrowError_keeps. exact H.
Qed.

(** A token update records an error only for an [Invalid] token. *)
Lemma UpdateToken_error_Invalid (bPeak : bool) (j : Json.t) :
  Json.HasError j = false ->
  Json.HasError (Json.UpdateToken bPeak j) = true ->
  JsonToken.is_a JsonTokenType.Invalid
    (Json.CurrentToken (Json.UpdateToken bPeak j)) = true.
Proof.
  intros H. unfold Json.UpdateToken.
  destruct (if bPeak then _ else _) as [tok tz]. simpl.
  destruct (JsonToken.is_a JsonTokenType.Invalid tok) eqn:E.
  - intros _. rewrite (proj1 (proj2 (ThrowError_fields _ _ _))). exact E.
  - unfold Json.HasError in *. simpl. intros H'. rewrite H' in H. discriminate.
Qed.

Lemma is_a_not_Invalid (ty : JsonTokenType.t) (tok : JsonToken.t) :
  JsonToken.is_a ty tok = true -> ty <> JsonTokenType.Invalid ->
  JsonToken.is_a JsonTokenType.Invalid tok = false.
Proof.
  unfold JsonToken.is_a. destruct (JsonToken.Type_ tok), ty;
    simpl; intros H N; try discriminate H; try reflexivity; contradiction.
Qed.

(** After an update that met the kind of token the parser asked for, the
    error slot is as empty as it was. *)
Lemma UpdateToken_quiet (bPeak : bool) (j : Json.t) (ty : JsonTokenType.t) :
  Json.HasError j = false ->
  JsonToken.is_a ty (Json.CurrentToken (Json.UpdateToken bPeak j)) = true ->
  ty <> JsonTokenType.Invalid ->
  Json.HasError (Json.UpdateToken bPeak j) = false.
Proof.
  intros H T N.
  destruct (Json.HasError (Json.UpdateToken bPeak j)) eqn:E; [| reflexivity].
  pose proof (UpdateToken_error_Invalid bPeak j H E) as I.
  rewrite (is_a_not_Invalid _ _ T N) in I. discriminate.
Qed.

(** What [Peek] shows is what sits in the cache of the tokenizer, and a
    token that is not [Invalid] is what the next [Consume] hands out. *)
Lemma Peek_cache (j : Json.t) :
  JsonTokenizer.CurrentToken (Json.Tokenizer (Json.Peek j))
  = Json.CurrentToken (Json.Peek j).
Proof.
  unfold Json.Peek, Json.UpdateToken, JsonTokenizer.PeekToken. simpl.
  destruct (JsonToken.is_a _ _); [| reflexivity].
  destruct (ThrowError_fields
              (JsonTokenizer.CurrentToken (JsonTokenizer.fill (Json.Tokenizer j)))
              "Invalid token"
              (Json.make (JsonTokenizer.fill (Json.Tokenizer j))
                 (JsonTokenizer.CurrentToken (JsonTokenizer.fill (Json.Tokenizer j)))
                 (Json.ErrorMessage j) (Json.RootObject j))) as (F1 & F2 & _).
  rewrite F1, F2. reflexivity.
Qed.

Lemma Consume_cached (j : Json.t) :
  JsonToken.is_a JsonTokenType.Invalid
    (JsonTokenizer.CurrentToken (Json.Tokenizer j)) = false ->
  Json.CurrentToken (Json.Consume j)
  = JsonTokenizer.CurrentToken (Json.Tokenizer j).
Proof.
  intros H. unfold Json.Consume, Json.UpdateToken, JsonTokenizer.GetToken,
    JsonTokenizer.fill.
  rewrite H. destruct (JsonTokenizer.NextToken (Json.Tokenizer j)) as [t tz].
  simpl. rewrite H. reflexivity.
Qed.

Lemma Consume_after_Peek (j : Json.t) :
  JsonToken.is_a JsonTokenType.Invalid (Json.CurrentToken (Json.Peek j)) = false ->
  Json.CurrentToken (Json.Consume (Json.Peek j)) = Json.CurrentToken (Json.Peek j).
Proof.
  intros H. rewrite Consume_cached; rewrite Peek_cache; [reflexivity | exact H].
Qed.

Lemma Consume_keeps (j : Json.t) (e : string) :
  Json.ErrorMessage j = Some e -> Json.ErrorMessage (Json.Consume j) = Some e.
Proof. apply UpdateToken_keeps. Qed.

Lemma Peek_keeps (j : Json.t) (e : string) :
  Json.ErrorMessage j = Some e -> Json.ErrorMessage (Json.Peek j) = Some e.
Proof. apply UpdateToken_keeps. Qed.

Lemma ThrowParserError_keeps {A : Type} (empty : A) (message : string)
    (j : Json.t) (e : string) (r : A) (j' : Json.t) :
  Json.ErrorMessage j = Some e ->
  Json.ThrowParserError empty message j = Json.Returns r j' ->
  Json.ErrorMessage j' = Some e.
Proof.
  intros He. unfold Json.ThrowParserError. returned.
  apply ThrowError_keeps. exact He.
Qed.

Lemma ThrowParserError_sets {A : Type} (empty : A) (message : string)
    (j : Json.t) (r : A) (j' : Json.t) :
  Json.ThrowParserError empty message j = Json.Returns r j' ->
  r = empty /\ Json.HasError j' = true.
Proof.
  unfold Json.ThrowParserError. returned.
  split; [reflexivity | apply ThrowError_sets].
Qed.

Lemma Consume_quiet (j : Json.t) (ty : JsonTokenType.t) :
  Json.HasError j = false ->
  JsonToken.is_a ty (Json.CurrentToken (Json.Consume j)) = true ->
  ty <> JsonTokenType.Invalid ->
  Json.HasError (Json.Consume j) = false.
Proof. apply UpdateToken_quiet. Qed.

Lemma Peek_quiet (j : Json.t) (ty : JsonTokenType.t) :
  Json.HasError j = false ->
  JsonToken.is_a ty (Json.CurrentToken (Json.Peek j)) = true ->
  ty <> JsonTokenType.Invalid ->
  Json.HasError (Json.Peek j) = false.
Proof. apply UpdateToken_quiet. Qed.

(** After a [Peek] that recorded an error no key, and no other token the
    parser could ask for, is in sight. *)
Lemma Peek_error_no_token (j : Json.t) (ty : JsonTokenType.t) :
  Json.HasError j = false ->
  Json.HasError (Json.Peek j) = true ->
  ty <> JsonTokenType.Invalid ->
  JsonToken.is_a ty (Json.CurrentToken (Json.Peek j)) = false.
Proof.
  intros H E N.
  destruct (JsonToken.is_a ty (Json.CurrentToken (Json.Peek j))) eqn:T;
    [| reflexivity].
  rewrite (Peek_quiet j ty H T N) in E. discriminate.
Qed.

Section Latch.
Variable ParseValue : Json.t -> Json.outcome JsonValue.

Hypothesis ParseValue_keeps : keeps ParseValue.

Lemma ParseArray_loop_keeps (n : nat) (Values : JsonArray) :
  keeps (Json.ParseArray_loop ParseValue n Values).
Proof.
  revert Values. induction n as [| n IH]; intros Values j e r j' He; rule_step;
    [discriminate |].
  destruct (ParseValue j) as [Value j1 | |] eqn:PV; rule_step; try discriminate.
  pose proof (ParseValue_keeps j e Value j1 He PV) as H1.
  destruct (Json.HasError j1); [returned; exact H1 |].
  pose proof (Consume_keeps j1 e H1) as H2.
  destruct (negb _ && negb _); [apply ThrowParserError_keeps; exact H2 |].
  destruct (JsonToken.is_a JsonTokenType.ArrayEnd _); [returned; exact H2 |].
  apply IH. apply Peek_keeps. exact H2.
Qed.

Lemma ParseArray_with_keeps (n : nat) :
  keeps (Json.ParseArray_with ParseValue n).
Proof.
  intros j e r j' He. unfold Json.ParseArray_with.
  pose proof (Consume_keeps j e He) as H1.
  destruct (negb _); [apply ThrowParserError_keeps; exact H1 |].
  pose proof (Peek_keeps _ e H1) as H2.
  destruct (JsonToken.is_a JsonTokenType.ArrayEnd _).
  { returned. apply Consume_keeps. exact H2. }
  apply ParseArray_loop_keeps. exact H2.
Qed.

Lemma ParseObject_loop_keeps (n : nat) (Result : JsonObject) :
  keeps (Json.ParseObject_loop ParseValue n Result).
Proof.
  revert Result. induction n as [| n IH]; intros Result j e r j' He; rule_step;
    [discriminate |].
  destruct (negb (JsonToken.is_a JsonTokenType.String _));
    [apply ThrowParserError_keeps; exact He |].
  pose proof (Consume_keeps j e He) as H1.
  pose proof (Consume_keeps _ e H1) as H2.
  destruct (negb (JsonToken.is_a JsonTokenType.Colon _));
    [apply ThrowParserError_keeps; exact H2 |].
  destruct (ParseValue _) as [Value j1 | |] eqn:PV; rule_step; try discriminate.
  pose proof (ParseValue_keeps _ e Value j1 H2 PV) as H3.
  destruct (Json.HasError j1); [returned; exact H3 |].
  pose proof (Consume_keeps j1 e H3) as H4.
  destruct (negb _ && negb _); [apply ThrowParserError_keeps; exact H4 |].
  destruct (JsonToken.is_a JsonTokenType.ObjectEnd _); [returned; exact H4 |].
  apply IH. apply Peek_keeps. exact H4.
Qed.

Lemma ParseObject_with_keeps (n : nat) :
  keeps (Json.ParseObject_with ParseValue n).
Proof.
  intros j e r j' He. unfold Json.ParseObject_with.
  pose proof (Consume_keeps j e He) as H1.
  destruct (negb _); [apply ThrowParserError_keeps; exact H1 |].
  pose proof (Peek_keeps _ e H1) as H2.
  destruct (JsonToken.is_a JsonTokenType.ObjectEnd _).
  { returned. apply Consume_keeps. exact H2. }
  apply ParseObject_loop_keeps. exact H2.
Qed.

(** Whatever [ParseValue] does, a loop of [ParseObject] that is entered
    without an error, or with an error and no key in sight, returns an
    object only when the error slot is still empty. *)
Lemma ParseObject_loop_error_null (n : nat) (Result : JsonObject) (j : Json.t)
    (r : option JsonObject) (j' : Json.t) :
  (Json.HasError j = true ->
   JsonToken.is_a JsonTokenType.String (Json.CurrentToken j) = false) ->
  Json.ParseObject_loop ParseValue n Result j = Json.Returns r j' ->
  Json.HasError j' = true -> r = None.
Proof.
  revert Result j. induction n as [| n IH]; intros Result j Hq; rule_step;
    [discriminate |].
  destruct (JsonToken.is_a JsonTokenType.String (Json.CurrentToken j)) eqn:T1;
    rule_step.
  2:{ intros H _. apply (ThrowParserError_sets _ _ _ _ _ H). }
  assert (E0 : Json.HasError j = false).
  { destruct (Json.HasError j); [| reflexivity].
    specialize (Hq eq_refl). discriminate. }
  destruct (JsonToken.is_a JsonTokenType.Colon _) eqn:T2; rule_step.
  2:{ intros H _. apply (ThrowParserError_sets _ _ _ _ _ H). }
  destruct (ParseValue _) as [Value j1 | |] eqn:PV; rule_step; try discriminate.
  destruct (Json.HasError j1) eqn:E1; [returned; reflexivity |].
  destruct (JsonToken.is_a JsonTokenType.Comma _) eqn:T3; rule_step.
  - assert (Q : Json.HasError (Json.Consume j1) = false)
      by (apply (Consume_quiet j1 _ E1 T3); discriminate).
    destruct (JsonToken.is_a JsonTokenType.ObjectEnd _) eqn:T4.
    + returned. intros E. rewrite Q in E. discriminate.
    + apply IH. intros E. apply (Peek_error_no_token _ _ Q E). discriminate.
  - destruct (JsonToken.is_a JsonTokenType.ObjectEnd _) eqn:T4; rule_step.
    + returned. intros E.
      rewrite (Consume_quiet j1 _ E1 T4) in E; discriminate.
    + intros H _. apply (ThrowParserError_sets _ _ _ _ _ H).
Qed.

Lemma ParseObject_with_error_null (n : nat) (j : Json.t)
    (r : option JsonObject) (j' : Json.t) :
  Json.HasError j = false ->
  Json.ParseObject_with ParseValue n j = Json.Returns r j' ->
  Json.HasError j' = true -> r = None.
Proof.
  intros E0. unfold Json.ParseObject_with.
  destruct (JsonToken.is_a JsonTokenType.ObjectStart _) eqn:T1; rule_step.
  2:{ intros H _. apply (ThrowParserError_sets _ _ _ _ _ H). }
  assert (Q : Json.HasError (Json.Consume j) = false)
    by (apply (Consume_quiet j _ E0 T1); discriminate).
  destruct (JsonToken.is_a JsonTokenType.ObjectEnd _) eqn:T2.
  - returned. intros E.
    assert (Q2 : Json.HasError (Json.Peek (Json.Consume j)) = false)
      by (apply (Peek_quiet _ _ Q T2); discriminate).
    assert (T3 : JsonToken.is_a JsonTokenType.ObjectEnd
                   (Json.CurrentToken (Json.Consume (Json.Peek (Json.Consume j))))
                 = true).
    { rewrite Consume_after_Peek; [exact T2 |].
      apply (is_a_not_Invalid _ _ T2). discriminate. }
    rewrite (Consume_quiet _ _ Q2 T3) in E; discriminate.
  - apply ParseObject_loop_error_null. intros E.
    apply (Peek_error_no_token _ _ Q E). discriminate.
Qed.

Lemma ParseObject_loop_null_error (n : nat) (Result : JsonObject) (j j' : Json.t) :
  Json.ParseObject_loop ParseValue n Result j = Json.Returns None j' ->
  Json.HasError j' = true.
Proof.
  revert Result j. induction n as [| n IH]; intros Result j; rule_step;
    [discriminate |].
  destruct (negb (JsonToken.is_a JsonTokenType.String _)).
  { intros H. apply (ThrowParserError_sets _ _ _ _ _ H). }
  destruct (negb (JsonToken.is_a JsonTokenType.Colon _)).
  { intros H. apply (ThrowParserError_sets _ _ _ _ _ H). }
  destruct (ParseValue _) as [Value j1 | |]; rule_step; try discriminate.
  destruct (Json.HasError j1) eqn:E.
  { intros H. apply Returns_inj in H. destruct H as [_ <-]. exact E. }
  destruct (negb _ && negb _).
  { intros H. apply (ThrowParserError_sets _ _ _ _ _ H). }
  destruct (JsonToken.is_a JsonTokenType.ObjectEnd _); [discriminate |].
  apply IH.
Qed.

Lemma ParseObject_with_null_error (n : nat) (j j' : Json.t) :
  Json.ParseObject_with ParseValue n j = Json.Returns None j' ->
  Json.HasError j' = true.
Proof.
  unfold Json.ParseObject_with.
  destruct (negb _).
  { intros H. apply (ThrowParserError_sets _ _ _ _ _ H). }
  destruct (JsonToken.is_a JsonTokenType.ObjectEnd _); [discriminate |].
  apply ParseObject_loop_null_error.
Qed.
End Latch.

Lemma ParseValue_keeps (fuel : nat) : keeps (Json.ParseValue fuel).
Proof.
  induction fuel as [| fuel IH]; intros j e r j' He; rule_step; [discriminate |].
  pose proof (Peek_keeps j e He) as H1.
  pose proof (Consume_keeps _ e H1) as H2.
  destruct (JsonToken.Type_ (Json.CurrentToken (Json.Peek j)));
    try (apply ThrowParserError_keeps; exact H1);
    try (returned; exact H2).
  - destruct (Json.ParseObject_with _ _ _) as [p j1 | |] eqn:P; rule_step;
      try discriminate.
    returned. exact (ParseObject_with_keeps _ IH _ _ _ _ _ H1 P).
  - destruct (Json.ParseArray_with _ _ _) as [p j1 | |] eqn:P; rule_step;
      try discriminate.
    returned. exact (ParseArray_with_keeps _ IH _ _ _ _ _ H1 P).
  - unfold Json.convert. destruct (Json.IsFloat _).
    + destruct (stod _); [returned; exact H2 | discriminate].
    + destruct (stoll _); [returned; exact H2 | discriminate].
Qed.

(** *** The root object is not read while parsing *)

Lemma ThrowError_reroot (Token : JsonToken.t) (message : string) (j : Json.t)
    (r : option JsonObject) :
  Json.ThrowError Token message (Json.with_RootObject j r)
  = Json.with_RootObject (Json.ThrowError Token message j) r.
Proof.
  unfold Json.ThrowError, Json.HasError.
  cbn [Json.ErrorMessage Json.with_RootObject].
  destruct (Json.ErrorMessage j); reflexivity.
Qed.

Lemma UpdateToken_reroot (bPeak : bool) (j : Json.t) (r : option JsonObject) :
  Json.UpdateToken bPeak (Json.with_RootObject j r)
  = Json.with_RootObject (Json.UpdateToken bPeak j) r.
Proof.
  unfold Json.UpdateToken.
  cbn [Json.Tokenizer Json.ErrorMessage Json.RootObject Json.with_RootObject].
  destruct (if bPeak then _ else _) as [tok tz].
  cbn [Json.CurrentToken].
  destruct (JsonToken.is_a JsonTokenType.Invalid tok); [| reflexivity].
  apply (ThrowError_reroot tok "Invalid token"
           (Json.make tz tok (Json.ErrorMessage j) (Json.RootObject j)) r).
Qed.

Lemma Consume_reroot (j : Json.t) (r : option JsonObject) :
  Json.Consume (Json.with_RootObject j r)
  = Json.with_RootObject (Json.Consume j) r.
Proof. apply UpdateToken_reroot. Qed.

Lemma Peek_reroot (j : Json.t) (r : option JsonObject) :
  Json.Peek (Json.with_RootObject j r) = Json.with_RootObject (Json.Peek j) r.
Proof. apply UpdateToken_reroot. Qed.

Lemma CurrentToken_reroot (j : Json.t) (r : option JsonObject) :
  Json.CurrentToken (Json.with_RootObject j r) = Json.CurrentToken j.
Proof. reflexivity. Qed.

Lemma HasError_reroot (j : Json.t) (r : option JsonObject) :
  Json.HasError (Json.with_RootObject j r) = Json.HasError j.
Proof. reflexivity. Qed.

Lemma ThrowParserError_reroot {A : Type} (empty : A) (message : string)
    (j : Json.t) (r : option JsonObject) :
  Json.ThrowParserError empty message (Json.with_RootObject j r)
  = reroot r (Json.ThrowParserError empty message j).
Proof.
  unfold Json.ThrowParserError, reroot.
  rewrite CurrentToken_reroot, ThrowError_reroot. reflexivity.
Qed.

Ltac reroot_step :=
  repeat (rewrite Consume_reroot || rewrite Peek_reroot
          || rewrite CurrentToken_reroot || rewrite HasError_reroot).

Section Reroot.
Variable ParseValue : Json.t -> Json.outcome JsonValue.

Hypothesis ParseValue_rerooted : rerooted ParseValue.

Lemma ParseArray_loop_rerooted (n : nat) (Values : JsonArray) :
  rerooted (Json.ParseArray_loop ParseValue n Values).
Proof.
  revert Values. induction n as [| n IH]; intros Values j r; rule_step;
    [reflexivity |].
  rewrite ParseValue_rerooted.
  destruct (ParseValue j) as [Value j1 | |]; cbn [reroot Json.bind];
    try reflexivity.
  reroot_step.
  destruct (Json.HasError j1); [reflexivity |].
  destruct (negb _ && negb _); [apply ThrowParserError_reroot |].
  destruct (JsonToken.is_a JsonTokenType.ArrayEnd _); [reflexivity |].
  apply IH.
Qed.

Lemma ParseArray_with_rerooted (n : nat) :
  rerooted (Json.ParseArray_with ParseValue n).
Proof.
  intros j r. unfold Json.ParseArray_with. reroot_step.
  destruct (negb _); [apply ThrowParserError_reroot |].
  destruct (JsonToken.is_a JsonTokenType.ArrayEnd _); [reflexivity |].
  apply ParseArray_loop_rerooted.
Qed.

Lemma ParseObject_loop_rerooted (n : nat) (Result : JsonObject) :
  rerooted (Json.ParseObject_loop ParseValue n Result).
Proof.
  revert Result. induction n as [| n IH]; intros Result j r; rule_step;
    [reflexivity |].
  reroot_step.
  destruct (negb (JsonToken.is_a JsonTokenType.String _));
    [apply ThrowParserError_reroot |].
  destruct (negb (JsonToken.is_a JsonTokenType.Colon _));
    [apply ThrowParserError_reroot |].
  rewrite ParseValue_rerooted.
  destruct (ParseValue _) as [Value j1 | |]; cbn [reroot Json.bind];
    try reflexivity.
  reroot_step.
  destruct (Json.HasError j1); [reflexivity |].
  destruct (negb _ && negb _); [apply ThrowParserError_reroot |].
  destruct (JsonToken.is_a JsonTokenType.ObjectEnd _); [reflexivity |].
  apply IH.
Qed.

Lemma ParseObject_with_rerooted (n : nat) :
  rerooted (Json.ParseObject_with ParseValue n).
Proof.
  intros j r. unfold Json.ParseObject_with. reroot_step.
  destruct (negb _); [apply ThrowParserError_reroot |].
  destruct (JsonToken.is_a JsonTokenType.ObjectEnd _); [reflexivity |].
  apply ParseObject_loop_rerooted.
Qed.
End Reroot.

Lemma ParseValue_rerooted (fuel : nat) : rerooted (Json.ParseValue fuel).
Proof.
  induction fuel as [| fuel IH]; intros j r; rule_step; [reflexivity |].
  reroot_step.
  destruct (JsonToken.Type_ (Json.CurrentToken (Json.Peek j)));
    try apply ThrowParserError_reroot; try reflexivity.
  - rewrite (ParseObject_with_rerooted _ IH).
    destruct (Json.ParseObject_with _ _ _); reflexivity.
  - rewrite (ParseArray_with_rerooted _ IH).
    destruct (Json.ParseArray_with _ _ _); reflexivity.
  - unfold Json.IsFloat, Json.convert. reroot_step.
    destruct (contains "." _ || contains "e" _).
    + destruct (stod _); reflexivity.
    + destruct (stoll _); reflexivity.
Qed.

Lemma Consume_ignores_CurrentToken (j : Json.t) (tok : JsonToken.t) :
  Json.Consume (Json.with_CurrentToken j tok) = Json.Consume j.
Proof. reflexivity. Qed.

(** [Parse] starts from the input alone: what the document held before
    does not reach the result. *)
Lemma Parse_fresh (Input : string) (j j' : Json.t) :
  Json.Parse Input j = Json.Parse Input j'.
Proof.
  assert (G : forall j,
    Json.Parse Input j
    = Json.bind
        (Json.ParseObject (S (size Input))
           (Json.make (JsonTokenizer.Init Input)
              (JsonToken.make JsonTokenType.Invalid 0 "") None None))
        (fun Root j => Json.Returns tt (Json.with_RootObject j Root))).
  { intros k. unfold Json.Parse, Json.ParseObject.
    set (base := Json.make (JsonTokenizer.Init Input)
                   (JsonToken.make JsonTokenType.Invalid 0 "") None None).
    change (Json.make (JsonTokenizer.Init Input) (Json.CurrentToken k) None
              (Json.RootObject k))
      with (Json.with_RootObject (Json.with_CurrentToken base (Json.CurrentToken k))
              (Json.RootObject k)).
    rewrite (ParseObject_with_rerooted _ (ParseValue_rerooted _)).
    unfold Json.ParseObject_with at 1. rewrite Consume_ignores_CurrentToken.
    fold (Json.ParseObject_with (Json.ParseValue (S (size Input)))
            (S (size Input)) base).
    destruct (Json.ParseObject_with _ _ base); reflexivity. }
  rewrite (G j), (G j'). reflexivity.
Qed.

(** C5, counterexample.  [{"a": 1, "b": }] fails at the second member;
    the first one was parsed, and the document is left without a root. *)
Lemma error_discards_members :
  ~ keeps_partial_tree ("{" ++ quoted "a" ++ ": 1, " ++ quoted "b" ++ ": }").
Proof.
  intros H.
  edestruct H as [Root HR]; [vm_compute; reflexivity | reflexivity |].
  discriminate HR.
Qed.

(** C5, amended.  When [Parse] returns with an error recorded, the root
    pointer of the document is empty: every rule gives up the container it
    was building when it sees the error, so nothing parsed before the error
    is kept, and [Serialize] gives the empty text.  When it returns without
    an error the document has a root object. *)
Theorem error_leaves_no_root (Input : string) (j j' : Json.t)
    (HP : Json.Parse Input j = Json.Returns tt j') :
  (Json.HasError j' = true ->
     Json.RootObject j' = None
     /\ forall bPretty, Json.Serialize bPretty j' = Some "")
  /\ (Json.HasError j' = false ->
     exists Root, Json.RootObject j' = Some Root).
Proof.
  unfold Json.Parse, Json.ParseObject in HP.
  destruct (Json.ParseObject_with _ _ _) as [Root j1 | |] eqn:P; cbn [Json.bind] in HP;
    try discriminate.
  injection HP as <-. split.
  - intros HE. change (Json.HasError j1 = true) in HE.
    assert (Root = None) as ->.
    { eapply ParseObject_with_error_null; [| exact P | exact HE]. reflexivity. }
    split; [reflexivity |]. intros bPretty. reflexivity.
  - intros HE. change (Json.HasError j1 = false) in HE.
    destruct Root as [Root |]; [exists Root; reflexivity |].
    rewrite (ParseObject_with_null_error _ _ _ _ P) in HE. discriminate.
Qed.

Lemma error_leaves_no_root_witness :
  exists j',
    Json.Parse ("{" ++ quoted "a" ++ ": 1, " ++ quoted "b" ++ ": }") Json.new
    = Json.Returns tt j'
    /\ Json.HasError j' = true
    /\ Json.RootObject j' = None.
Proof.
  eexists. split; [vm_compute; reflexivity |]. split; [reflexivity |].
  refine (proj1 (proj1 (error_leaves_no_root
            ("{" ++ quoted "a" ++ ": 1, " ++ quoted "b" ++ ": }")
            Json.new _ _) _)); [vm_compute; reflexivity | reflexivity].
Defined.

(** C6.  [ThrowError] does nothing once the error slot is set, and so do
    the token updates and the three rules: the error they find is the error
    they leave.  [Parse] builds its result from the input alone, so parsing
    the same text again after [Reset] leaves the document, and with it the
    error message, exactly as the first pass left it. *)
Theorem first_error_wins (Input : string) (j j1 : Json.t)
    (HP : Json.Parse Input j = Json.Returns tt j1)
    (HE : Json.HasError j1 = true) :
  (forall Token message k,
     Json.HasError k = true -> Json.ThrowError Token message k = k)
  /\ (forall bPeak k e,
        Json.ErrorMessage k = Some e ->
        Json.ErrorMessage (Json.UpdateToken bPeak k) = Some e)
  /\ (forall fuel,
        keeps (Json.ParseValue fuel) /\ keeps (Json.ParseArray fuel)
        /\ keeps (Json.ParseObject fuel))
  /\ (forall bCreateRoot,
        Json.Parse Input (Json.Reset bCreateRoot j1) = Json.Returns tt j1)
  /\ (forall bCreateRoot j2,
        Json.Parse Input (Json.Reset bCreateRoot j1) = Json.Returns tt j2 ->
        Json.HasError j2 = true /\ Json.GetError j2 = Json.GetError j1).
Proof.
  split; [intros; apply ThrowError_latched; assumption |].
  split; [intros; apply UpdateToken_keeps; assumption |].
  split.
  { intros fuel. split; [apply ParseValue_keeps |].
    split; [apply ParseArray_with_keeps | apply ParseObject_with_keeps];
      apply ParseValue_keeps. }
  split.
  - intros b. rewrite (Parse_fresh Input _ j). exact HP.
  - intros b j2 H2. rewrite (Parse_fresh Input _ j), HP in H2.
    injection H2 as <-. split; [exact HE | reflexivity].
Qed.

Lemma first_error_wins_witness :
  exists j1,
    Json.Parse ("{" ++ quoted "a" ++ ": }") Json.new = Json.Returns tt j1
    /\ Json.GetError j1
       = "Error at position 6[}]: {" ++ quoted "a" ++ ":  *ERROR*--> } "
         ++ String LF "Error Reason: Unexpected token while parsing value"
    /\ Json.Parse ("{" ++ quoted "a" ++ ": }") (Json.Reset true j1)
       = Json.Returns tt j1.
Proof.
  eexists. split; [vm_compute; reflexivity |]. split; [reflexivity |].
  refine (proj1 (proj2 (proj2 (proj2 (first_error_wins
            ("{" ++ quoted "a" ++ ": }") Json.new _ _ _)))) true);
    [vm_compute; reflexivity | reflexivity].
Defined.

(** ** The token stream *)

Lemma skip_space_idem (s : string) : skip_space (skip_space s) = skip_space s.
Proof.
  induction s as [| c s IH]; simpl; [reflexivity |].
  destruct (isspace c) eqn:E; [exact IH | simpl; rewrite E; reflexivity].
Qed.

Lemma skip_space_blank (w t : string) :
  blank w = true -> skip_space (w ++ t) = skip_space t.
Proof.
  induction w as [| c w IH]; simpl; [reflexivity |].
  intros H. apply andb_prop in H as [Hc Hw]. rewrite Hc. apply IH, Hw.
Qed.

Lemma lex_skip_space (t : string) : lex (skip_space t) = lex t.
Proof. unfold lex. rewrite skip_space_idem. reflexivity. Qed.

(** White space in front of a token does not change the token. *)
Lemma lex_blank (w t : string) : blank w = true -> lex (w ++ t) = lex t.
Proof. intros H. unfold lex. rewrite (skip_space_blank _ _ H). reflexivity. Qed.

(** An [Invalid] token consumes nothing but the white space before it. *)
Lemma lex_Invalid (t v r : string) :
  lex t = (JsonTokenType.Invalid, v, r) -> r = skip_space t /\ v = "".
Proof.
  unfold lex. destruct (skip_space t) as [| c s] eqn:E; [discriminate |].
  repeat match goal with
         | |- context [if ?b then _ else _] => destruct b
         | |- context [let (_, _) := ?p in _] => destruct p
         end; intros H; try discriminate H;
    injection H as <- <-; split; reflexivity.
Qed.

Lemma lex_Invalid_again (t v r : string) :
  lex t = (JsonTokenType.Invalid, v, r) -> lex r = lex t.
Proof.
  intros H. destruct (lex_Invalid _ _ _ H) as [-> _]. apply lex_skip_space.
Qed.

Lemma is_a_Type (ty : JsonTokenType.t) (tok : JsonToken.t) :
  JsonToken.is_a ty tok = true <-> JsonToken.Type_ tok = ty.
Proof.
  unfold JsonToken.is_a. destruct (JsonToken.Type_ tok), ty; simpl;
    split; intros H; try reflexivity; discriminate H.
Qed.

Lemma is_a_other (ty ty' : JsonTokenType.t) (tok : JsonToken.t) :
  JsonToken.Type_ tok = ty -> ty <> ty' -> JsonToken.is_a ty' tok = false.
Proof.
  intros H N. destruct (JsonToken.is_a ty' tok) eqn:E; [| reflexivity].
  apply is_a_Type in E. congruence.
Qed.

(** Filling the cache leaves the stream as it is and puts its first token
    into the cache. *)
Lemma fill_Reads (tz : JsonTokenizer.t) (T : string) (ty : JsonTokenType.t)
    (v r : string) :
  Reads tz T -> lex T = (ty, v, r) ->
  let tz' := JsonTokenizer.fill tz in
  JsonToken.Type_ (JsonTokenizer.CurrentToken tz') = ty
  /\ JsonToken.Value (JsonTokenizer.CurrentToken tz') = v
  /\ remaining tz' = r
  /\ JsonTokenizer.Input tz' = JsonTokenizer.Input tz.
Proof.
  unfold Reads, JsonTokenizer.fill. intros R L.
  destruct (JsonToken.is_a JsonTokenType.Invalid (JsonTokenizer.CurrentToken tz)).
  - destruct (NextToken_lex tz) as (tok & tz' & N & X & M).
    rewrite N. rewrite R, L in X. injection X as X1 X2 X3.
    cbn. repeat split; try assumption. apply M.
  - rewrite L in R. injection R as R1 R2 R3. cbn. repeat split; assumption.
Qed.

Lemma Reads_fill (tz : JsonTokenizer.t) (T : string) :
  Reads tz T -> Reads (JsonTokenizer.fill tz) T.
Proof.
  intros R. destruct (lex T) as [[ty v] r] eqn:L.
  destruct (fill_Reads tz T ty v r R L) as (H1 & H2 & H3 & _).
  unfold Reads.
  destruct (JsonToken.is_a JsonTokenType.Invalid
              (JsonTokenizer.CurrentToken (JsonTokenizer.fill tz))) eqn:E.
  - apply is_a_Type in E. rewrite H1 in E. rewrite E in L.
    rewrite H3. apply (lex_Invalid_again _ _ _ L).
  - rewrite H1, H2, H3, L. reflexivity.
Qed.

(** [GetToken] hands out the first token of the stream and leaves the
    stream of what follows it. *)
Lemma GetToken_Reads (tz : JsonTokenizer.t) (T : string) (ty : JsonTokenType.t)
    (v r : string) :
  Reads tz T -> lex T = (ty, v, r) ->
  exists tok tz',
    JsonTokenizer.GetToken tz = (tok, tz')
    /\ JsonToken.Type_ tok = ty /\ JsonToken.Value tok = v
    /\ Reads tz' r
    /\ JsonTokenizer.Input tz' = JsonTokenizer.Input tz.
Proof.
  intros R L. unfold JsonTokenizer.GetToken.
  destruct (fill_Reads tz T ty v r R L) as (H1 & H2 & H3 & H4).
  set (tz1 := JsonTokenizer.fill tz) in *.
  destruct (NextToken_lex tz1) as (tok & tz2 & N & X & M).
  rewrite N. eexists _, _. split; [reflexivity |].
  split; [exact H1 |]. split; [exact H2 |].
  split; [| cbn; rewrite (proj1 M); exact H4].
  unfold Reads. cbn [JsonTokenizer.with_CurrentToken JsonTokenizer.CurrentToken].
  change (remaining (JsonTokenizer.make (JsonTokenizer.Position tz2)
                       (JsonTokenizer.Input tz2) tok))
    with (remaining tz2).
  rewrite H3 in X.
  destruct (JsonToken.is_a JsonTokenType.Invalid tok) eqn:E.
  - apply is_a_Type in E. rewrite E in X.
    symmetry in X. apply (lex_Invalid_again _ _ _ X).
  - exact X.
Qed.

Lemma PeekToken_Reads (tz : JsonTokenizer.t) (T : string) (ty : JsonTokenType.t)
    (v r : string) :
  Reads tz T -> lex T = (ty, v, r) ->
  exists tok tz',
    JsonTokenizer.PeekToken tz = (tok, tz')
    /\ JsonToken.Type_ tok = ty /\ JsonToken.Value tok = v
    /\ Reads tz' T
    /\ JsonTokenizer.Input tz' = JsonTokenizer.Input tz.
Proof.
  intros R L. unfold JsonTokenizer.PeekToken.
  destruct (fill_Reads tz T ty v r R L) as (H1 & H2 & H3 & H4).
  eexists _, _. split; [reflexivity |].
  split; [exact H1 |]. split; [exact H2 |].
  split; [apply Reads_fill; exact R | exact H4].
Qed.

(** The same for the parser: a [Consume] or a [Peek] that meets a token
    other than [Invalid] shows that token and records nothing. *)
Lemma Consume_Reads (j : Json.t) (T : string) (ty : JsonTokenType.t)
    (v r : string) :
  Reads (Json.Tokenizer j) T -> lex T = (ty, v, r) ->
  ty <> JsonTokenType.Invalid ->
  JsonToken.Type_ (Json.CurrentToken (Json.Consume j)) = ty
  /\ JsonToken.Value (Json.CurrentToken (Json.Consume j)) = v
  /\ Reads (Json.Tokenizer (Json.Consume j)) r
  /\ Json.ErrorMessage (Json.Consume j) = Json.ErrorMessage j.
Proof.
  intros R L N. unfold Json.Consume, Json.UpdateToken.
  destruct (GetToken_Reads _ T ty v r R L) as (tok & tz' & G & H1 & H2 & H3 & _).
  rewrite G. cbn [Json.CurrentToken].
  rewrite (is_a_other ty JsonTokenType.Invalid tok H1 N).
  cbn. repeat split; assumption.
Qed.

Lemma Peek_Reads (j : Json.t) (T : string) (ty : JsonTokenType.t)
    (v r : string) :
  Reads (Json.Tokenizer j) T -> lex T = (ty, v, r) ->
  ty <> JsonTokenType.Invalid ->
  JsonToken.Type_ (Json.CurrentToken (Json.Peek j)) = ty
  /\ JsonToken.Value (Json.CurrentToken (Json.Peek j)) = v
  /\ Reads (Json.Tokenizer (Json.Peek j)) T
  /\ Json.ErrorMessage (Json.Peek j) = Json.ErrorMessage j.
Proof.
  intros R L N. unfold Json.Peek, Json.UpdateToken.
  destruct (PeekToken_Reads _ T ty v r R L) as (tok & tz' & G & H1 & H2 & H3 & _).
  rewrite G. cbn [Json.CurrentToken].
  rewrite (is_a_other ty JsonTokenType.Invalid tok H1 N).
  cbn. repeat split; assumption.
Qed.

Lemma Reads_Init (Input : string) : Reads (JsonTokenizer.Init Input) Input.
Proof. reflexivity. Qed.

(** ** Integers as text *)

Lemma isdigit_facts (c : ascii) :
  isdigit c = true ->
  isspace c = false /\ JsonTokenizer.IsValidNumberChar c = true
  /\ Ascii.eqb c "-" = false /\ Ascii.eqb c "+" = false
  /\ Ascii.eqb c "." = false /\ Ascii.eqb c "e" = false.
Proof.
  destruct c as [[] [] [] [] [] [] [] []]; intros H; try discriminate H;
    repeat split.
Qed.

(** A character of a number is no white space and starts no other token. *)
Lemma number_char_facts (c : ascii) :
  JsonTokenizer.IsValidNumberChar c = true ->
  isspace c = false
  /\ Ascii.eqb c "{" = false /\ Ascii.eqb c "}" = false
  /\ Ascii.eqb c "[" = false /\ Ascii.eqb c "]" = false
  /\ Ascii.eqb c "," = false /\ Ascii.eqb c ":" = false
  /\ Ascii.eqb c "n" = false /\ Ascii.eqb c quote = false
  /\ Ascii.eqb c "t" = false /\ Ascii.eqb c "f" = false.
Proof.
  destruct c as [[] [] [] [] [] [] [] []]; intros H; try discriminate H;
    repeat split.
Qed.

Lemma all_digits_uint (d : Decimal.uint) :
  all_digits (NilEmpty.string_of_uint d) = true.
Proof. induction d; simpl; try reflexivity; exact IHd. Qed.

Lemma all_digits_number_chars (s : string) :
  all_digits s = true ->
  number_chars s = true /\ contains "." s = false /\ contains "e" s = false.
Proof.
  induction s as [| c s IH]; simpl; [repeat split |].
  intros H. apply andb_prop in H as [Hc Hs].
  destruct (isdigit_facts c Hc) as (_ & V & _ & _ & P & E).
  destruct (IH Hs) as (H1 & H2 & H3).
  rewrite V, H1, H2, H3, P, E. repeat split.
Qed.

Ltac read_digit IH :=
  cbn [NilEmpty.string_of_uint append read_digits Decimal.nb_digits
       Pos.of_uint_acc Pos.of_uint];
  match goal with
  | |- (if isdigit ?c then _ else _) = _ =>
      change (isdigit c) with true; cbv iota;
      let v := eval vm_compute in (digit_value c) in
      change (digit_value c) with v
  end;
  rewrite <- Nat.add_succ_comm.

Lemma read_digits_acc (d : Decimal.uint) (k : string) (acc : positive)
    (count : nat) :
  read_digits (NilEmpty.string_of_uint d ++ k) (Zpos acc) count
  = read_digits k (Zpos (Pos.of_uint_acc d acc)) (count + Decimal.nb_digits d).
Proof.
  revert acc count. induction d; intros acc count;
    [simpl; rewrite Nat.add_0_r; reflexivity | ..];
    read_digit IHd; rewrite <- IHd; f_equal; lia.
Qed.

Lemma read_digits_uint (d : Decimal.uint) (k : string) (count : nat) :
  read_digits (NilEmpty.string_of_uint d ++ k) 0%Z count
  = read_digits k (Z.of_N (Pos.of_uint d)) (count + Decimal.nb_digits d).
Proof.
  revert count. induction d; intros count;
    [simpl; rewrite Nat.add_0_r; reflexivity | ..];
    read_digit IHd;
    [rewrite <- IHd; reflexivity | ..];
    cbn [Z.of_N]; rewrite <- read_digits_acc; reflexivity.
Qed.

Lemma uint_head (d : Decimal.uint) :
  d <> Decimal.Nil ->
  exists c r, NilEmpty.string_of_uint d = String c r /\ isdigit c = true.
Proof.
  destruct d; intros H; try contradiction; simpl; eexists _, _;
    split; reflexivity.
Qed.

Lemma nb_digits_pos (d : Decimal.uint) :
  d <> Decimal.Nil -> Decimal.nb_digits d <> 0.
Proof. destruct d; intros H; try contradiction; simpl; discriminate. Qed.

(** The digits of a positive number, read back. *)
Lemma stoll_digits (p : positive) :
  let s := NilEmpty.string_of_uint (Pos.to_uint p) in
  skip_space s = s /\ read_sign s = (false, s)
  /\ exists count, count <> 0 /\ read_digits s 0%Z 0 = (Zpos p, count, "").
Proof.
  pose proof (DecimalPos.Unsigned.to_uint_nonnil p) as NN.
  destruct (uint_head _ NN) as (c & r & E & D).
  destruct (isdigit_facts c D) as (S & _ & M & P & _). cbn zeta.
  split; [rewrite E; simpl; rewrite S; reflexivity |].
  split.
  { rewrite E. unfold read_sign.
    apply Ascii.eqb_neq in M, P.
    destruct c as [[] [] [] [] [] [] [] []]; try reflexivity; congruence. }
  exists (Decimal.nb_digits (Pos.to_uint p)).
  split; [apply nb_digits_pos, NN |].
  rewrite <- (append_nil_r (NilEmpty.string_of_uint (Pos.to_uint p))).
  rewrite read_digits_uint. simpl.
  rewrite DecimalPos.Unsigned.of_to. reflexivity.
Qed.

Lemma to_string_int64_pos (p : positive) :
  to_string_int64 (Zpos p) = NilEmpty.string_of_uint (Pos.to_uint p).
Proof.
  unfold to_string_int64. simpl. unfold NilZero.string_of_uint.
  pose proof (DecimalPos.Unsigned.to_uint_nonnil p) as NN.
  destruct (Pos.to_uint p); try reflexivity. contradiction.
Qed.

Lemma to_string_int64_neg (p : positive) :
  to_string_int64 (Zneg p)
  = String "-" (NilEmpty.string_of_uint (Pos.to_uint p)).
Proof.
  unfold to_string_int64. simpl. unfold NilZero.string_of_uint.
  pose proof (DecimalPos.Unsigned.to_uint_nonnil p) as NN.
  destruct (Pos.to_uint p); try reflexivity. contradiction.
Qed.

(** [std::stoll] undoes [std::to_string] on every [int64_t]. *)
Lemma stoll_to_string (n : Z) :
  (INT64_MIN <= n <= INT64_MAX)%Z -> stoll (to_string_int64 n) = Ok n.
Proof.
  intros R.
  assert (B : ((INT64_MIN <=? n) && (n <=? INT64_MAX))%Z = true).
  { apply andb_true_intro. split; apply Z.leb_le; lia. }
  destruct n as [| p | p].
  - reflexivity.
  - rewrite to_string_int64_pos. unfold stoll.
    destruct (stoll_digits p) as (S & G & count & NZ & RD). cbn zeta in *.
    rewrite S, G. cbv beta iota. rewrite RD. cbv beta iota.
    destruct count; [contradiction |]. rewrite B. reflexivity.
  - rewrite to_string_int64_neg. unfold stoll.
    destruct (stoll_digits p) as (_ & _ & count & NZ & RD). cbn zeta in *.
    change (skip_space (String "-" ?x)) with (String "-" x).
    cbn [read_sign]. rewrite RD. cbv beta iota.
    destruct count; [contradiction |].
    change (- Zpos p)%Z with (Zneg p). rewrite B. reflexivity.
Qed.

(** The text of an integer is a number token's text without point or
    exponent. *)
Lemma to_string_int64_text (n : Z) :
  number_text (to_string_int64 n) = true
  /\ contains "." (to_string_int64 n) = false
  /\ contains "e" (to_string_int64 n) = false.
Proof.
  destruct n as [| p | p].
  - repeat split.
  - rewrite to_string_int64_pos.
    pose proof (DecimalPos.Unsigned.to_uint_nonnil p) as NN.
    destruct (uint_head _ NN) as (c & r & E & D).
    destruct (all_digits_number_chars _ (all_digits_uint (Pos.to_uint p)))
      as (H1 & H2 & H3).
    unfold number_text. rewrite E in *. repeat split; assumption.
  - rewrite to_string_int64_neg.
    destruct (all_digits_number_chars _ (all_digits_uint (Pos.to_uint p)))
      as (H1 & H2 & H3).
    unfold number_text. simpl. rewrite H1, H2, H3. repeat split.
Qed.

(** ** The tokens of serialized values *)

Lemma scan_number_text (t k Value : string) :
  number_chars t = true -> stops k = true ->
  scan_number (t ++ k) Value = (Value ++ t, k).
Proof.
  revert Value. induction t as [| c t IH]; intros Value H S;
    cbn [append scan_number].
  - rewrite append_nil_r. destruct k as [| c k]; [reflexivity |].
    cbn [stops] in S. apply negb_true_iff in S.
    cbn [scan_number]. rewrite S. reflexivity.
  - cbn [number_chars] in H. apply andb_prop in H as [Hc Ht]. rewrite Hc.
    rewrite (IH _ Ht S). rewrite push_back_append. reflexivity.
Qed.

(** A run of number characters is one [Number] token, whatever it says. *)
Lemma lex_number (t k : string) :
  number_text t = true -> stops k = true ->
  lex (t ++ k) = (JsonTokenType.Number, t, k).
Proof.
  intros H S. destruct t as [| c t]; [discriminate |].
  unfold number_text in H.
  pose proof (scan_number_text (String c t) k "" H S) as SC.
  cbn [number_chars] in H. apply andb_prop in H as [Hc Ht].
  destruct (number_char_facts c Hc)
    as (W & C1 & C2 & C3 & C4 & C5 & C6 & C7 & C8 & C9 & C10).
  unfold lex. cbn [append skip_space]. rewrite W. cbv iota.
  rewrite C1, C2, C3, C4, C5, C6, C7, C8, C9, C10. cbn [orb]. cbv iota.
  rewrite Hc. cbn [append] in SC. rewrite SC. reflexivity.
Qed.

Lemma lex_string (s k : string) :
  plain s = true ->
  lex (String quote (s ++ String quote k)) = (JsonTokenType.String, s, k).
Proof.
  intros H. unfold lex. cbn [skip_space]. change (isspace quote) with false.
  cbv iota. change (Ascii.eqb quote "{") with false.
  change (Ascii.eqb quote "}") with false.
  change (Ascii.eqb quote "[") with false.
  change (Ascii.eqb quote "]") with false.
  change (Ascii.eqb quote ",") with false.
  change (Ascii.eqb quote ":") with false.
  change (Ascii.eqb quote "n") with false.
  change (Ascii.eqb quote quote) with true. cbv iota.
  rewrite (scan_string_quoted _ _ H). reflexivity.
Qed.

Lemma lex_null (k : string) : lex ("null" ++ k) = (JsonTokenType.Null, "null", k).
Proof. destruct k; reflexivity. Qed.

Lemma lex_true (k : string) :
  lex ("true" ++ k) = (JsonTokenType.Boolean, "true", k).
Proof. destruct k; reflexivity. Qed.

Lemma lex_false (k : string) :
  lex ("false" ++ k) = (JsonTokenType.Boolean, "false", k).
Proof. destruct k; reflexivity. Qed.

Lemma blank_newline (bPretty : bool) (Depth : nat) :
  blank (newline bPretty Depth) = true.
Proof.
  unfold newline. destruct bPretty; [| reflexivity]. simpl.
  induction Depth as [| n IH]; [reflexivity | exact IH].
Qed.

Lemma stops_newline (bPretty : bool) (Depth : nat) (c : ascii) (k : string) :
  JsonTokenizer.IsValidNumberChar c = false ->
  stops (newline bPretty Depth ++ String c k) = true.
Proof.
  intros H. unfold newline. destruct bPretty; simpl; [reflexivity |].
  rewrite H. reflexivity.
Qed.

Lemma Reads_lex (tz : JsonTokenizer.t) (T T' : string) :
  lex T = lex T' -> Reads tz T -> Reads tz T'.
Proof. unfold Reads. intros E. rewrite E. exact (fun H => H). Qed.

Lemma Reads_blank (tz : JsonTokenizer.t) (w T : string) :
  blank w = true -> Reads tz (w ++ T) -> Reads tz T.
Proof. intros B. apply Reads_lex. apply lex_blank, B. Qed.

(** ** The text of containers *)

Lemma indent_newline (bPretty : bool) (Result : string) (Depth : nat) :
  Json.indent bPretty Result Depth = Result ++ newline bPretty Depth.
Proof.
  unfold Json.indent, newline. destruct bPretty; [reflexivity |].
  rewrite append_nil_r. reflexivity.
Qed.

Lemma comma_append (Written : nat) (Result : string) :
  (if (0 <? Written)%nat then Result ++ "," else Result) = Result ++ comma Written.
Proof.
  unfold comma. destruct (0 <? Written)%nat; [reflexivity |].
  rewrite append_nil_r. reflexivity.
Qed.

Lemma close_closing (bracket Result : string) (bPretty : bool) (Depth : nat) :
  Json.close bracket Result bPretty Depth
  = Result ++ closing bPretty Result Depth ++ bracket.
Proof.
  unfold Json.close, closing. destruct (bPretty && (1 <? size Result)%nat).
  - rewrite indent_newline, append_assoc. reflexivity.
  - reflexivity.
Qed.

Lemma blank_closing (bPretty : bool) (Result : string) (Depth : nat) :
  blank (closing bPretty Result Depth) = true.
Proof.
  unfold closing. destruct (bPretty && _); [apply blank_newline | reflexivity].
Qed.

Lemma blank_separator (bPretty : bool) (Value : JsonValue) (Depth : nat) :
  blank (separator bPretty Value Depth) = true.
Proof.
  unfold separator. destruct (bPretty && _); [| reflexivity].
  apply (blank_newline true (Depth + 1)).
Qed.

Section Texts.
Variable SerializeValue : JsonValue -> string -> bool -> nat -> option string.

(** The loops append to the text they are given. *)
Lemma SerializeArray_loop_append (Values : JsonArray) (Written : nat)
    (Result : string) (bPretty : bool) (Depth : nat) :
  Json.SerializeArray_loop SerializeValue Values Written Result bPretty Depth
  = option_map (append Result)
      (Json.SerializeArray_loop SerializeValue Values Written "" bPretty Depth).
Proof.
  revert Written Result. induction Values as [| v rest IH]; intros W R.
  - simpl. rewrite append_nil_r. reflexivity.
  - cbn [Json.SerializeArray_loop].
    destruct (SerializeValue v "" bPretty Depth) as [s |]; [| reflexivity].
    rewrite !comma_append, !indent_newline.
    rewrite (IH (S W) (((R ++ comma W) ++ newline bPretty (Depth + 1)) ++ s)).
    rewrite (IH (S W) (((("" ++ comma W)) ++ newline bPretty (Depth + 1)) ++ s)).
    destruct (Json.SerializeArray_loop _ rest (S W) "" bPretty Depth);
      [| reflexivity].
    cbn [option_map append]. rewrite !append_assoc. reflexivity.
Qed.

Lemma SerializeArray_loop_cons (v : JsonValue) (rest : JsonArray)
    (Written : nat) (bPretty : bool) (Depth : nat) (out : string) :
  Json.SerializeArray_loop SerializeValue (v :: rest) Written "" bPretty Depth
  = Some out ->
  exists s body,
    SerializeValue v "" bPretty Depth = Some s
    /\ Json.SerializeArray_loop SerializeValue rest (S Written) "" bPretty Depth
       = Some body
    /\ out = comma Written ++ newline bPretty (Depth + 1) ++ s ++ body.
Proof.
  cbn [Json.SerializeArray_loop].
  destruct (SerializeValue v "" bPretty Depth) as [s |]; [| discriminate].
  rewrite comma_append, indent_newline, SerializeArray_loop_append.
  destruct (Json.SerializeArray_loop _ rest (S Written) "" bPretty Depth)
    as [body |]; [| discriminate].
  cbn [option_map append]. intros [= <-].
  exists s, body. repeat split. rewrite !append_assoc. reflexivity.
Qed.

Lemma SerializeArray_with_text (Values : JsonArray) (bPretty : bool)
    (Depth : nat) (out : string) :
  Json.SerializeArray_with SerializeValue Values "" bPretty Depth = Some out ->
  exists body,
    Json.SerializeArray_loop SerializeValue Values 0 "" bPretty Depth = Some body
    /\ out = "[" ++ body ++ closing bPretty ("[" ++ body) Depth ++ "]".
Proof.
  unfold Json.SerializeArray_with. rewrite SerializeArray_loop_append.
  destruct (Json.SerializeArray_loop _ Values 0 "" bPretty Depth) as [body |];
    [| discriminate].
  cbn [option_map]. rewrite close_closing. intros [= <-].
  exists body. split; reflexivity.
Qed.

Lemma SerializeObject_loop_append (Properties : JsonObject) (Written : nat)
    (Result : string) (bPretty : bool) (Depth : nat) :
  Json.SerializeObject_loop SerializeValue Properties Written Result bPretty Depth
  = option_map (append Result)
      (Json.SerializeObject_loop SerializeValue Properties Written "" bPretty Depth).
Proof.
  revert Written Result. induction Properties as [| [Key v] rest IH]; intros W R.
  - simpl. rewrite append_nil_r. reflexivity.
  - cbn [Json.SerializeObject_loop].
    destruct (SerializeValue v "" bPretty Depth) as [s |]; [| reflexivity].
    rewrite !comma_append, !indent_newline.
    fold (separator bPretty v Depth).
    rewrite (IH (S W) (((R ++ comma W) ++ newline bPretty (Depth + 1))
                       ++ String quote Key ++ String quote ":"
                       ++ separator bPretty v Depth ++ s)).
    rewrite (IH (S W) ((("" ++ comma W) ++ newline bPretty (Depth + 1))
                       ++ String quote Key ++ String quote ":"
                       ++ separator bPretty v Depth ++ s)).
    destruct (Json.SerializeObject_loop _ rest (S W) "" bPretty Depth);
      [| reflexivity].
    cbn [option_map append]. rewrite !append_assoc. reflexivity.
Qed.

Lemma SerializeObject_loop_cons (Key : string) (v : JsonValue)
    (rest : JsonObject) (Written : nat) (bPretty : bool) (Depth : nat)
    (out : string) :
  Json.SerializeObject_loop SerializeValue ((Key, v) :: rest) Written ""
    bPretty Depth = Some out ->
  exists s body,
    SerializeValue v "" bPretty Depth = Some s
    /\ Json.SerializeObject_loop SerializeValue rest (S Written) "" bPretty Depth
       = Some body
    /\ out = comma Written ++ newline bPretty (Depth + 1)
             ++ String quote (Key ++ String quote (":"
             ++ separator bPretty v Depth ++ s ++ body)).
Proof.
  cbn [Json.SerializeObject_loop].
  destruct (SerializeValue v "" bPretty Depth) as [s |]; [| discriminate].
  rewrite comma_append, indent_newline, SerializeObject_loop_append.
  fold (separator bPretty v Depth).
  destruct (Json.SerializeObject_loop _ rest (S Written) "" bPretty Depth)
    as [body |]; [| discriminate].
  cbn [option_map append]. intros [= <-].
  exists s, body. repeat split.
  repeat (progress (rewrite ?append_assoc; cbn [append])). reflexivity.
Qed.

Lemma SerializeObject_with_text (Object : JsonObject) (bPretty : bool)
    (Depth : nat) (out : string) :
  Json.SerializeObject_with SerializeValue Object "" bPretty Depth = Some out ->
  exists body,
    Json.SerializeObject_loop SerializeValue Object 0 "" bPretty Depth = Some body
    /\ out = "{" ++ body ++ closing bPretty ("{" ++ body) Depth ++ "}".
Proof.
  unfold Json.SerializeObject_with. rewrite SerializeObject_loop_append.
  destruct (Json.SerializeObject_loop _ Object 0 "" bPretty Depth) as [body |];
    [| discriminate].
  cbn [option_map]. rewrite close_closing. intros [= <-].
  exists body. split; reflexivity.
Qed.
End Texts.

(** ** Values and their first token *)

Lemma isspace_not_number (c : ascii) :
  isspace c = true -> JsonTokenizer.IsValidNumberChar c = false.
Proof.
  destruct c as [[] [] [] [] [] [] [] []]; intros H; try discriminate H;
    reflexivity.
Qed.

Lemma stops_blank (w k : string) :
  blank w = true -> stops k = true -> stops (w ++ k) = true.
Proof.
  destruct w as [| c w]; [intros _ H; exact H |].
  cbn [blank append stops]. intros H _. apply andb_prop in H as [H _].
  rewrite (isspace_not_number c H). reflexivity.
Qed.

Lemma double_eqb_eq (a b : double) : double_eqb a b = true -> a = b.
Proof.
  destruct a as [s | s | | s m e], b as [s' | s' | | s' m' e']; simpl;
    intros H; try discriminate H; try reflexivity.
  - apply Bool.eqb_prop in H. subst. reflexivity.
  - apply Bool.eqb_prop in H. subst. reflexivity.
  - apply andb_prop in H as [H He]. apply andb_prop in H as [Hs Hm].
    apply Bool.eqb_prop in Hs. apply Pos.eqb_eq in Hm. apply Z.eqb_eq in He.
    subst. reflexivity.
Qed.

Lemma is_a_eqb (ty : JsonTokenType.t) (tok : JsonToken.t) :
  JsonToken.is_a ty tok = JsonTokenType.eqb (JsonToken.Type_ tok) ty.
Proof. reflexivity. Qed.

(** The text of a value that round-trips starts with the token that
    [ParseValue] dispatches on; for a scalar it is that token. *)
Lemma lex_value (v : JsonValue) (bPretty : bool) (Depth : nat) (s k : string) :
  round_trips v = true ->
  Json.SerializeValue v "" bPretty Depth = Some s ->
  stops k = true ->
  lex (s ++ k) = first_token v (s ++ k) k /\ 1 <= String.length s.
Proof.
  intros R S K. destruct v as [| | b | n | d | x | [a |] | [o |]];
    try discriminate R; cbn [Json.SerializeValue] in S.
  - injection S as <-. split; [apply lex_null | simpl; lia].
  - injection S as <-. destruct b;
      (split; [first [apply lex_true | apply lex_false] | simpl; lia]).
  - injection S as <-.
    destruct (to_string_int64_text n) as (T & _ & _).
    split; [apply (lex_number _ _ T K) |].
    destruct (to_string_int64 n); [discriminate T | simpl; lia].
  - injection S as <-. cbn [round_trips] in R. unfold double_survives in R.
    apply andb_prop in R as [R _]. apply andb_prop in R as [T _].
    split; [apply (lex_number _ _ T K) |].
    destruct (to_string_double d); [discriminate T | simpl; lia].
  - injection S as <-. cbn [round_trips] in R.
    split; [| simpl; lia].
    cbn [append first_token]. rewrite append_assoc. cbn [append].
    apply lex_string, R.
  - destruct (SerializeArray_with_text _ _ _ _ _ S) as (body & _ & ->).
    split; [reflexivity | simpl; lia].
  - destruct (SerializeObject_with_text _ _ _ _ _ S) as (body & _ & ->).
    split; [reflexivity | simpl; lia].
Qed.

(** That token is one a value can start with. *)
Lemma first_token_starts (v : JsonValue) (t k : string) :
  round_trips v = true ->
  let ty := fst (fst (first_token v t k)) in
  ty <> JsonTokenType.Invalid /\ ty <> JsonTokenType.ArrayEnd
  /\ ty <> JsonTokenType.ObjectEnd.
Proof.
  destruct v as [| | b | n | d | x | [a |] | [o |]]; intros R;
    try discriminate R; cbn; repeat split; discriminate.
Qed.

(** ** The map while it is filled *)

Lemma unique_keys_find (A B : JsonObject) (Key : string) (v : JsonValue) :
  unique_keys (A ++ (Key, v) :: B)%list = true ->
  unordered_map.find Key A = None.
Proof.
  induction A as [| [k x] A IH]; [reflexivity |].
  cbn [app unique_keys unordered_map.find]. rewrite find_app.
  destruct (unordered_map.find k A) eqn:E; [discriminate |].
  cbn [unordered_map.find].
  destruct (String.eqb k Key) eqn:EK.
  - apply String.eqb_eq in EK. subst k. rewrite String.eqb_refl. discriminate.
  - intros H.
    destruct (unordered_map.find k B); [destruct (String.eqb Key k); discriminate |].
    destruct (String.eqb Key k); [discriminate | apply IH, H].
Qed.

Lemma emplace_new (A B : JsonObject) (Key : string) (v : JsonValue) :
  unique_keys (A ++ (Key, v) :: B)%list = true ->
  unordered_map.emplace Key v A = (A ++ [(Key, v)])%list.
Proof.
  intros H. unfold unordered_map.emplace.
  rewrite (unique_keys_find _ _ _ _ H). reflexivity.
Qed.

(** ** Reading a serialized container back *)

Lemma HasError_same (j j' : Json.t) :
  Json.ErrorMessage j' = Json.ErrorMessage j -> Json.HasError j' = Json.HasError j.
Proof. unfold Json.HasError. intros ->. reflexivity. Qed.

Lemma lex_close_array (w k : string) :
  blank w = true ->
  lex (w ++ String "]" k) = (JsonTokenType.ArrayEnd, "]", k).
Proof. intros B. rewrite (lex_blank _ _ B). reflexivity. Qed.

Lemma lex_close_object (w k : string) :
  blank w = true ->
  lex (w ++ String "}" k) = (JsonTokenType.ObjectEnd, "}", k).
Proof. intros B. rewrite (lex_blank _ _ B). reflexivity. Qed.

Lemma stops_close (w : string) (c : ascii) (k : string) :
  blank w = true -> JsonTokenizer.IsValidNumberChar c = false ->
  stops (w ++ String c k) = true.
Proof.
  intros B H. apply stops_blank; [exact B |]. cbn [stops]. rewrite H. reflexivity.
Qed.

(** The kind of the current token is known: the tests on it are decided. *)
Ltac token_is Ty :=
  rewrite ?is_a_eqb, ?Ty; cbn [JsonTokenType.eqb negb andb]; cbv iota.

Section ParseTexts.
Variable f : nat.

Lemma ParseArray_loop_text (vs : JsonArray) :
  forall (v : JsonValue) (W : nat) (b : bool) (d : nat) (s body : string),
    Json.SerializeValue v "" b d = Some s ->
    Json.SerializeArray_loop Json.SerializeValue vs (S W) "" b d = Some body ->
    reads_back v -> Forall reads_back vs ->
    round_trips v = true -> forallb round_trips vs = true ->
    forall (n : nat) (Values : JsonArray) (j : Json.t) (w k : string),
      blank w = true ->
      String.length (s ++ body) <= f -> String.length (s ++ body) <= n ->
      Json.HasError j = false ->
      Reads (Json.Tokenizer j) (s ++ body ++ w ++ String "]" k) ->
      exists j',
        Json.ParseArray_loop (Json.ParseValue f) n Values j
        = Json.Returns (Some (Values ++ v :: vs)%list) j'
        /\ Json.HasError j' = false /\ Reads (Json.Tokenizer j') k.
Proof.
  induction vs as [| v2 vs IH];
    intros v W b d s body Sv Sb Rv Rvs RTv RTvs n Values j w k Bw Lf Ln E R.
  - cbn in Sb. injection Sb as <-.
    assert (K : stops ("" ++ w ++ String "]" k) = true)
      by (apply stops_close; [exact Bw | reflexivity]).
    destruct (lex_value v b d s _ RTv Sv K) as (_ & L1).
    rewrite length_append in Lf, Ln. destruct n as [| n]; [lia |].
    destruct (Rv b d s Sv RTv f j _ ltac:(lia) E R K) as (j1 & P1 & E1 & R1).
    rule_step. rewrite P1. rule_step. rewrite E1.
    destruct (Consume_Reads j1 _ _ _ _ R1 (lex_close_array w k Bw)
                ltac:(discriminate)) as (Ty & _ & R2 & Er).
    token_is Ty. eexists. split; [reflexivity |].
    split; [rewrite (HasError_same _ _ Er); exact E1 | exact R2].
  - destruct (SerializeArray_loop_cons _ _ _ _ _ _ _ Sb)
      as (s2 & body2 & Sv2 & Sb2 & ->).
    change (comma (S W)) with ",". cbn [append] in *.
    assert (K : stops (String "," (newline b (d + 1) ++ s2 ++ body2)
                       ++ w ++ String "]" k) = true) by reflexivity.
    destruct (lex_value v b d s _ RTv Sv K) as (_ & L1).
    rewrite length_append in Lf, Ln. cbn [String.length] in Lf, Ln.
    rewrite !length_append in Lf, Ln.
    destruct n as [| n]; [lia |].
    cbn [append] in R.
    destruct (Rv b d s Sv RTv f j _ ltac:(lia) E R K) as (j1 & P1 & E1 & R1).
    rule_step. rewrite P1. rule_step. rewrite E1.
    cbn [append] in R1.
    destruct (Consume_Reads j1 (String "," _) JsonTokenType.Comma "," _ R1
                eq_refl ltac:(discriminate)) as (Ty & _ & R2 & Er).
    token_is Ty.
    pose proof (HasError_same _ _ Er) as E2. rewrite E1 in E2.
    apply Forall_cons_iff in Rvs as [Rv2 Rvs].
    cbn [forallb] in RTvs. apply andb_prop in RTvs as [RTv2 RTvs].
    rewrite !append_assoc in R2.
    apply (Reads_blank _ _ _ (blank_newline b (d + 1))) in R2.
    assert (K2 : stops (body2 ++ w ++ String "]" k) = true).
    { destruct vs as [| v3 vs].
      - cbn in Sb2. injection Sb2 as <-.
        apply stops_close; [exact Bw | reflexivity].
      - destruct (SerializeArray_loop_cons _ _ _ _ _ _ _ Sb2)
          as (s3 & body3 & _ & _ & ->). reflexivity. }
    destruct (lex_value v2 b d s2 _ RTv2 Sv2 K2) as (L2 & _).
    destruct (first_token_starts v2 (s2 ++ body2 ++ w ++ String "]" k)
                (body2 ++ w ++ String "]" k) RTv2) as (N1 & _ & _).
    destruct (first_token v2 _ _) as [[ty2 val2] r2] eqn:FT. cbn [fst] in N1.
    destruct (Peek_Reads _ _ _ _ _ R2 L2 N1) as (_ & _ & R3 & Er3).
    pose proof (HasError_same _ _ Er3) as E3. rewrite E2 in E3.
    destruct (IH v2 (S W) b d s2 body2 Sv2 Sb2 Rv2 Rvs RTv2 RTvs n
                (Values ++ [v])%list _ w k Bw
                ltac:(rewrite length_append; lia)
                ltac:(rewrite length_append; lia) E3 R3)
      as (j' & P' & E' & R').
    exists j'. rewrite <- app_assoc in P'. cbn [app] in P'.
    split; [exact P' | split; assumption].
Qed.

Lemma ParseArray_with_text (vs : JsonArray) (b : bool) (d : nat) (out : string) :
  Json.SerializeArray_with Json.SerializeValue vs "" b d = Some out ->
  Forall reads_back vs -> forallb round_trips vs = true ->
  forall (j : Json.t) (k : string),
    String.length out <= S f ->
    Json.HasError j = false ->
    Reads (Json.Tokenizer j) (out ++ k) ->
    exists j',
      Json.ParseArray_with (Json.ParseValue f) f j = Json.Returns (Some vs) j'
      /\ Json.HasError j' = false /\ Reads (Json.Tokenizer j') k.
Proof.
  intros S Rvs RTvs j k Lf E R.
  destruct (SerializeArray_with_text _ _ _ _ _ S) as (body & Sb & ->).
  set (w := closing b ("[" ++ body) d) in *.
  assert (Bw : blank w = true) by apply blank_closing.
  cbn [append] in R. rewrite !append_assoc in R.
  destruct (Consume_Reads j (String "[" _) JsonTokenType.ArrayStart "[" _ R
              eq_refl ltac:(discriminate)) as (Ty & _ & R1 & Er).
  pose proof (HasError_same _ _ Er) as E1. rewrite E in E1.
  unfold Json.ParseArray_with. token_is Ty.
  destruct vs as [| v vs].
  - cbn in Sb. injection Sb as <-. cbn [append] in R1.
    destruct (Peek_Reads _ _ _ _ _ R1 (lex_close_array w k Bw)
                ltac:(discriminate)) as (Ty2 & _ & R2 & Er2).
    pose proof (HasError_same _ _ Er2) as E2. rewrite E1 in E2.
    token_is Ty2.
    destruct (Consume_Reads _ _ _ _ _ R2 (lex_close_array w k Bw)
                ltac:(discriminate)) as (_ & _ & R3 & Er3).
    eexists. split; [reflexivity |].
    split; [rewrite (HasError_same _ _ Er3); exact E2 | exact R3].
  - destruct (SerializeArray_loop_cons _ _ _ _ _ _ _ Sb)
      as (s & body' & Sv & Sb' & ->).
    change (comma 0) with "" in *. cbn [append] in R1, Lf.
    rewrite !append_assoc in R1.
    apply (Reads_blank _ _ _ (blank_newline b (d + 1))) in R1.
    apply Forall_cons_iff in Rvs as [Rv Rvs].
    cbn [forallb] in RTvs. apply andb_prop in RTvs as [RTv RTvs].
    assert (K : stops (body' ++ w ++ String "]" k) = true).
    { destruct vs as [| v3 vs].
      - cbn in Sb'. injection Sb' as <-.
        apply stops_close; [exact Bw | reflexivity].
      - destruct (SerializeArray_loop_cons _ _ _ _ _ _ _ Sb')
          as (s3 & body3 & _ & _ & ->). reflexivity. }
    destruct (lex_value v b (d) s _ RTv Sv K) as (L & _).
    destruct (first_token_starts v (s ++ body' ++ w ++ String "]" k)
                (body' ++ w ++ String "]" k) RTv) as (N1 & N2 & _).
    destruct (first_token v _ _) as [[ty val] r] eqn:FT. cbn [fst] in N1, N2.
    destruct (Peek_Reads _ _ _ _ _ R1 L N1) as (Ty2 & _ & R2 & Er2).
    pose proof (HasError_same _ _ Er2) as E2. rewrite E1 in E2.
    rewrite ?is_a_eqb, Ty2.
    replace (JsonTokenType.eqb ty JsonTokenType.ArrayEnd) with false
      by (destruct ty; try reflexivity; contradiction).
    cbn [String.length] in Lf. rewrite !length_append in Lf.
    destruct (ParseArray_loop_text vs v 0 b d s body' Sv Sb' Rv Rvs RTv RTvs
                f [] _ w k Bw
                ltac:(rewrite length_append; lia)
                ltac:(rewrite length_append; lia) E2 R2)
      as (j' & P' & E' & R').
    exists j'. split; [exact P' | split; assumption].
Qed.

Lemma ParseObject_loop_text (ms : JsonObject) :
  forall (Key : string) (v : JsonValue) (W : nat) (b : bool) (d : nat)
         (s body : string),
    Json.SerializeValue v "" b d = Some s ->
    Json.SerializeObject_loop Json.SerializeValue ms (S W) "" b d = Some body ->
    reads_back v -> Forall (fun kv => reads_back (snd kv)) ms ->
    plain Key = true -> round_trips v = true ->
    forallb (fun kv => plain (fst kv) && round_trips (snd kv)) ms = true ->
    forall (n : nat) (Result : JsonObject) (j0 : Json.t) (w k : string),
      unique_keys (Result ++ (Key, v) :: ms)%list = true ->
      blank w = true ->
      String.length (s ++ body) <= f -> String.length (s ++ body) <= n ->
      Json.HasError j0 = false ->
      Reads (Json.Tokenizer j0)
        (String quote (Key ++ String quote (":" ++ separator b v d ++ s ++ body
                                            ++ w ++ String "}" k))) ->
      exists j',
        Json.ParseObject_loop (Json.ParseValue f) n Result (Json.Peek j0)
        = Json.Returns (Some (Result ++ (Key, v) :: ms)%list) j'
        /\ Json.HasError j' = false /\ Reads (Json.Tokenizer j') k.
Proof.
  induction ms as [| [Key2 v2] ms IH];
    intros Key v W b d s body Sv Sb Rv Rms PK RTv RTms n Result j0 w k
           U Bw Lf Ln E0 R0.
  - cbn in Sb. injection Sb as <-.
    destruct (Peek_Reads j0 _ _ _ _ R0 (lex_string _ _ PK) ltac:(discriminate))
      as (Ty0 & _ & R & Er0).
    pose proof (HasError_same _ _ Er0) as E. rewrite E0 in E.
    set (j := Json.Peek j0) in *.
    assert (K : stops ("" ++ w ++ String "}" k) = true)
      by (apply stops_close; [exact Bw | reflexivity]).
    destruct (lex_value v b d s _ RTv Sv K) as (_ & L1).
    rewrite length_append in Lf, Ln. destruct n as [| n]; [lia |].
    rule_step. token_is Ty0.
    destruct (Consume_Reads j _ _ _ _ R (lex_string _ _ PK) ltac:(discriminate))
      as (_ & Va1 & R1 & Er1).
    pose proof (HasError_same _ _ Er1) as E1. rewrite E in E1.
    cbn [append] in R1.
    destruct (Consume_Reads _ (String ":" _) JsonTokenType.Colon ":" _ R1
                eq_refl ltac:(discriminate)) as (Ty2 & _ & R2 & Er2).
    pose proof (HasError_same _ _ Er2) as E2. rewrite E1 in E2.
    token_is Ty2. rewrite Va1.
    apply (Reads_blank _ _ _ (blank_separator b v d)) in R2.
    destruct (Rv b d s Sv RTv f _ _ ltac:(lia) E2 R2 K) as (j3 & P3 & E3 & R3).
    rewrite P3. rule_step. rewrite E3.
    destruct (Consume_Reads j3 _ _ _ _ R3 (lex_close_object w k Bw)
                ltac:(discriminate)) as (Ty4 & _ & R4 & Er4).
    token_is Ty4. rewrite (emplace_new _ _ _ _ U).
    eexists. split; [reflexivity |].
    split; [rewrite (HasError_same _ _ Er4); exact E3 | exact R4].
  - destruct (SerializeObject_loop_cons _ _ _ _ _ _ _ _ Sb)
      as (s2 & body2 & Sv2 & Sb2 & ->).
    change (comma (S W)) with "," in *. cbn [append] in R0, Lf, Ln.
    destruct (Peek_Reads j0 _ _ _ _ R0 (lex_string _ _ PK) ltac:(discriminate))
      as (Ty0 & _ & R & Er0).
    pose proof (HasError_same _ _ Er0) as E. rewrite E0 in E.
    set (j := Json.Peek j0) in *.
    set (rest2 := String quote (Key2 ++ String quote (":" ++ separator b v2 d
                    ++ s2 ++ body2))) in *.
    assert (K : stops (String "," (newline b (d + 1) ++ rest2)
                       ++ w ++ String "}" k) = true) by reflexivity.
    destruct (lex_value v b d s _ RTv Sv K) as (_ & L1).
    rewrite length_append in Lf, Ln. cbn [String.length] in Lf, Ln.
    rewrite !length_append in Lf, Ln.
    destruct n as [| n]; [lia |].
    rule_step. token_is Ty0.
    destruct (Consume_Reads j _ _ _ _ R (lex_string _ _ PK) ltac:(discriminate))
      as (_ & Va1 & R1 & Er1).
    pose proof (HasError_same _ _ Er1) as E1. rewrite E in E1.
    cbn [append] in R1.
    destruct (Consume_Reads _ (String ":" _) JsonTokenType.Colon ":" _ R1
                eq_refl ltac:(discriminate)) as (Ty2 & _ & R2 & Er2).
    pose proof (HasError_same _ _ Er2) as E2. rewrite E1 in E2.
    token_is Ty2. rewrite Va1.
    apply (Reads_blank _ _ _ (blank_separator b v d)) in R2.
    destruct (Rv b d s Sv RTv f _ _ ltac:(lia) E2 R2 K) as (j3 & P3 & E3 & R3).
    rewrite P3. rule_step. rewrite E3.
    cbn [append] in R3.
    destruct (Consume_Reads j3 (String "," _) JsonTokenType.Comma "," _ R3
                eq_refl ltac:(discriminate)) as (Ty4 & _ & R4 & Er4).
    pose proof (HasError_same _ _ Er4) as E4. rewrite E3 in E4.
    token_is Ty4. rewrite (emplace_new _ _ _ _ U).
    apply Forall_cons_iff in Rms as [Rv2 Rms]. cbn [snd] in Rv2.
    cbn [forallb fst snd] in RTms. apply andb_prop in RTms as [RT2 RTms].
    apply andb_prop in RT2 as [PK2 RTv2].
    rewrite !append_assoc in R4.
    apply (Reads_blank _ _ _ (blank_newline b (d + 1))) in R4.
    subst rest2. cbn [append] in R4. rewrite !append_assoc in R4.
    cbn [append] in R4. rewrite !append_assoc in R4.
    cbn [String.length] in Lf, Ln. rewrite !length_append in Lf, Ln.
    cbn [String.length] in Lf, Ln. rewrite !length_append in Lf, Ln.
    destruct (IH Key2 v2 (S W) b d s2 body2 Sv2 Sb2 Rv2 Rms PK2 RTv2 RTms n
                (Result ++ [(Key, v)])%list _ w k
                ltac:(rewrite <- app_assoc; exact U) Bw
                ltac:(rewrite length_append; lia)
                ltac:(rewrite length_append; lia) E4 R4)
      as (j' & P' & E' & R').
    exists j'. rewrite <- app_assoc in P'. cbn [app] in P'.
    split; [exact P' | split; assumption].
Qed.

Lemma ParseObject_with_text (ms : JsonObject) (b : bool) (d : nat) (out : string) :
  Json.SerializeObject_with Json.SerializeValue ms "" b d = Some out ->
  Forall (fun kv => reads_back (snd kv)) ms ->
  forallb (fun kv => plain (fst kv) && round_trips (snd kv)) ms = true ->
  unique_keys ms = true ->
  forall (j : Json.t) (k : string),
    String.length out <= S f ->
    Json.HasError j = false ->
    Reads (Json.Tokenizer j) (out ++ k) ->
    exists j',
      Json.ParseObject_with (Json.ParseValue f) f j = Json.Returns (Some ms) j'
      /\ Json.HasError j' = false /\ Reads (Json.Tokenizer j') k.
Proof.
  intros S Rms RTms U j k Lf E R.
  destruct (SerializeObject_with_text _ _ _ _ _ S) as (body & Sb & ->).
  set (w := closing b ("{" ++ body) d) in *.
  assert (Bw : blank w = true) by apply blank_closing.
  cbn [append] in R. rewrite !append_assoc in R.
  destruct (Consume_Reads j (String "{" _) JsonTokenType.ObjectStart "{" _ R
              eq_refl ltac:(discriminate)) as (Ty & _ & R1 & Er).
  pose proof (HasError_same _ _ Er) as E1. rewrite E in E1.
  unfold Json.ParseObject_with. token_is Ty.
  destruct ms as [| [Key v] ms].
  - cbn in Sb. injection Sb as <-. cbn [append] in R1.
    destruct (Peek_Reads _ _ _ _ _ R1 (lex_close_object w k Bw)
                ltac:(discriminate)) as (Ty2 & _ & R2 & Er2).
    pose proof (HasError_same _ _ Er2) as E2. rewrite E1 in E2.
    token_is Ty2.
    destruct (Consume_Reads _ _ _ _ _ R2 (lex_close_object w k Bw)
                ltac:(discriminate)) as (_ & _ & R3 & Er3).
    eexists. split; [reflexivity |].
    split; [rewrite (HasError_same _ _ Er3); exact E2 | exact R3].
  - destruct (SerializeObject_loop_cons _ _ _ _ _ _ _ _ Sb)
      as (s & body' & Sv & Sb' & ->).
    change (comma 0) with "" in *. cbn [append] in R1, Lf.
    rewrite !append_assoc in R1.
    apply (Reads_blank _ _ _ (blank_newline b (d + 1))) in R1.
    cbn [append] in R1. rewrite !append_assoc in R1.
    cbn [append] in R1. rewrite !append_assoc in R1.
    apply Forall_cons_iff in Rms as [Rv Rms]. cbn [snd] in Rv.
    cbn [forallb fst snd] in RTms. apply andb_prop in RTms as [RT RTms].
    apply andb_prop in RT as [PK RTv].
    pose proof (Peek_Reads _ _ _ _ _ R1 (lex_string _ _ PK)
                  ltac:(discriminate)) as (Ty2 & _ & _ & _).
    rewrite ?is_a_eqb, Ty2. cbn [JsonTokenType.eqb]. cbv iota.
    cbn [String.length] in Lf. rewrite !length_append in Lf.
    cbn [String.length] in Lf. rewrite !length_append in Lf.
    cbn [String.length] in Lf. rewrite !length_append in Lf.
    destruct (ParseObject_loop_text ms Key v 0 b d s body' Sv Sb' Rv Rms PK RTv
                RTms f [] _ w k U Bw
                ltac:(rewrite length_append; lia)
                ltac:(rewrite length_append; lia) E1 R1)
      as (j' & P' & E' & R').
    exists j'. split; [exact P' | split; assumption].
Qed.
End ParseTexts.

(** ** The round trip *)

(** Induction on a value, with the hypothesis for every value inside a
    container. *)
Lemma JsonValue_nested_ind (P : JsonValue -> Prop) :
  P VUndefined -> P VNull -> (forall b, P (VBool b)) ->
  (forall n, P (VInt64 n)) -> (forall d, P (VDouble d)) ->
  (forall s, P (VString s)) ->
  P (VArray None) -> (forall a, Forall P a -> P (VArray (Some a))) ->
  P (VObject None) ->
  (forall o, Forall (fun kv => P (snd kv)) o -> P (VObject (Some o))) ->
  forall v, P v.
Proof.
  intros HU HN HB HI HD HS HAN HA HON HO. fix IH 1.
  intros [| | b | n | d | s | [a |] | [o |]];
    [exact HU | exact HN | apply HB | apply HI | apply HD | apply HS
    | | exact HAN | | exact HON].
  - apply HA. induction a as [| x a IHa]; constructor; [apply IH | exact IHa].
  - apply HO. induction o as [| [k x] o IHo]; constructor;
      [apply IH | exact IHo].
Qed.

(** A scalar is one token: [ParseValue] peeks at it, consumes it and
    builds the value from its text. *)
Lemma ParseValue_scalar (fuel : nat) (j : Json.t) (T : string)
    (ty : JsonTokenType.t) (val k : string) :
  Json.HasError j = false ->
  Reads (Json.Tokenizer j) T ->
  lex T = (ty, val, k) ->
  ty <> JsonTokenType.Invalid ->
  let j' := Json.Consume (Json.Peek j) in
  JsonToken.Type_ (Json.CurrentToken (Json.Peek j)) = ty
  /\ JsonToken.Value (Json.CurrentToken j') = val
  /\ Json.HasError j' = false
  /\ Reads (Json.Tokenizer j') k.
Proof.
  intros E R L N.
  destruct (Peek_Reads j _ _ _ _ R L N) as (Ty & _ & R1 & Er1).
  destruct (Consume_Reads _ _ _ _ _ R1 L N) as (_ & Va & R2 & Er2).
  cbn zeta. split; [exact Ty |]. split; [exact Va |].
  split; [| exact R2].
  rewrite (HasError_same _ _ Er2), (HasError_same _ _ Er1). exact E.
Qed.

(** Every value is read back from its text. *)
Theorem ParseValue_reads_back (v : JsonValue) : reads_back v.
Proof.
  induction v using JsonValue_nested_ind;
    intros bPretty Depth txt Ser RT fuel j k Lf E R K;
    try discriminate RT;
    destruct (lex_value _ _ _ _ _ RT Ser K) as (L & L1);
    (destruct fuel as [| f]; [lia |]); rule_step.
  - (* null *)
    destruct (ParseValue_scalar (S f) j _ _ _ _ E R L ltac:(discriminate))
      as (Ty & _ & E' & R').
    rewrite Ty. eexists. split; [reflexivity | split; assumption].
  - (* bool *)
    destruct (ParseValue_scalar (S f) j _ _ _ _ E R L ltac:(discriminate))
      as (Ty & Va & E' & R').
    rewrite Ty. cbv iota. rewrite Va.
    eexists. split; [destruct b; reflexivity | split; assumption].
  - (* integer *)
    destruct (ParseValue_scalar (S f) j _ _ _ _ E R L ltac:(discriminate))
      as (Ty & Va & E' & R').
    rewrite Ty. cbv iota. unfold Json.IsFloat. rewrite Va.
    destruct (to_string_int64_text n) as (_ & T1 & T2). rewrite T1, T2.
    cbn [orb]. cbv iota. cbn [round_trips] in RT. unfold in_int64 in RT.
    apply andb_prop in RT as [Lo Hi]. apply Z.leb_le in Lo, Hi.
    rewrite (stoll_to_string n (conj Lo Hi)). cbn [Json.convert].
    eexists. split; [reflexivity | split; assumption].
  - (* double *)
    destruct (ParseValue_scalar (S f) j _ _ _ _ E R L ltac:(discriminate))
      as (Ty & Va & E' & R').
    rewrite Ty. cbv iota. unfold Json.IsFloat. rewrite Va.
    cbn [round_trips] in RT. unfold double_survives in RT.
    apply andb_prop in RT as [RT SD]. apply andb_prop in RT as [_ FL].
    rewrite FL. cbv iota.
    destruct (stod (to_string_double d)) as [d' | e]; [| discriminate SD].
    apply double_eqb_eq in SD. subst d'. cbn [Json.convert].
    eexists. split; [reflexivity | split; assumption].
  - (* string *)
    destruct (ParseValue_scalar (S f) j _ _ _ _ E R L ltac:(discriminate))
      as (Ty & Va & E' & R').
    rewrite Ty. cbv iota. rewrite Va.
    eexists. split; [reflexivity | split; assumption].
  - (* array *)
    cbn [first_token] in L.
    destruct (Peek_Reads j _ _ _ _ R L ltac:(discriminate))
      as (Ty & _ & R1 & Er1).
    pose proof (HasError_same _ _ Er1) as E1. rewrite E in E1.
    rewrite Ty. cbv iota. cbn [Json.SerializeValue] in Ser.
    cbn [round_trips] in RT.
    destruct (ParseArray_with_text f a bPretty (Depth + 1) txt Ser H RT
                (Json.Peek j) k Lf E1 R1) as (j' & P' & E' & R').
    rewrite P'. rule_step.
    eexists. split; [reflexivity | split; assumption].
  - (* object *)
    cbn [first_token] in L.
    destruct (Peek_Reads j _ _ _ _ R L ltac:(discriminate))
      as (Ty & _ & R1 & Er1).
    pose proof (HasError_same _ _ Er1) as E1. rewrite E in E1.
    rewrite Ty. cbv iota. cbn [Json.SerializeValue] in Ser.
    cbn [round_trips] in RT. apply andb_prop in RT as [RT U].
    destruct (ParseObject_with_text f o bPretty (Depth + 1) txt Ser H RT U
                (Json.Peek j) k Lf E1 R1) as (j' & P' & E' & R').
    rewrite P'. rule_step.
    eexists. split; [reflexivity | split; assumption].
Qed.

(** A tree that round-trips holds no empty pointer, so the serializer
    writes it. *)
Lemma SerializeArray_loop_some (vs : JsonArray) (bPretty : bool) (Depth : nat) :
  Forall (fun v => exists s, Json.SerializeValue v "" bPretty Depth = Some s) vs ->
  forall Written Result,
  exists out,
    Json.SerializeArray_loop Json.SerializeValue vs Written Result bPretty Depth
    = Some out.
Proof.
  induction 1 as [| v vs (s & Hs) _ IH]; intros W R; cbn [Json.SerializeArray_loop].
  - eexists. reflexivity.
  - rewrite Hs. apply IH.
Qed.

Lemma SerializeObject_loop_some (ms : JsonObject) (bPretty : bool) (Depth : nat) :
  Forall (fun kv => exists s,
            Json.SerializeValue (snd kv) "" bPretty Depth = Some s) ms ->
  forall Written Result,
  exists out,
    Json.SerializeObject_loop Json.SerializeValue ms Written Result bPretty Depth
    = Some out.
Proof.
  induction 1 as [| [Key v] ms (s & Hs) _ IH]; intros W R;
    cbn [Json.SerializeObject_loop].
  - eexists. reflexivity.
  - cbn [snd] in Hs. rewrite Hs. apply IH.
Qed.

Lemma round_trips_serializes (v : JsonValue) :
  round_trips v = true ->
  forall bPretty Depth,
  exists s, Json.SerializeValue v "" bPretty Depth = Some s.
Proof.
  induction v using JsonValue_nested_ind; intros RT bPretty Depth;
    try discriminate RT; cbn [Json.SerializeValue];
    try (eexists; reflexivity).
  - cbn [round_trips] in RT. unfold Json.SerializeArray_with.
    destruct (SerializeArray_loop_some a bPretty (Depth + 1)) with
      (Written := 0) (Result := "" ++ "[") as (out & ->).
    + rewrite Forall_forall in *. intros x Hx. apply (H x Hx).
      rewrite forallb_forall in RT. apply RT, Hx.
    + eexists. reflexivity.
  - cbn [round_trips] in RT. apply andb_prop in RT as [RT _].
    unfold Json.SerializeObject_with.
    destruct (SerializeObject_loop_some o bPretty (Depth + 1)) with
      (Written := 0) (Result := "" ++ "{") as (out & ->).
    + rewrite Forall_forall in *. intros x Hx. apply (H x Hx).
      rewrite forallb_forall in RT. specialize (RT x Hx).
      apply andb_prop in RT as [_ RT]. exact RT.
    + eexists. reflexivity.
Qed.

(** Every tree that round-trips is written, in either mode, and read
    back from the text, whatever follows it. *)
Lemma Serialize_reads_back (doc : Json.t) (Root : JsonObject) (bPretty : bool) :
  Json.RootObject doc = Some Root ->
  round_trips (VObject (Some Root)) = true ->
  exists text,
    Json.Serialize bPretty doc = Some text
    /\ forall (trailing : string) (j : Json.t),
       exists j',
         Json.Parse (text ++ trailing) j = Json.Returns tt j'
         /\ Json.HasError j' = false
         /\ Json.RootObject j' = Some Root.
Proof.
  intros HRoot HTree.
  unfold Json.Serialize, Json.SerializeObject. rewrite HRoot.
  assert (Ser0 : exists text0,
            Json.SerializeObject_with Json.SerializeValue Root "" bPretty 0
            = Some text0).
  { cbn [round_trips] in HTree. apply andb_prop in HTree as [RT _].
    unfold Json.SerializeObject_with.
    destruct (SerializeObject_loop_some Root bPretty 0) with
      (Written := 0) (Result := "" ++ "{") as (out & ->).
    - rewrite Forall_forall. intros x Hx.
      rewrite forallb_forall in RT. specialize (RT x Hx).
      apply andb_prop in RT as [_ RT].
      apply (round_trips_serializes _ RT).
    - eexists. reflexivity. }
  destruct Ser0 as (text0 & Ser0). exists text0. split; [exact Ser0 |].
  intros trailing j. unfold Json.Parse, Json.ParseObject.
  cbn [round_trips] in HTree. apply andb_prop in HTree as [RT U].
  destruct (ParseObject_with_text (S (size (text0 ++ trailing))) Root bPretty 0
              text0 Ser0) with
    (j := Json.make (JsonTokenizer.Init (text0 ++ trailing))
            (Json.CurrentToken j) None (Json.RootObject j))
    (k := trailing) as (j' & P' & E' & R').
  - rewrite Forall_forall. intros x _. apply ParseValue_reads_back.
  - exact RT.
  - exact U.
  - unfold size. rewrite length_append. lia.
  - reflexivity.
  - apply Reads_Init.
  - rewrite P'. cbn [Json.bind]. eexists. split; [reflexivity |].
    split; [exact E' | reflexivity].
Qed.


(** ** The round trip of the specification *)

Lemma double_eqb_refl (d : double) : double_eqb d d = true.
Proof.
  destruct d as [s | s | | s m e]; cbn [double_eqb];
    rewrite ?Bool.eqb_reflx, ?Pos.eqb_refl, ?Z.eqb_refl; reflexivity.
Qed.

Lemma unique_keys_In (o : JsonObject) (k : string) (v : JsonValue) :
  unique_keys o = true -> In (k, v) o -> unordered_map.find k o = Some v.
Proof.
  induction o as [| [k0 v0] r IH]; intros U H; [contradiction |].
  cbn [unique_keys unordered_map.find] in *.
  destruct (unordered_map.find k0 r) as [x |] eqn:F; [discriminate |].
  destruct H as [H | H].
  - injection H as -> ->. rewrite String.eqb_refl. reflexivity.
  - destruct (String.eqb k0 k) eqn:E.
    + apply String.eqb_eq in E. subst k0.
      rewrite (IH U H) in F. discriminate.
    + exact (IH U H).
Qed.

(** A tree that round-trips is the same as itself, also when its members
    are looked up by key. *)
Lemma same_tree_refl (v : JsonValue) :
  round_trips v = true -> same_tree v v = true.
Proof.
  induction v using JsonValue_nested_ind; intros RT;
    try discriminate RT; cbn [same_tree].
  - reflexivity.
  - apply Bool.eqb_reflx.
  - apply Z.eqb_refl.
  - apply double_eqb_refl.
  - apply String.eqb_refl.
  - cbn [round_trips] in RT.
    induction a as [| x a IHa]; [reflexivity |].
    cbn [forallb] in RT. apply andb_prop in RT as [Rx Ra].
    apply Forall_cons_iff in H as [Hx Ha].
    rewrite (Hx Rx). exact (IHa Ha Ra).
  - cbn [round_trips] in RT. apply andb_prop in RT as [RT U].
    rewrite Nat.eqb_refl. cbn [andb].
    apply forallb_forall. intros [k x] Hin.
    cbn [fst snd]. rewrite (unique_keys_In o k x U Hin).
    rewrite Forall_forall in H. apply (H (k, x) Hin).
    rewrite forallb_forall in RT. specialize (RT (k, x) Hin).
    apply andb_prop in RT as [_ RT]. exact RT.
Qed.

(** C1, counterexample.  The string [a\b] holds no quote and no control
    character, and the document that holds it under the key k does not
    come back: the text is written with the backslash as it stands, the
    tokenizer drops it, and the parsed document holds [ab].  Nor does
    every double come back: one third is written as 0.333333, which is
    another number. *)
Lemma backslash_breaks_round_trip :
  strings_allowed (VObject (Some [("k", VString "a\b")])) = true
  /\ Json.Serialize false
       (Json.with_RootObject Json.new (Some [("k", VString "a\b")]))
     = Some ("{" ++ quoted "k" ++ ": " ++ quoted "a\b" ++ "}")
  /\ (exists j',
        Json.Parse ("{" ++ quoted "k" ++ ": " ++ quoted "a\b" ++ "}") Json.new
        = Json.Returns tt j'
        /\ Json.HasError j' = false
        /\ Json.RootObject j' = Some [("k", VString "ab")])
  /\ ~ round_trip_as_specified [("k", VString "a\b")]
  /\ to_string_double one_third = "0.333333"
  /\ double_survives one_third = false.
Proof.
  split; [reflexivity |]. split; [reflexivity |].
  split; [eexists; split; [vm_compute; reflexivity | split; reflexivity] |].
  split; [| split; vm_compute; reflexivity].
  intros H. destruct (H eq_refl) as (text & j' & Root' & S & P & R & T).
  vm_compute in S. injection S as <-.
  vm_compute in P. injection P as <-.
  cbn in R. injection R as <-.
  vm_compute in T. discriminate T.
Qed.

(** C1, amended.  A tree that holds no [Undefined] and no empty container
    pointer, whose strings and keys hold no quote, no backslash and no
    NUL, whose objects have no key twice and whose doubles are read back
    from their six-decimal text comes back from its compact text: [Parse]
    records no error and leaves the same tree, the same members with the
    same values and the elements of every array in their order. *)
Theorem compact_round_trip (doc : Json.t) (Root : JsonObject) (j : Json.t)
    (HRoot : Json.RootObject doc = Some Root)
    (HTree : round_trips (VObject (Some Root)) = true) :
  exists text j',
    Json.Serialize false doc = Some text
    /\ Json.Parse text j = Json.Returns tt j'
    /\ Json.HasError j' = false
    /\ Json.RootObject j' = Some Root
    /\ same_tree (VObject (Some Root)) (VObject (Some Root)) = true.
Proof.
  destruct (Serialize_reads_back doc Root false HRoot HTree) as (text & S & P).
  destruct (P "" j) as (j' & P' & E' & R').
  rewrite append_nil_r in P'.
  exists text, j'. repeat split; try assumption.
  exact (same_tree_refl _ HTree).
Qed.

Lemma compact_round_trip_witness :
  exists text j',
    Json.Serialize false sample_document = Some text
    /\ Json.Parse text Json.new = Json.Returns tt j'
    /\ Json.HasError j' = false
    /\ Json.RootObject j' = Some sample_tree
    /\ same_tree (VObject (Some sample_tree)) (VObject (Some sample_tree)) = true.
Proof.
  apply (compact_round_trip sample_document sample_tree Json.new eq_refl).
  vm_compute. reflexivity.
Defined.

(** X1.  Round trip.  A document whose tree holds no [Undefined] and no empty
    pointer, has plain strings and keys, integers in [int64_t] and doubles
    that survive their six-decimal text is written by [Serialize], in
    either mode; [Parse] of that text, with whatever follows the closing
    brace, records no error and rebuilds the same tree: the same members in
    the same order of insertion, arrays element by element. *)
Theorem Parse_Serialize (doc : Json.t) (Root : JsonObject) (bPretty : bool)
    (HRoot : Json.RootObject doc = Some Root)
    (HTree : round_trips (VObject (Some Root)) = true) :
  exists text,
    Json.Serialize bPretty doc = Some text
    /\ forall (trailing : string) (j : Json.t),
       exists j',
         Json.Parse (text ++ trailing) j = Json.Returns tt j'
         /\ Json.HasError j' = false
         /\ Json.RootObject j' = Some Root.
Proof. exact (Serialize_reads_back doc Root bPretty HRoot HTree). Qed.

Lemma Parse_Serialize_witness :
  exists text,
    Json.Serialize true sample_document = Some text
    /\ forall trailing j,
       exists j',
         Json.Parse (text ++ trailing) j = Json.Returns tt j'
         /\ Json.HasError j' = false
         /\ Json.RootObject j' = Some sample_tree.
Proof.
  apply (Parse_Serialize sample_document sample_tree true eq_refl).
  vm_compute. reflexivity.
Defined.

(** ** Parsing ends *)

Lemma skip_space_length (s : string) :
  String.length (skip_space s) <= String.length s.
Proof.
  induction s as [| c r IH]; cbn [skip_space]; [lia |].
  destruct (isspace c); cbn [String.length] in *; lia.
Qed.

Lemma scan_string_length (n : nat) :
  forall s Value,
    String.length s <= n ->
    String.length (snd (scan_string s Value)) <= String.length s.
Proof.
  induction n as [| n IH]; intros s Value L.
  - destruct s; [cbn; lia | cbn in L; lia].
  - destruct s as [| c r]; [cbn; lia |].
    cbn [scan_string String.length] in *.
    destruct (Ascii.eqb c NUL); [cbn [snd]; lia |].
    destruct (Ascii.eqb c backslash).
    + destruct r as [| d r']; [cbn; lia |].
      cbn [String.length] in *.
      specialize (IH r' (push_back Value d) ltac:(lia)). lia.
    + destruct (Ascii.eqb c quote); [cbn [snd]; lia |].
      specialize (IH r (push_back Value c) ltac:(lia)). lia.
Qed.

Lemma scan_number_length (s Value : string) :
  String.length (snd (scan_number s Value)) <= String.length s.
Proof.
  revert Value. induction s as [| c r IH]; intros Value; [cbn; lia |].
  cbn [scan_number]. destruct (JsonTokenizer.IsValidNumberChar c).
  - specialize (IH (push_back Value c)). cbn [String.length]. lia.
  - cbn [snd]. lia.
Qed.

(** A token that stands for text is at least one character long. *)
Lemma lex_pending (t : string) (ty : JsonTokenType.t) (v r : string) :
  lex t = (ty, v, r) ->
  String.length r + (if real ty then 1 else 0) <= String.length t.
Proof.
  unfold lex. pose proof (skip_space_length t) as L.
  destruct (skip_space t) as [| c s] eqn:Es.
  - intros [= <- <- <-]. cbn. lia.
  - cbn [String.length] in L. cbv beta iota.
    pose proof (length_drop 4 (String c s)) as D4.
    pose proof (length_drop 5 (String c s)) as D5.
    cbn [String.length] in D4, D5.
    set (d4 := drop 4 (String c s)) in *. set (d5 := drop 5 (String c s)) in *.
    clearbody d4 d5.
    pose proof (scan_string_length _ s "" (le_n _)) as Q.
    pose proof (scan_number_length s (push_back "" c)) as N.
    remember (if real ty then 1 else 0) as k eqn:Ek.
    repeat match goal with
    | |- context [if ?b then _ else _] => destruct b eqn:?
    end;
    try (intros [= <- <- <-];
         cbn [real JsonTokenType.eqb negb andb String.length] in *; lia).
    + destruct (scan_string s "") as [v' r']. intros [= <- <- <-].
      cbn [real JsonTokenType.eqb negb andb snd] in *. lia.
    + cbn [scan_number].
      match goal with H : JsonTokenizer.IsValidNumberChar c = true |- _ =>
        rewrite H end.
      destruct (scan_number s (push_back "" c)) as [v' r'].
      intros [= <- <- <-]. cbn [real JsonTokenType.eqb negb andb snd] in *. lia.
Qed.

Lemma remaining_with_CurrentToken (tz : JsonTokenizer.t) (tok : JsonToken.t) :
  remaining (JsonTokenizer.with_CurrentToken tz tok) = remaining tz.
Proof. reflexivity. Qed.

Lemma NextToken_pending (tz : JsonTokenizer.t) :
  String.length (remaining (snd (JsonTokenizer.NextToken tz)))
  + (if real (JsonToken.Type_ (fst (JsonTokenizer.NextToken tz))) then 1 else 0)
  <= String.length (remaining tz).
Proof.
  destruct (NextToken_lex tz) as (tok & tz' & -> & L & _).
  cbn [fst snd]. symmetry in L. exact (lex_pending _ _ _ _ L).
Qed.

Lemma fill_pending (tz : JsonTokenizer.t) :
  pending (JsonTokenizer.fill tz) <= pending tz.
Proof.
  unfold JsonTokenizer.fill.
  destruct (JsonToken.is_a JsonTokenType.Invalid (JsonTokenizer.CurrentToken tz))
    eqn:E; [| lia].
  pose proof (NextToken_pending tz) as N.
  destruct (JsonTokenizer.NextToken tz) as [tok tz']. cbn [fst snd] in N.
  unfold pending. cbn [JsonTokenizer.CurrentToken JsonTokenizer.with_CurrentToken].
  rewrite ?remaining_with_CurrentToken.
  apply is_a_Type in E. rewrite E. cbn [real JsonTokenType.eqb negb andb]. lia.
Qed.

Lemma PeekToken_pending (tz : JsonTokenizer.t) :
  pending (snd (JsonTokenizer.PeekToken tz)) <= pending tz.
Proof. unfold JsonTokenizer.PeekToken. cbn [snd]. apply fill_pending. Qed.

(** [GetToken] hands out a token that was counted. *)
Lemma GetToken_pending (tz : JsonTokenizer.t) :
  pending (snd (JsonTokenizer.GetToken tz))
  + (if real (JsonToken.Type_ (fst (JsonTokenizer.GetToken tz))) then 1 else 0)
  <= pending tz.
Proof.
  unfold JsonTokenizer.GetToken.
  pose proof (fill_pending tz) as Fl.
  pose proof (NextToken_pending (JsonTokenizer.fill tz)) as N.
  destruct (JsonTokenizer.NextToken (JsonTokenizer.fill tz)) as [tok tz'].
  cbn [fst snd] in *. unfold pending in *.
  cbn [JsonTokenizer.CurrentToken JsonTokenizer.with_CurrentToken].
  rewrite ?remaining_with_CurrentToken.
  lia.
Qed.

Lemma UpdateToken_fields (bPeak : bool) (j : Json.t) :
  Json.Tokenizer (Json.UpdateToken bPeak j)
  = snd (if bPeak then JsonTokenizer.PeekToken (Json.Tokenizer j)
         else JsonTokenizer.GetToken (Json.Tokenizer j))
  /\ Json.CurrentToken (Json.UpdateToken bPeak j)
     = fst (if bPeak then JsonTokenizer.PeekToken (Json.Tokenizer j)
            else JsonTokenizer.GetToken (Json.Tokenizer j))
  /\ Json.RootObject (Json.UpdateToken bPeak j) = Json.RootObject j.
Proof.
  unfold Json.UpdateToken.
  destruct (if bPeak then _ else _) as [tok tz].
  cbn [Json.CurrentToken fst snd].
  destruct (JsonToken.is_a JsonTokenType.Invalid tok).
  - destruct (ThrowError_fields tok "Invalid token"
                (Json.make tz tok (Json.ErrorMessage j) (Json.RootObject j)))
      as (-> & -> & ->).
    repeat split.
  - repeat split.
Qed.

Lemma Consume_pending (j : Json.t) :
  pending (Json.Tokenizer (Json.Consume j))
  + (if real (JsonToken.Type_ (Json.CurrentToken (Json.Consume j))) then 1 else 0)
  <= pending (Json.Tokenizer j).
Proof.
  unfold Json.Consume.
  destruct (UpdateToken_fields false j) as (-> & -> & _).
  apply GetToken_pending.
Qed.

Lemma Peek_pending (j : Json.t) :
  pending (Json.Tokenizer (Json.Peek j)) <= pending (Json.Tokenizer j).
Proof.
  unfold Json.Peek.
  destruct (UpdateToken_fields true j) as (-> & _ & _).
  apply PeekToken_pending.
Qed.

Lemma real_is_a (ty : JsonTokenType.t) (tok : JsonToken.t) :
  JsonToken.is_a ty tok = true -> real ty = true ->
  real (JsonToken.Type_ tok) = true.
Proof. intros H R. apply is_a_Type in H. rewrite H. exact R. Qed.

(** A token was consumed and found to be of a type that stands for text:
    less is left to read. *)
Lemma Consume_less (j : Json.t) (ty : JsonTokenType.t) :
  JsonToken.is_a ty (Json.CurrentToken (Json.Consume j)) = true ->
  real ty = true ->
  pending (Json.Tokenizer (Json.Consume j)) < pending (Json.Tokenizer j).
Proof.
  intros H R. pose proof (Consume_pending j) as C.
  rewrite (real_is_a _ _ H R) in C. lia.
Qed.

Lemma ThrowError_Tokenizer (Token : JsonToken.t) (message : string) (j : Json.t) :
  Json.Tokenizer (Json.ThrowError Token message j) = Json.Tokenizer j.
Proof. exact (proj1 (ThrowError_fields Token message j)). Qed.

Lemma stoll_raises (str : string) (e : exn) :
  stoll str = Raise e -> conversion_error e = true.
Proof.
  unfold stoll. destruct (read_sign (skip_space str)) as [neg s].
  destruct (read_digits s 0%Z 0) as [[v count] r].
  destruct count; [intros [= <-]; reflexivity |].
  destruct (_ && _)%bool; [discriminate | intros [= <-]; reflexivity].
Qed.

Lemma stod_raises (str : string) (e : exn) :
  stod str = Raise e -> conversion_error e = true.
Proof.
  unfold stod. destruct (read_sign (skip_space str)) as [neg s].
  destruct (read_digits s 0%Z 0) as [[ip n1] s1].
  destruct (match s1 with String "." r => read_digits r ip 0 | _ => (ip, 0, s1) end)
    as [[m n2] s2].
  destruct (n1 + n2); [intros [= <-]; reflexivity |].
  destruct m as [| p | p]; try discriminate.
  destruct (round_decimal neg p _); try (intros [= <-]; reflexivity).
  destruct (is_subnormal _ && _); [intros [= <-]; reflexivity | discriminate].
Qed.

Section Halting.
Variable ParseValue : Json.t -> Json.outcome JsonValue.
Variable F : nat.
Hypothesis ParseValue_halts : halts F ParseValue.

Lemma ParseArray_loop_halts (n : nat) :
  forall (Values : JsonArray) (j : Json.t),
    pending (Json.Tokenizer j) < n -> pending (Json.Tokenizer j) < F ->
    match Json.ParseArray_loop ParseValue n Values j with
    | Json.Returns _ j' =>
        pending (Json.Tokenizer j') <= pending (Json.Tokenizer j)
    | Json.Throws e => conversion_error e = true
    | Json.OutOfFuel => False
    end.
Proof.
  induction n as [| n IH]; intros Values j Ln LF; [lia |].
  rule_step. pose proof (ParseValue_halts j LF) as PV.
  destruct (ParseValue j) as [v j1 | e |]; [| exact PV | exact PV].
  rule_step. destruct (Json.HasError j1); [exact PV |].
  pose proof (Consume_pending j1) as C.
  destruct (JsonToken.is_a JsonTokenType.Comma
              (Json.CurrentToken (Json.Consume j1))) eqn:Cm;
    destruct (JsonToken.is_a JsonTokenType.ArrayEnd
                (Json.CurrentToken (Json.Consume j1))) eqn:En;
    cbn [negb andb].
  - lia.
  - pose proof (Consume_less j1 _ Cm eq_refl) as Ls.
    pose proof (Peek_pending (Json.Consume j1)) as Pk.
    specialize (IH (Values ++ [v])%list (Json.Peek (Json.Consume j1))
                   ltac:(lia) ltac:(lia)).
    destruct (Json.ParseArray_loop ParseValue n (Values ++ [v])%list
                (Json.Peek (Json.Consume j1))); [lia | exact IH | exact IH].
  - lia.
  - unfold Json.ThrowParserError. rewrite ThrowError_Tokenizer. lia.
Qed.

Lemma ParseArray_with_halts (n : nat) (j : Json.t) :
  pending (Json.Tokenizer j) <= n -> pending (Json.Tokenizer j) <= F ->
  match Json.ParseArray_with ParseValue n j with
  | Json.Returns _ j' =>
      pending (Json.Tokenizer j') <= pending (Json.Tokenizer j)
  | Json.Throws e => conversion_error e = true
  | Json.OutOfFuel => False
  end.
Proof.
  intros Ln LF. unfold Json.ParseArray_with.
  pose proof (Consume_pending j) as C.
  destruct (JsonToken.is_a JsonTokenType.ArrayStart
              (Json.CurrentToken (Json.Consume j))) eqn:St; cbn [negb].
  - pose proof (Consume_less j _ St eq_refl) as Ls.
    pose proof (Peek_pending (Json.Consume j)) as Pk.
    destruct (JsonToken.is_a JsonTokenType.ArrayEnd
                (Json.CurrentToken (Json.Peek (Json.Consume j)))).
    + pose proof (Consume_pending (Json.Peek (Json.Consume j))). lia.
    + pose proof (ParseArray_loop_halts n [] (Json.Peek (Json.Consume j))
                    ltac:(lia) ltac:(lia)) as L.
      destruct (Json.ParseArray_loop ParseValue n []
                  (Json.Peek (Json.Consume j))); [lia | exact L | exact L].
  - unfold Json.ThrowParserError. rewrite ThrowError_Tokenizer. lia.
Qed.

Lemma ParseObject_loop_halts (n : nat) :
  forall (Result : JsonObject) (j : Json.t),
    pending (Json.Tokenizer j) < n -> pending (Json.Tokenizer j) < F ->
    match Json.ParseObject_loop ParseValue n Result j with
    | Json.Returns _ j' =>
        pending (Json.Tokenizer j') <= pending (Json.Tokenizer j)
    | Json.Throws e => conversion_error e = true
    | Json.OutOfFuel => False
    end.
Proof.
  induction n as [| n IH]; intros Result j Ln LF; [lia |].
  rule_step.
  destruct (JsonToken.is_a JsonTokenType.String (Json.CurrentToken j));
    cbn [negb].
  2: { unfold Json.ThrowParserError. rewrite ThrowError_Tokenizer. lia. }
  pose proof (Consume_pending j) as C1.
  set (j1 := Json.Consume j) in *.
  pose proof (Consume_pending j1) as C2.
  destruct (JsonToken.is_a JsonTokenType.Colon
              (Json.CurrentToken (Json.Consume j1))) eqn:Co; cbn [negb].
  2: { unfold Json.ThrowParserError. rewrite ThrowError_Tokenizer. lia. }
  set (j2 := Json.Consume j1) in *.
  pose proof (ParseValue_halts j2 ltac:(lia)) as PV.
  destruct (ParseValue j2) as [v j3 | e |]; [| exact PV | exact PV].
  rule_step. destruct (Json.HasError j3); [lia |].
  pose proof (Consume_pending j3) as C.
  destruct (JsonToken.is_a JsonTokenType.Comma
              (Json.CurrentToken (Json.Consume j3))) eqn:Cm;
    destruct (JsonToken.is_a JsonTokenType.ObjectEnd
                (Json.CurrentToken (Json.Consume j3))) eqn:En;
    cbn [negb andb].
  - lia.
  - pose proof (Consume_less j3 _ Cm eq_refl) as Ls.
    pose proof (Peek_pending (Json.Consume j3)) as Pk.
    match goal with
    | |- match Json.ParseObject_loop _ _ ?R ?J with _ => _ end =>
        specialize (IH R J ltac:(lia) ltac:(lia));
        destruct (Json.ParseObject_loop ParseValue n R J);
        [lia | exact IH | exact IH]
    end.
  - lia.
  - unfold Json.ThrowParserError. rewrite ThrowError_Tokenizer. lia.
Qed.

Lemma ParseObject_with_halts (n : nat) (j : Json.t) :
  pending (Json.Tokenizer j) <= n -> pending (Json.Tokenizer j) <= F ->
  match Json.ParseObject_with ParseValue n j with
  | Json.Returns _ j' =>
      pending (Json.Tokenizer j') <= pending (Json.Tokenizer j)
  | Json.Throws e => conversion_error e = true
  | Json.OutOfFuel => False
  end.
Proof.
  intros Ln LF. unfold Json.ParseObject_with.
  pose proof (Consume_pending j) as C.
  destruct (JsonToken.is_a JsonTokenType.ObjectStart
              (Json.CurrentToken (Json.Consume j))) eqn:St; cbn [negb].
  - pose proof (Consume_less j _ St eq_refl) as Ls.
    pose proof (Peek_pending (Json.Consume j)) as Pk.
    destruct (JsonToken.is_a JsonTokenType.ObjectEnd
                (Json.CurrentToken (Json.Peek (Json.Consume j)))).
    + pose proof (Consume_pending (Json.Peek (Json.Consume j))). lia.
    + pose proof (ParseObject_loop_halts n [] (Json.Peek (Json.Consume j))
                    ltac:(lia) ltac:(lia)) as L.
      destruct (Json.ParseObject_loop ParseValue n []
                  (Json.Peek (Json.Consume j))); [lia | exact L | exact L].
  - unfold Json.ThrowParserError. rewrite ThrowError_Tokenizer. lia.
Qed.
End Halting.

Lemma ParseValue_halts (fuel : nat) : halts fuel (Json.ParseValue fuel).
Proof.
  induction fuel as [| fuel IH]; intros j L; [lia |].
  rule_step. pose proof (Peek_pending j) as Pk.
  set (j0 := Json.Peek j) in *.
  pose proof (Consume_pending j0) as C.
  destruct (JsonToken.Type_ (Json.CurrentToken j0));
    try (unfold Json.ThrowParserError; rewrite ThrowError_Tokenizer; lia);
    try lia.
  - pose proof (ParseObject_with_halts _ fuel IH fuel j0 ltac:(lia) ltac:(lia))
      as O.
    destruct (Json.ParseObject_with (Json.ParseValue fuel) fuel j0);
      cbn [Json.bind]; [lia | exact O | exact O].
  - pose proof (ParseArray_with_halts _ fuel IH fuel j0 ltac:(lia) ltac:(lia))
      as A.
    destruct (Json.ParseArray_with (Json.ParseValue fuel) fuel j0);
      cbn [Json.bind]; [lia | exact A | exact A].
  - destruct (Json.IsFloat (Json.Consume j0)).
    + destruct (stod _) eqn:Cv; cbn [Json.convert];
        [lia | exact (stod_raises _ _ Cv)].
    + destruct (stoll _) eqn:Cv; cbn [Json.convert];
        [lia | exact (stoll_raises _ _ Cv)].
Qed.

(** More room changes nothing: two rules that agree where there is less
    than [F] to read make loops that agree there. *)
Section Room.
Variables ParseValue ParseValue' : Json.t -> Json.outcome JsonValue.
Variable F : nat.
Hypothesis ParseValue_halts : halts F ParseValue.
Hypothesis ParseValue_same :
  forall j, pending (Json.Tokenizer j) < F -> ParseValue j = ParseValue' j.

Lemma ParseArray_loop_room (n : nat) :
  forall (n' : nat) (Values : JsonArray) (j : Json.t),
    pending (Json.Tokenizer j) < n -> pending (Json.Tokenizer j) < n' ->
    pending (Json.Tokenizer j) < F ->
    Json.ParseArray_loop ParseValue n Values j
    = Json.ParseArray_loop ParseValue' n' Values j.
Proof.
  induction n as [| n IH]; intros n' Values j Ln Ln' LF; [lia |].
  destruct n' as [| n']; [lia |].
  rule_step. rewrite <- (ParseValue_same j LF).
  pose proof (ParseValue_halts j LF) as PV.
  destruct (ParseValue j) as [v j1 | e |]; [| reflexivity | reflexivity].
  rule_step. destruct (Json.HasError j1); [reflexivity |].
  destruct (JsonToken.is_a JsonTokenType.Comma
              (Json.CurrentToken (Json.Consume j1))) eqn:Cm;
    destruct (JsonToken.is_a JsonTokenType.ArrayEnd
                (Json.CurrentToken (Json.Consume j1))) eqn:En;
    cbn [negb andb]; try reflexivity.
  pose proof (Consume_less j1 _ Cm eq_refl) as Ls.
  pose proof (Peek_pending (Json.Consume j1)) as Pk.
  apply IH; lia.
Qed.

Lemma ParseArray_with_room (n n' : nat) (j : Json.t) :
  pending (Json.Tokenizer j) <= n -> pending (Json.Tokenizer j) <= n' ->
  pending (Json.Tokenizer j) <= F ->
  Json.ParseArray_with ParseValue n j = Json.ParseArray_with ParseValue' n' j.
Proof.
  intros Ln Ln' LF. unfold Json.ParseArray_with.
  destruct (JsonToken.is_a JsonTokenType.ArrayStart
              (Json.CurrentToken (Json.Consume j))) eqn:St; cbn [negb];
    [| reflexivity].
  pose proof (Consume_less j _ St eq_refl) as Ls.
  pose proof (Peek_pending (Json.Consume j)) as Pk.
  destruct (JsonToken.is_a JsonTokenType.ArrayEnd _); [reflexivity |].
  apply ParseArray_loop_room; lia.
Qed.

Lemma ParseObject_loop_room (n : nat) :
  forall (n' : nat) (Result : JsonObject) (j : Json.t),
    pending (Json.Tokenizer j) < n -> pending (Json.Tokenizer j) < n' ->
    pending (Json.Tokenizer j) < F ->
    Json.ParseObject_loop ParseValue n Result j
    = Json.ParseObject_loop ParseValue' n' Result j.
Proof.
  induction n as [| n IH]; intros n' Result j Ln Ln' LF; [lia |].
  destruct n' as [| n']; [lia |].
  rule_step.
  destruct (JsonToken.is_a JsonTokenType.String (Json.CurrentToken j));
    cbn [negb]; [| reflexivity].
  pose proof (Consume_pending j) as C1.
  set (j1 := Json.Consume j) in *.
  pose proof (Consume_pending j1) as C2.
  destruct (JsonToken.is_a JsonTokenType.Colon
              (Json.CurrentToken (Json.Consume j1))) eqn:Co; cbn [negb];
    [| reflexivity].
  set (j2 := Json.Consume j1) in *.
  rewrite <- (ParseValue_same j2 ltac:(lia)).
  pose proof (ParseValue_halts j2 ltac:(lia)) as PV.
  destruct (ParseValue j2) as [v j3 | e |]; [| reflexivity | reflexivity].
  rule_step. destruct (Json.HasError j3); [reflexivity |].
  destruct (JsonToken.is_a JsonTokenType.Comma
              (Json.CurrentToken (Json.Consume j3))) eqn:Cm;
    destruct (JsonToken.is_a JsonTokenType.ObjectEnd
                (Json.CurrentToken (Json.Consume j3))) eqn:En;
    cbn [negb andb]; try reflexivity.
  pose proof (Consume_less j3 _ Cm eq_refl) as Ls.
  pose proof (Peek_pending (Json.Consume j3)) as Pk.
  apply IH; lia.
Qed.

Lemma ParseObject_with_room (n n' : nat) (j : Json.t) :
  pending (Json.Tokenizer j) <= n -> pending (Json.Tokenizer j) <= n' ->
  pending (Json.Tokenizer j) <= F ->
  Json.ParseObject_with ParseValue n j = Json.ParseObject_with ParseValue' n' j.
Proof.
  intros Ln Ln' LF. unfold Json.ParseObject_with.
  destruct (JsonToken.is_a JsonTokenType.ObjectStart
              (Json.CurrentToken (Json.Consume j))) eqn:St; cbn [negb];
    [| reflexivity].
  pose proof (Consume_less j _ St eq_refl) as Ls.
  pose proof (Peek_pending (Json.Consume j)) as Pk.
  destruct (JsonToken.is_a JsonTokenType.ObjectEnd _); [reflexivity |].
  apply ParseObject_loop_room; lia.
Qed.
End Room.

Lemma halts_less {A : Type} (F F' : nat) (f : Json.t -> Json.outcome A) :
  F' <= F -> halts F f -> halts F' f.
Proof. intros L H j Lj. apply H. lia. Qed.

Lemma ParseValue_room (fuel : nat) :
  forall (fuel' : nat) (j : Json.t),
    pending (Json.Tokenizer j) < fuel -> pending (Json.Tokenizer j) < fuel' ->
    Json.ParseValue fuel j = Json.ParseValue fuel' j.
Proof.
  induction fuel as [| fuel IH]; intros fuel' j L L'; [lia |].
  destruct fuel' as [| fuel']; [lia |].
  rule_step. pose proof (Peek_pending j) as Pk.
  set (j0 := Json.Peek j) in *.
  assert (HH : halts (Nat.min fuel fuel') (Json.ParseValue fuel))
    by (apply (halts_less fuel); [lia | apply ParseValue_halts]).
  assert (HS : forall j1, pending (Json.Tokenizer j1) < Nat.min fuel fuel' ->
                          Json.ParseValue fuel j1 = Json.ParseValue fuel' j1)
    by (intros j1 L1; apply IH; lia).
  destruct (JsonToken.Type_ (Json.CurrentToken j0)); try reflexivity.
  - rewrite (ParseObject_with_room _ _ _ HH HS fuel fuel' j0); [reflexivity | lia ..].
  - rewrite (ParseArray_with_room _ _ _ HH HS fuel fuel' j0); [reflexivity | lia ..].
Qed.

(** X2.  No input needs more nested calls than it has characters.  With
    room for more nested calls of the parse rules than the input has
    characters, the parse ends on every input: it returns, with or without
    a recorded error, or it lets through an exception of a number
    conversion, [std::invalid_argument] or [std::out_of_range]; every
    round of a loop and every nested value has consumed a token of at
    least one character.  More room changes nothing: the outcome is the
    one of [Parse].  Of a run with less room, on a stack that the nesting
    of the input overflows, nothing is said. *)
Theorem Parse_total (Input : string) (j : Json.t) (room : nat)
    (HRoom : size Input < room) :
  let j0 :=
    Json.make (JsonTokenizer.Init Input) (Json.CurrentToken j) None
      (Json.RootObject j) in
  (exists Root j',
     Json.ParseObject room j0 = Json.Returns Root j'
     /\ Json.Parse Input j = Json.Returns tt (Json.with_RootObject j' Root))
  \/ (exists e,
        Json.ParseObject room j0 = Json.Throws e
        /\ Json.Parse Input j = Json.Throws e
        /\ (e = invalid_argument \/ e = out_of_range)).
Proof.
  cbn zeta. unfold Json.Parse, Json.ParseObject.
  set (j0 := Json.make (JsonTokenizer.Init Input) _ _ _).
  assert (P0 : pending (Json.Tokenizer j0) = size Input).
  { unfold pending, j0, remaining. cbn. unfold size. lia. }
  assert (HH : halts (S (size Input)) (Json.ParseValue room))
    by (apply (halts_less room); [lia | apply ParseValue_halts]).
  assert (HS : forall j1, pending (Json.Tokenizer j1) < S (size Input) ->
                 Json.ParseValue room j1 = Json.ParseValue (S (size Input)) j1)
    by (intros j1 L1; apply ParseValue_room; lia).
  rewrite <- (ParseObject_with_room _ _ _ HH HS room (S (size Input)) j0)
    by lia.
  pose proof (ParseObject_with_halts _ _ (ParseValue_halts room) room j0
                ltac:(lia) ltac:(lia)) as H.
  destruct (Json.ParseObject_with _ _ j0) as [r j1 | e |]; cbn [Json.bind].
  - left. exists r, j1. split; reflexivity.
  - right. exists e. split; [reflexivity |]. split; [reflexivity |].
    destruct e; [discriminate | right; reflexivity | left; reflexivity].
  - contradiction.
Qed.

Lemma Parse_total_witness :
  (exists Root j',
     Json.ParseObject 100
       (Json.make (JsonTokenizer.Init sample_text)
          (Json.CurrentToken Json.new) None (Json.RootObject Json.new))
     = Json.Returns Root j'
     /\ Json.Parse sample_text Json.new
        = Json.Returns tt (Json.with_RootObject j' Root))
  \/ (exists e,
        Json.ParseObject 100
          (Json.make (JsonTokenizer.Init sample_text)
             (Json.CurrentToken Json.new) None (Json.RootObject Json.new))
        = Json.Throws e
        /\ Json.Parse sample_text Json.new = Json.Throws e
        /\ (e = invalid_argument \/ e = out_of_range)).
Proof.
  apply (Parse_total sample_text Json.new 100). vm_compute. lia.
Defined.

(** ** What a parse leaves *)

Lemma stoll_in_int64 (str : string) (n : Z) :
  stoll str = Ok n -> in_int64 n = true.
Proof.
  unfold stoll. destruct (read_sign (skip_space str)) as [neg s].
  destruct (read_digits s 0%Z 0) as [[v count] r].
  destruct count; [discriminate |].
  unfold in_int64.
  destruct (_ && _)%bool eqn:E; [| discriminate].
  intros [= <-]. exact E.
Qed.

Lemma stod_finite (str : string) (d : double) :
  stod str = Ok d -> finite d = true.
Proof.
  unfold stod. destruct (read_sign (skip_space str)) as [neg s].
  destruct (read_digits s 0%Z 0) as [[ip n1] s1].
  destruct (match s1 with String "." r => read_digits r ip 0 | _ => (ip, 0, s1) end)
    as [[m n2] s2].
  destruct (n1 + n2); [discriminate |].
  destruct m as [| p | p]; try (intros [= <-]; reflexivity).
  destruct (round_decimal neg p _) eqn:R; try discriminate.
  destruct (is_subnormal _ && _); [discriminate | intros [= <-]; reflexivity].
Qed.

Lemma eqb_sym_false (a b : string) : String.eqb a b = false -> String.eqb b a = false.
Proof. rewrite (String.eqb_sym a b). exact (fun H => H). Qed.

Lemma unique_keys_app (m : JsonObject) (Key : string) (Value : JsonValue) :
  unique_keys m = true -> unordered_map.find Key m = None ->
  unique_keys (m ++ [(Key, Value)])%list = true.
Proof.
  induction m as [| [k v] r IH]; intros U F; [reflexivity |].
  cbn [unique_keys unordered_map.find app] in *.
  destruct (String.eqb k Key) eqn:E; [discriminate |].
  rewrite find_app.
  destruct (unordered_map.find k r); [discriminate |].
  cbn [unordered_map.find]. rewrite (eqb_sym_false _ _ E).
  apply IH; assumption.
Qed.

(** [emplace] keeps the keys of the map distinct. *)
Lemma emplace_unique (m : JsonObject) (Key : string) (Value : JsonValue) :
  unique_keys m = true ->
  unique_keys (unordered_map.emplace Key Value m) = true.
Proof.
  intros U. unfold unordered_map.emplace.
  destruct (unordered_map.find Key m) eqn:F; [exact U |].
  apply unique_keys_app; assumption.
Qed.

Lemma emplace_forallb (P : string * JsonValue -> bool) (m : JsonObject)
    (Key : string) (Value : JsonValue) :
  forallb P m = true -> P (Key, Value) = true ->
  forallb P (unordered_map.emplace Key Value m) = true.
Proof.
  intros A B. unfold unordered_map.emplace.
  destruct (unordered_map.find Key m); [exact A |].
  rewrite forallb_app, A. cbn [forallb]. rewrite B. reflexivity.
Qed.

Section WellFormed.
Variable ParseValue : Json.t -> Json.outcome JsonValue.
Hypothesis ParseValue_well_formed : parses_well_formed ParseValue.

Lemma ParseArray_loop_well_formed (n : nat) :
  forall (Values : JsonArray) (j : Json.t) (a : JsonArray) (j' : Json.t),
    Json.ParseArray_loop ParseValue n Values j = Json.Returns (Some a) j' ->
    forallb well_formed Values = true ->
    forallb well_formed a = true.
Proof.
  induction n as [| n IH]; intros Values j a j'; rule_step; [discriminate |].
  destruct (ParseValue j) as [v j1 | |] eqn:PV; rule_step; try discriminate.
  destruct (Json.HasError j1) eqn:E; [discriminate |].
  destruct (negb _ && negb _).
  { unfold Json.ThrowParserError. discriminate. }
  assert (W : forallb well_formed Values = true ->
              forallb well_formed (Values ++ [v])%list = true).
  { intros A. rewrite forallb_app, A. cbn [forallb].
    rewrite (ParseValue_well_formed _ _ _ PV E). reflexivity. }
  destruct (JsonToken.is_a JsonTokenType.ArrayEnd _).
  - intros [= <- <-]. exact W.
  - intros H A. exact (IH _ _ _ _ H (W A)).
Qed.

Lemma ParseArray_with_well_formed (n : nat) (j : Json.t) (a : JsonArray)
    (j' : Json.t) :
  Json.ParseArray_with ParseValue n j = Json.Returns (Some a) j' ->
  forallb well_formed a = true.
Proof.
  unfold Json.ParseArray_with.
  destruct (negb _); [unfold Json.ThrowParserError; discriminate |].
  destruct (JsonToken.is_a JsonTokenType.ArrayEnd _).
  - intros [= <- <-]. reflexivity.
  - intros H. exact (ParseArray_loop_well_formed _ _ _ _ _ H eq_refl).
Qed.

Lemma ParseArray_loop_null_error (n : nat) (Values : JsonArray) (j j' : Json.t) :
  Json.ParseArray_loop ParseValue n Values j = Json.Returns None j' ->
  Json.HasError j' = true.
Proof.
  revert Values j. induction n as [| n IH]; intros Values j; rule_step;
    [discriminate |].
  destruct (ParseValue _) as [Value j1 | |]; rule_step; try discriminate.
  destruct (Json.HasError j1) eqn:E.
  { intros H. apply Returns_inj in H. destruct H as [_ <-]. exact E. }
  destruct (negb _ && negb _).
  { intros H. apply (ThrowParserError_sets _ _ _ _ _ H). }
  destruct (JsonToken.is_a JsonTokenType.ArrayEnd _); [discriminate |].
  apply IH.
Qed.

Lemma ParseArray_with_null_error (n : nat) (j j' : Json.t) :
  Json.ParseArray_with ParseValue n j = Json.Returns None j' ->
  Json.HasError j' = true.
Proof.
  unfold Json.ParseArray_with.
  destruct (negb _).
  { intros H. apply (ThrowParserError_sets _ _ _ _ _ H). }
  destruct (JsonToken.is_a JsonTokenType.ArrayEnd _); [discriminate |].
  apply ParseArray_loop_null_error.
Qed.

Lemma ParseObject_loop_well_formed (n : nat) :
  forall (Result : JsonObject) (j : Json.t) (o : JsonObject) (j' : Json.t),
    Json.ParseObject_loop ParseValue n Result j = Json.Returns (Some o) j' ->
    forallb (fun kv => well_formed (snd kv)) Result = true ->
    unique_keys Result = true ->
    forallb (fun kv => well_formed (snd kv)) o = true /\ unique_keys o = true.
Proof.
  induction n as [| n IH]; intros Result j o j'; rule_step; [discriminate |].
  destruct (negb (JsonToken.is_a JsonTokenType.String _));
    [unfold Json.ThrowParserError; discriminate |].
  destruct (negb (JsonToken.is_a JsonTokenType.Colon _));
    [unfold Json.ThrowParserError; discriminate |].
  destruct (ParseValue _) as [v j1 | |] eqn:PV; rule_step; try discriminate.
  destruct (Json.HasError j1) eqn:E; [discriminate |].
  destruct (negb _ && negb _);
    [unfold Json.ThrowParserError; discriminate |].
  pose proof (ParseValue_well_formed _ _ _ PV E) as Wv.
  destruct (JsonToken.is_a JsonTokenType.ObjectEnd _).
  - intros [= <- <-] A U. split.
    + apply emplace_forallb; assumption.
    + apply emplace_unique; assumption.
  - intros H A U. apply (IH _ _ _ _ H).
    + apply emplace_forallb; assumption.
    + apply emplace_unique; assumption.
Qed.

Lemma ParseObject_with_well_formed (n : nat) (j : Json.t) (o : JsonObject)
    (j' : Json.t) :
  Json.ParseObject_with ParseValue n j = Json.Returns (Some o) j' ->
  well_formed (VObject (Some o)) = true.
Proof.
  unfold Json.ParseObject_with.
  destruct (negb _); [unfold Json.ThrowParserError; discriminate |].
  destruct (JsonToken.is_a JsonTokenType.ObjectEnd _).
  - intros [= <- <-]. reflexivity.
  - intros H.
    destruct (ParseObject_loop_well_formed _ _ _ _ _ H eq_refl eq_refl) as [A U].
    cbn [well_formed]. rewrite A, U. reflexivity.
Qed.
End WellFormed.

Lemma ParseValue_well_formed (fuel : nat) :
  parses_well_formed (Json.ParseValue fuel).
Proof.
  induction fuel as [| fuel IH]; intros j v j'; rule_step; [discriminate |].
  destruct (JsonToken.Type_ (Json.CurrentToken (Json.Peek j)));
    try match goal with
    | |- Json.ThrowParserError _ _ _ = _ -> _ =>
        intros H E; apply ThrowParserError_sets in H; destruct H as [_ H];
        rewrite H in E; discriminate
    | |- Json.Returns _ _ = _ -> _ => returned; intros _; reflexivity
    end.
  - destruct (Json.ParseObject_with _ _ _) as [p j1 | |] eqn:P; rule_step;
      try discriminate.
    returned. intros E. destruct p as [o |].
    + exact (ParseObject_with_well_formed _ IH _ _ _ _ P).
    + rewrite (ParseObject_with_null_error _ _ _ _ P) in E. discriminate.
  - destruct (Json.ParseArray_with _ _ _) as [p j1 | |] eqn:P; rule_step;
      try discriminate.
    returned. intros E. destruct p as [a |].
    + exact (ParseArray_with_well_formed _ IH _ _ _ _ P).
    + rewrite (ParseArray_with_null_error _ _ _ _ P) in E. discriminate.
  - unfold Json.convert. destruct (Json.IsFloat _).
    + destruct (stod _) eqn:Cv; [| discriminate].
      returned. intros _. exact (stod_finite _ _ Cv).
    + destruct (stoll _) eqn:Cv; [| discriminate].
      returned. intros _. exact (stoll_in_int64 _ _ Cv).
Qed.

Lemma Parse_quiet_root (Input : string) (j j' : Json.t) :
  Json.Parse Input j = Json.Returns tt j' ->
  Json.HasError j' = false ->
  exists Root,
    Json.RootObject j' = Some Root
    /\ well_formed (VObject (Some Root)) = true.
Proof.
  intros HParse HQuiet.
  revert HParse. unfold Json.Parse, Json.ParseObject.
  destruct (Json.ParseObject_with _ _ _) as [p j1 | |] eqn:P; cbn [Json.bind];
    try discriminate.
  intros H. apply Returns_inj in H. destruct H as [_ <-].
  rewrite HasError_reroot in HQuiet.
  destruct p as [o |].
  - exists o. split; [reflexivity |].
    exact (ParseObject_with_well_formed _ (ParseValue_well_formed _) _ _ _ _ P).
  - rewrite (ParseObject_with_null_error _ _ _ _ P) in HQuiet. discriminate.
Qed.

(** X3.  When [Parse] returns without an error the document has a root
    object, and the tree under it is well formed: it holds no [Undefined]
    and no empty container pointer, every integer is an [int64_t], every
    double is a number, and no object has a key twice. *)
Theorem Parse_well_formed (Input : string) (j j' : Json.t)
    (HParse : Json.Parse Input j = Json.Returns tt j')
    (HQuiet : Json.HasError j' = false) :
  exists Root,
    Json.RootObject j' = Some Root
    /\ well_formed (VObject (Some Root)) = true.
Proof. exact (Parse_quiet_root Input j j' HParse HQuiet). Qed.

Lemma Parse_well_formed_witness :
  exists Root,
    Json.RootObject
      (match Json.Parse sample_text Json.new with
       | Json.Returns _ j' => j'
       | _ => Json.new
       end) = Some Root
    /\ well_formed (VObject (Some Root)) = true.
Proof.
  apply (Parse_well_formed sample_text Json.new); vm_compute; reflexivity.
Defined.

(** ** The first token *)

Lemma Consume_Init (Input : string) (tok0 : JsonToken.t)
    (r : option JsonObject) :
  let j0 := Json.make (JsonTokenizer.Init Input) tok0 None r in
  let tok := Json.CurrentToken (Json.Consume j0) in
  (JsonToken.Type_ tok, JsonToken.Value tok) = fst (lex Input)
  /\ JsonTokenizer.Input (Json.Tokenizer (Json.Consume j0)) = Input
  /\ Json.RootObject (Json.Consume j0) = r
  /\ Json.ErrorMessage (Json.Consume j0)
     = if JsonToken.is_a JsonTokenType.Invalid tok
       then Some (Json.format_error tok (Json.ErrorLocation Input tok)
                    "Invalid token")
       else None.
Proof.
  cbn zeta. destruct (lex Input) as [[ty v] k] eqn:L.
  destruct (GetToken_Reads (JsonTokenizer.Init Input) Input ty v k
              (Reads_Init Input) L) as (tok & tz' & G & Ty & Va & _ & In).
  unfold Json.Consume, Json.UpdateToken.
  cbn [Json.Tokenizer Json.ErrorMessage Json.RootObject]. rewrite G.
  cbn [Json.CurrentToken].
  destruct (JsonToken.is_a JsonTokenType.Invalid tok) eqn:I.
  - unfold Json.ThrowError, Json.HasError, Json.with_ErrorMessage,
      JsonTokenizer.GetInput.
    cbn [Json.ErrorMessage Json.Tokenizer Json.CurrentToken Json.RootObject fst].
    rewrite I, Ty, Va, In. repeat split.
  - cbn [Json.ErrorMessage Json.Tokenizer Json.CurrentToken Json.RootObject fst].
    rewrite I, Ty, Va, In. repeat split.
Qed.

(** X4.  A text whose first token is not an opening brace (an empty or
    blank text, an array, a scalar, a character no token starts with) is
    no document: [Parse] returns with an error recorded and no root
    object.  The reason reported is "Invalid token" when no token starts
    at the first character and "Expected '{'" otherwise. *)
Theorem Parse_expects_object (Input : string) (j : Json.t)
    (H : JsonTokenType.eqb (fst (fst (lex Input))) JsonTokenType.ObjectStart
         = false) :
  exists j',
    Json.Parse Input j = Json.Returns tt j'
    /\ Json.RootObject j' = None
    /\ Json.HasError j' = true
    /\ JsonToken.Type_ (Json.CurrentToken j') = fst (fst (lex Input))
    /\ Json.GetError j'
       = Json.format_error (Json.CurrentToken j')
           (Json.ErrorLocation Input (Json.CurrentToken j'))
           (if JsonToken.is_a JsonTokenType.Invalid (Json.CurrentToken j')
            then "Invalid token" else "Expected '{'").
Proof.
  unfold Json.Parse, Json.ParseObject, Json.ParseObject_with.
  destruct (Consume_Init Input (Json.CurrentToken j) (Json.RootObject j))
    as (TV & In & _ & Er).
  cbn zeta in TV, In, Er.
  set (j1 := Json.Consume _) in *.
  assert (Ty : JsonToken.Type_ (Json.CurrentToken j1) = fst (fst (lex Input)))
    by (rewrite <- TV; reflexivity).
  rewrite is_a_eqb, Ty, H. cbn [negb Json.bind Json.ThrowParserError].
  eexists. split; [reflexivity |].
  split; [reflexivity |].
  unfold Json.GetError, Json.HasError, Json.with_RootObject.
  cbn [Json.ErrorMessage Json.CurrentToken].
  destruct (ThrowError_fields (Json.CurrentToken j1) "Expected '{'" j1)
    as (_ & -> & _).
  unfold Json.ThrowError, Json.HasError, JsonTokenizer.GetInput.
  rewrite Er, In.
  destruct (JsonToken.is_a JsonTokenType.Invalid (Json.CurrentToken j1));
    cbn [Json.ErrorMessage Json.with_ErrorMessage]; rewrite ?Er;
    repeat split; exact Ty.
Qed.

Lemma Parse_expects_object_witness :
  exists j',
    Json.Parse "" Json.new = Json.Returns tt j'
    /\ Json.RootObject j' = None
    /\ Json.HasError j' = true
    /\ JsonToken.Type_ (Json.CurrentToken j') = fst (fst (lex ""))
    /\ Json.GetError j'
       = Json.format_error (Json.CurrentToken j')
           (Json.ErrorLocation "" (Json.CurrentToken j'))
           (if JsonToken.is_a JsonTokenType.Invalid (Json.CurrentToken j')
            then "Invalid token" else "Expected '{'").
Proof. apply (Parse_expects_object "" Json.new). reflexivity. Defined.

(** ** Integers that do not fit *)

Lemma stoll_overflow (n : Z) :
  in_int64 n = false -> stoll (to_string_int64 n) = Raise out_of_range.
Proof.
  unfold in_int64. intros B.
  destruct n as [| p | p].
  - discriminate.
  - rewrite to_string_int64_pos. unfold stoll.
    destruct (stoll_digits p) as (S & G & count & NZ & RD). cbn zeta in *.
    rewrite S, G. cbv beta iota. rewrite RD. cbv beta iota.
    destruct count; [contradiction |]. rewrite B. reflexivity.
  - rewrite to_string_int64_neg. unfold stoll.
    destruct (stoll_digits p) as (_ & _ & count & NZ & RD). cbn zeta in *.
    change (skip_space (String "-" ?x)) with (String "-" x).
    cbn [read_sign]. rewrite RD. cbv beta iota.
    destruct count; [contradiction |].
    change (- Zpos p)%Z with (Zneg p). rewrite B. reflexivity.
Qed.

Lemma ParseValue_overflow (n : Z) (fuel : nat) (j : Json.t) (k : string) :
  in_int64 n = false ->
  Reads (Json.Tokenizer j) (to_string_int64 n ++ k) ->
  stops k = true ->
  Json.ParseValue (S fuel) j = Json.Throws out_of_range.
Proof.
  intros B R K.
  destruct (to_string_int64_text n) as (T0 & T1 & T2).
  pose proof (lex_number _ _ T0 K) as L.
  destruct (Peek_Reads j _ _ _ _ R L ltac:(discriminate)) as (Ty & _ & R1 & _).
  destruct (Consume_Reads _ _ _ _ _ R1 L ltac:(discriminate)) as (_ & Va & _ & _).
  rule_step. rewrite Ty. cbv iota. unfold Json.IsFloat. rewrite Va, T1, T2.
  cbn [orb]. cbv iota. rewrite (stoll_overflow n B). reflexivity.
Qed.

Lemma quoted_append (s k : string) :
  quoted s ++ k = String quote (s ++ String quote k).
Proof.
  unfold quoted. cbn [append]. rewrite append_assoc. reflexivity.
Qed.

(** X5.  An integer literal outside [int64_t] is not reported through the
    error slot: [Parse] lets [std::out_of_range] escape.  Here for a
    document with one member, whatever follows it. *)
Theorem integer_overflow_throws (Key : string) (n : Z) (rest : string)
    (j : Json.t)
    (HKey : plain Key = true)
    (HRange : in_int64 n = false)
    (HRest : stops rest = true) :
  Json.Parse ("{" ++ quoted Key ++ ":" ++ to_string_int64 n ++ rest) j
  = Json.Throws out_of_range.
Proof.
  unfold Json.Parse, Json.ParseObject, Json.ParseObject_with.
  set (Input := "{" ++ _).
  set (j0 := Json.make _ _ _ _).
  set (PV := Json.ParseValue (S (size Input))).
  assert (R0 : Reads (Json.Tokenizer j0) Input) by apply Reads_Init.
  unfold Input in R0. cbn [append] in R0.
  destruct (Consume_Reads j0 _ JsonTokenType.ObjectStart "{" _ R0 eq_refl
              ltac:(discriminate)) as (Ty1 & _ & R1 & _).
  token_is Ty1.
  rewrite quoted_append in R1.
  pose proof (lex_string Key (":" ++ to_string_int64 n ++ rest) HKey) as LK.
  destruct (Peek_Reads _ _ _ _ _ R1 LK ltac:(discriminate))
    as (Ty2 & _ & R2 & _).
  token_is Ty2. rule_step. token_is Ty2.
  destruct (Consume_Reads _ _ _ _ _ R2 LK ltac:(discriminate))
    as (_ & _ & R3 & _).
  cbn [append] in R3.
  destruct (Consume_Reads _ _ JsonTokenType.Colon ":" _ R3 eq_refl
              ltac:(discriminate)) as (Ty4 & _ & R4 & _).
  token_is Ty4.
  unfold PV. rewrite (ParseValue_overflow n _ _ rest HRange R4 HRest).
  reflexivity.
Qed.

Lemma integer_overflow_throws_witness :
  Json.Parse ("{" ++ quoted "a" ++ ":" ++ to_string_int64 (2 ^ 63) ++ "}")
    Json.new
  = Json.Throws out_of_range.
Proof.
  apply (integer_overflow_throws "a" (2 ^ 63) "}" Json.new);
    vm_compute; reflexivity.
Defined.

(** ** The tokenizer *)

Lemma fill_cached (tz : JsonTokenizer.t) :
  JsonToken.is_a JsonTokenType.Invalid (JsonTokenizer.CurrentToken tz) = false ->
  JsonTokenizer.fill tz = tz.
Proof. intros H. unfold JsonTokenizer.fill. rewrite H. reflexivity. Qed.

(** X6.  Looking ahead is free: when [PeekToken] shows a token, a second
    [PeekToken] shows the same token and changes nothing, and [GetToken]
    hands out that token and leaves the tokenizer as it would have
    without the look ahead. *)
Theorem PeekToken_then_GetToken (tz : JsonTokenizer.t)
    (H : JsonToken.is_a JsonTokenType.Invalid
           (fst (JsonTokenizer.PeekToken tz)) = false) :
  JsonTokenizer.PeekToken (snd (JsonTokenizer.PeekToken tz))
  = JsonTokenizer.PeekToken tz
  /\ JsonTokenizer.GetToken (snd (JsonTokenizer.PeekToken tz))
     = JsonTokenizer.GetToken tz
  /\ fst (JsonTokenizer.GetToken tz) = fst (JsonTokenizer.PeekToken tz).
Proof.
  unfold JsonTokenizer.PeekToken, JsonTokenizer.GetToken in *.
  cbn [fst snd] in *. rewrite (fill_cached _ H).
  repeat split.
  destruct (JsonTokenizer.NextToken (JsonTokenizer.fill tz)). reflexivity.
Qed.

Lemma PeekToken_then_GetToken_witness :
  fst (JsonTokenizer.GetToken (JsonTokenizer.Init "[1]"))
  = fst (JsonTokenizer.PeekToken (JsonTokenizer.Init "[1]")).
Proof.
  apply (PeekToken_then_GetToken (JsonTokenizer.Init "[1]")). reflexivity.
Defined.

(** X7.  White space before a token changes nothing but positions: from
    a text and from the same text behind any run of white space,
    [NextToken] makes a token of the same type and value and leaves the
    same text unread. *)
Theorem NextToken_skips_blank (tz tz0 : JsonTokenizer.t) (w : string)
    (HBlank : blank w = true)
    (HText : remaining tz = w ++ remaining tz0) :
  JsonToken.Type_ (fst (JsonTokenizer.NextToken tz))
  = JsonToken.Type_ (fst (JsonTokenizer.NextToken tz0))
  /\ JsonToken.Value (fst (JsonTokenizer.NextToken tz))
     = JsonToken.Value (fst (JsonTokenizer.NextToken tz0))
  /\ remaining (snd (JsonTokenizer.NextToken tz))
     = remaining (snd (JsonTokenizer.NextToken tz0)).
Proof.
  destruct (NextToken_lex tz) as (tok & tz' & -> & L & _).
  destruct (NextToken_lex tz0) as (tok0 & tz0' & -> & L0 & _).
  cbn [fst snd]. rewrite HText, (lex_blank _ _ HBlank), <- L0 in L.
  injection L as -> -> ->. repeat split.
Qed.

Lemma NextToken_skips_blank_witness :
  JsonToken.Value (fst (JsonTokenizer.NextToken (JsonTokenizer.Init "   true]")))
  = JsonToken.Value (fst (JsonTokenizer.NextToken (JsonTokenizer.Init "true]"))).
Proof.
  apply (NextToken_skips_blank (JsonTokenizer.Init "   true]")
           (JsonTokenizer.Init "true]") "   "); reflexivity.
Defined.

Lemma scan_string_open (s : string) :
  plain s = true -> scan_string s "" = (s, "").
Proof.
  intros P. rewrite <- (append_nil_r s) at 1.
  rewrite (scan_string_plain s "" "" P). reflexivity.
Qed.

Lemma lex_quote (t : string) :
  lex (String quote t)
  = (JsonTokenType.String, fst (scan_string t ""), snd (scan_string t "")).
Proof.
  change (lex (String quote t))
    with (let (v, r') := scan_string t "" in (JsonTokenType.String, v, r')).
  destruct (scan_string t ""). reflexivity.
Qed.

(** X8.  A string that is never closed is a string all the same: the
    token takes everything up to the end of the input, and nothing marks
    the missing quote. *)
Theorem unterminated_string_is_a_token (tz : JsonTokenizer.t) (s : string)
    (HPlain : plain s = true)
    (HText : remaining tz = String quote s) :
  exists tok tz',
    JsonTokenizer.NextToken tz = (tok, tz')
    /\ JsonToken.Type_ tok = JsonTokenType.String
    /\ JsonToken.Value tok = s
    /\ remaining tz' = "".
Proof.
  destruct (NextToken_lex tz) as (tok & tz' & N & L & _).
  exists tok, tz'. split; [exact N |].
  rewrite HText, lex_quote, (scan_string_open s HPlain) in L.
  injection L as -> -> ->. repeat split.
Qed.

Lemma unterminated_string_is_a_token_witness :
  exists tok tz',
    JsonTokenizer.NextToken (JsonTokenizer.Init (String quote "abc"))
    = (tok, tz')
    /\ JsonToken.Type_ tok = JsonTokenType.String
    /\ JsonToken.Value tok = "abc"
    /\ remaining tz' = "".
Proof.
  apply (unterminated_string_is_a_token
           (JsonTokenizer.Init (String quote "abc")) "abc"); reflexivity.
Defined.

(** X9.  A number token is the longest run of digits, signs, points and
    the letters e and E, in any order and any number: the tokenizer checks
    nothing else about it. *)
Theorem number_token_is_longest_run (tz : JsonTokenizer.t) (t k : string)
    (HRun : number_text t = true)
    (HStop : stops k = true)
    (HText : remaining tz = t ++ k) :
  exists tok tz',
    JsonTokenizer.NextToken tz = (tok, tz')
    /\ JsonToken.Type_ tok = JsonTokenType.Number
    /\ JsonToken.Value tok = t
    /\ remaining tz' = k.
Proof.
  destruct (NextToken_lex tz) as (tok & tz' & N & L & _).
  exists tok, tz'. split; [exact N |].
  rewrite HText, (lex_number t k HRun HStop) in L.
  injection L as -> -> ->. repeat split.
Qed.

Lemma number_token_is_longest_run_witness :
  exists tok tz',
    JsonTokenizer.NextToken (JsonTokenizer.Init "+-.eE7,") = (tok, tz')
    /\ JsonToken.Type_ tok = JsonTokenType.Number
    /\ JsonToken.Value tok = "+-.eE7"
    /\ remaining tz' = ",".
Proof.
  apply (number_token_is_longest_run (JsonTokenizer.Init "+-.eE7,")
           "+-.eE7" ","); reflexivity.
Defined.

(** X10.  The three keywords are recognised by their letters alone: what
    follows them is not looked at, so that a keyword run into other text
    is a keyword token and the other text is read next. *)
Theorem keyword_is_a_prefix (tz : JsonTokenizer.t) (word k : string)
    (HWord : String.eqb word "null" || String.eqb word "true"
             || String.eqb word "false" = true)
    (HText : remaining tz = word ++ k) :
  exists tok tz',
    JsonTokenizer.NextToken tz = (tok, tz')
    /\ JsonToken.Type_ tok
       = (if String.eqb word "null" then JsonTokenType.Null
          else JsonTokenType.Boolean)
    /\ JsonToken.Value tok = word
    /\ remaining tz' = k.
Proof.
  destruct (NextToken_lex tz) as (tok & tz' & N & L & _).
  exists tok, tz'. split; [exact N |].
  rewrite HText in L.
  apply orb_prop in HWord as [HWord | HWord];
    [apply orb_prop in HWord as [HWord | HWord] |];
    apply String.eqb_eq in HWord; subst word;
    [rewrite lex_null in L | rewrite lex_true in L | rewrite lex_false in L];
    injection L as -> -> ->; repeat split.
Qed.

Lemma keyword_is_a_prefix_witness :
  exists tok tz',
    JsonTokenizer.NextToken (JsonTokenizer.Init "nullx") = (tok, tz')
    /\ JsonToken.Type_ tok = JsonTokenType.Null
    /\ JsonToken.Value tok = "null"
    /\ remaining tz' = "x".
Proof.
  apply (keyword_is_a_prefix (JsonTokenizer.Init "nullx") "null" "x");
    reflexivity.
Defined.

(** ** Initializer lists *)

Lemma find_emplace (Key k : string) (v : JsonValue) (m : JsonObject) :
  unordered_map.find Key (unordered_map.emplace k v m)
  = match unordered_map.find Key m with
    | Some x => Some x
    | None => if String.eqb k Key then Some v else None
    end.
Proof.
  unfold unordered_map.emplace.
  destruct (unordered_map.find k m) as [x |] eqn:F.
  - destruct (unordered_map.find Key m) eqn:G; [reflexivity |].
    destruct (String.eqb k Key) eqn:E; [| reflexivity].
    apply String.eqb_eq in E. subst k. rewrite F in G. discriminate.
  - rewrite find_app. cbn [unordered_map.find]. reflexivity.
Qed.

Lemma fill_object_find (List : list JsonInitValue.t) :
  forall (Obj : JsonObject),
    unique_keys Obj = true ->
    unique_keys (JsonInitValue.fill_object List Obj) = true
    /\ forall Key,
         unordered_map.find Key (JsonInitValue.fill_object List Obj)
         = match unordered_map.find Key Obj with
           | Some x => Some x
           | None => first_keyed Key List
           end.
Proof.
  induction List as [| InitValue rest IH]; intros Obj U;
    cbn [JsonInitValue.fill_object first_keyed].
  - split; [exact U |]. intros Key. destruct (unordered_map.find Key Obj);
      reflexivity.
  - destruct (JsonInitValue.Key InitValue) as [k |]; [| exact (IH Obj U)].
    destruct (IH _ (emplace_unique Obj k (JsonInitValue.Value InitValue) U))
      as [U' F'].
    split; [exact U' |]. intros Key. rewrite F', find_emplace.
    destruct (unordered_map.find Key Obj); [reflexivity |].
    destruct (String.eqb k Key); reflexivity.
Qed.

Lemma fill_array_values (List : list JsonInitValue.t) :
  forall (Array : JsonArray),
    JsonInitValue.fill_array List Array = (Array ++ unkeyed_values List)%list.
Proof.
  induction List as [| InitValue rest IH]; intros Array;
    cbn [JsonInitValue.fill_array].
  - unfold unkeyed_values. cbn. rewrite app_nil_r. reflexivity.
  - unfold unkeyed_values, JsonInitValue.has_key in *. cbn [filter].
    destruct (JsonInitValue.Key InitValue); cbn [negb map].
    + apply IH.
    + rewrite IH, <- app_assoc. reflexivity.
Qed.

(** X11.  A list whose first entry has a key makes an object: the entries
    without a key are dropped, and of the entries with the same key the
    first one gives the value.  The object has no key twice.  An array
    given such a list keeps its values. *)
Theorem InitFromList_object (List : list JsonInitValue.t) (bObjectOnly : bool)
    (H : bIsObject List = true) :
  exists Obj,
    JsonInitValue.InitFromList List bObjectOnly = VObject (Some Obj)
    /\ unique_keys Obj = true
    /\ (forall Key, unordered_map.find Key Obj = first_keyed Key List)
    /\ JsonObject.InitFromList List [] = Obj
    /\ (forall a, JsonArray.InitFromList List a = a).
Proof.
  destruct List as [| first rest]; [discriminate |]. cbn [bIsObject] in H.
  destruct (fill_object_find (first :: rest) [] eq_refl) as [U F].
  exists (JsonInitValue.fill_object (first :: rest) []).
  unfold JsonObject.InitFromList, JsonArray.InitFromList,
    JsonInitValue.InitFromList.
  rewrite H.
  repeat split; [exact U | exact F].
Qed.

Lemma InitFromList_object_witness :
  exists Obj,
    JsonInitValue.InitFromList sample_list false = VObject (Some Obj)
    /\ unique_keys Obj = true
    /\ (forall Key, unordered_map.find Key Obj = first_keyed Key sample_list)
    /\ JsonObject.InitFromList sample_list [] = Obj
    /\ (forall a, JsonArray.InitFromList sample_list a = a).
Proof. apply (InitFromList_object sample_list false). reflexivity. Defined.

(** X12.  A list whose first entry has no key makes an array of the
    values of the entries without a key, in their order; the entries with
    a key are dropped.  Where only an object will do, such a list makes
    nothing: [Undefined]. *)
Theorem InitFromList_array (first : JsonInitValue.t)
    (rest : list JsonInitValue.t)
    (H : JsonInitValue.has_key first = false) :
  JsonInitValue.InitFromList (first :: rest) false
  = VArray (Some (JsonInitValue.Value first :: unkeyed_values rest))
  /\ JsonInitValue.InitFromList (first :: rest) true = VUndefined
  /\ JsonArray.InitFromList (first :: rest) []
     = JsonInitValue.Value first :: unkeyed_values rest.
Proof.
  assert (E : JsonInitValue.fill_array (first :: rest) []
              = JsonInitValue.Value first :: unkeyed_values rest).
  { rewrite fill_array_values. unfold unkeyed_values. cbn [filter app].
    rewrite H. reflexivity. }
  unfold JsonArray.InitFromList, JsonInitValue.InitFromList.
  rewrite H, E. repeat split.
Qed.

Lemma InitFromList_array_witness :
  JsonInitValue.InitFromList
    [JsonInitValue.unkeyed VNull; JsonInitValue.keyed "a" (VInt64 1);
     JsonInitValue.unkeyed (VBool true)] false
  = VArray (Some [VNull; VBool true]).
Proof.
  apply (InitFromList_array (JsonInitValue.unkeyed VNull)
           [JsonInitValue.keyed "a" (VInt64 1);
            JsonInitValue.unkeyed (VBool true)]).
  reflexivity.
Defined.

(** X13.  A list of the wrong kind is ignored without a word.  An object
    given the empty list, or a list that starts with an entry without a
    key, keeps its properties: assigning the empty list does not clear it.
    The same holds for the root object of a document, and for an array
    given the empty list. *)
Theorem InitFromList_of_wrong_kind (List : list JsonInitValue.t)
    (H : bIsObject List = false) :
  (forall o, JsonObject.InitFromList List o = o)
  /\ (forall j Root, Json.RootObject j = Some Root ->
        Json.InitFromList List j = j)
  /\ (forall a, JsonArray.InitFromList [] a = a).
Proof.
  assert (E : forall o, JsonObject.InitFromList List o = o).
  { intros o. unfold JsonObject.InitFromList, JsonInitValue.InitFromList.
    destruct List as [| first rest]; [reflexivity |].
    cbn [bIsObject] in H. rewrite H. reflexivity. }
  split; [exact E |]. split; [| reflexivity].
  intros j Root HRoot. unfold Json.InitFromList. rewrite HRoot, E.
  destruct j. cbn in HRoot. subst. reflexivity.
Qed.

Lemma InitFromList_of_wrong_kind_witness :
  JsonObject.InitFromList [] [("a", VNull)] = [("a", VNull)].
Proof. apply (InitFromList_of_wrong_kind []). reflexivity. Defined.

(** ** Reading and writing through the accessor *)

Lemma find_assign (Key k : string) (v : JsonValue) (m : JsonObject) :
  unordered_map.find k (unordered_map.assign Key v m)
  = if String.eqb Key k
    then match unordered_map.find Key m with Some _ => Some v | None => None end
    else unordered_map.find k m.
Proof.
  induction m as [| [k0 v0] r IH];
    cbn [unordered_map.assign unordered_map.find].
  - destruct (String.eqb Key k); reflexivity.
  - destruct (String.eqb k0 Key) eqn:E0; cbn [unordered_map.find].
    + apply String.eqb_eq in E0. subst k0.
      destruct (String.eqb Key k); reflexivity.
    + destruct (String.eqb k0 k) eqn:E1.
      * apply String.eqb_eq in E1. subst k0.
        rewrite (eqb_sym_false _ _ E0). reflexivity.
      * exact IH.
Qed.

Lemma find_subscript (Key k : string) (m : JsonObject) :
  unordered_map.find k (unordered_map.subscript Key m)
  = match unordered_map.find k m with
    | Some x => Some x
    | None => if String.eqb Key k then Some VUndefined else None
    end.
Proof. apply find_emplace. Qed.

Lemma load_subscript (Key : string) (m : JsonObject) :
  JsonObject.load (Property Key) (unordered_map.subscript Key m)
  = JsonObject.load (Property Key) m.
Proof.
  unfold JsonObject.load. rewrite find_subscript, String.eqb_refl.
  destruct (unordered_map.find Key m); reflexivity.
Qed.

(** What a write through [m[Key]] leaves: the value under [Key], the
    other keys as they were. *)
Lemma find_store_subscript (Key k : string) (v : JsonValue) (m : JsonObject) :
  unordered_map.find k
    (JsonObject.store (Property Key) v (unordered_map.subscript Key m))
  = if String.eqb Key k then Some v else unordered_map.find k m.
Proof.
  cbn [JsonObject.store]. rewrite find_assign, !find_subscript.
  rewrite String.eqb_refl.
  destruct (String.eqb Key k) eqn:E.
  - destruct (unordered_map.find Key m); reflexivity.
  - destruct (unordered_map.find k m); reflexivity.
Qed.

(** X14.  A plain typed read is a write when the type does not fit.  On a
    document that is not const, reading a member that is missing or holds
    another type returns the value-initialised [T] (zero, false, the
    empty string, an empty pointer) and stores it under the key: what the
    member held is lost.  The other members are untouched. *)
Theorem plain_read_resets_member (doc : Json.t) (Root : JsonObject)
    (Key : string) (T : JsonType)
    (HRoot : Json.RootObject doc = Some Root)
    (HType : HasType T (JsonObject.load (Property Key) Root) = false) :
  exists Root',
    read Key T doc = Ok (value_init T, Json.with_RootObject doc (Some Root'))
    /\ unordered_map.find Key Root' = Some (value_init T)
    /\ forall k, String.eqb Key k = false ->
                 unordered_map.find k Root' = unordered_map.find k Root.
Proof.
  exists (JsonObject.store (Property Key) (value_init T)
            (unordered_map.subscript Key Root)).
  split; [| split].
  - unfold read, Json.subscript, Json.GetAs, JsonObject.GetAs,
      JsonValueWrapper.GetAs, JsonValueWrapper.Get_Internal.
    rewrite HRoot.
    cbn [Json.RootObject Json.with_RootObject JsonValueWrapper.Value
         JsonValueWrapper.DefaultValue JsonValueWrapper.bIsConst].
    rewrite load_subscript, HType. reflexivity.
  - rewrite find_store_subscript, String.eqb_refl. reflexivity.
  - intros k E. rewrite find_store_subscript, E. reflexivity.
Qed.

Lemma plain_read_resets_member_witness :
  exists Root',
    read "name" TInt64
      (Json.with_RootObject Json.new (Some [("name", VString "x")]))
    = Ok (VInt64 0,
          Json.with_RootObject
            (Json.with_RootObject Json.new (Some [("name", VString "x")]))
            (Some Root'))
    /\ unordered_map.find "name" Root' = Some (VInt64 0)
    /\ forall k, String.eqb "name" k = false ->
                 unordered_map.find k Root'
                 = unordered_map.find k [("name", VString "x")].
Proof.
  apply (plain_read_resets_member
           (Json.with_RootObject Json.new (Some [("name", VString "x")]))
           [("name", VString "x")] "name" TInt64); reflexivity.
Defined.

Lemma write_root (Key : string) (v : JsonValue) (doc : Json.t) :
  Json.RootObject (write Key v doc)
  = Some (JsonObject.store (Property Key) v
            (unordered_map.subscript Key
               (match Json.RootObject doc with Some o => o | None => [] end))).
Proof. reflexivity. Qed.

(** X15.  What is written is read back.  After [doc[Key] = v], for a
    value [v] of one of the types that can be assigned and read, a read of
    [Key] at the type of [v] returns [v] and leaves the document alone,
    [HasField] finds the member at that type, and no other key has
    appeared, vanished or changed its type. *)
Theorem write_then_read (doc : Json.t) (Key : string) (v : JsonValue)
    (T : JsonType)
    (HValid : CIsValidJsonGetValue T = true)
    (HType : HasType T v = true) :
  read Key T (write Key v doc) = Ok (v, write Key v doc)
  /\ Json.HasField (Some T) (write Key v doc) Key = true
  /\ forall k T', String.eqb Key k = false ->
       Json.HasField T' (write Key v doc) k = Json.HasField T' doc k.
Proof.
  pose proof (write_root Key v doc) as W.
  set (Root0 := match Json.RootObject doc with Some o => o | None => [] end) in *.
  set (Root' := JsonObject.store (Property Key) v
                  (unordered_map.subscript Key Root0)) in *.
  assert (F : unordered_map.find Key Root' = Some v).
  { unfold Root'. rewrite find_store_subscript, String.eqb_refl. reflexivity. }
  split; [| split].
  - unfold read, Json.subscript, Json.GetAs, JsonObject.GetAs,
      JsonValueWrapper.GetAs, JsonValueWrapper.Get_Internal.
    rewrite W.
    cbn [Json.RootObject Json.with_RootObject JsonValueWrapper.Value
         JsonValueWrapper.DefaultValue JsonValueWrapper.bIsConst].
    rewrite (find_subscript_present Key Root' v F).
    unfold JsonObject.load. rewrite F, HType. cbn [negb JsonObject.store].
    rewrite (assign_same Key Root' v F).
    destruct (write Key v doc) as [tz tok e r]. cbn in W. subst r. reflexivity.
  - unfold Json.HasField, Json.GetRootObject, JsonObject.HasField.
    rewrite W, F. exact HType.
  - intros k T' E.
    unfold Json.HasField, Json.GetRootObject, JsonObject.HasField.
    rewrite W. unfold Root'. rewrite find_store_subscript, E.
    unfold Root0. destruct (Json.RootObject doc); reflexivity.
Qed.

Lemma write_then_read_witness :
  read "n" TInt64 (write "n" (VInt64 5) Json.new)
  = Ok (VInt64 5, write "n" (VInt64 5) Json.new).
Proof.
  apply (write_then_read Json.new "n" (VInt64 5) TInt64); reflexivity.
Defined.

Lemma SerializeObject_loop_null (SV : JsonValue -> string -> bool -> nat -> option string)
    (Key : string) (p : JsonValue) (o : JsonObject) :
  (forall R b d, SV p R b d = None) ->
  unordered_map.find Key o = Some p ->
  forall W R b d, Json.SerializeObject_loop SV o W R b d = None.
Proof.
  intros N. induction o as [| [k v] r IH]; [discriminate |].
  cbn [unordered_map.find Json.SerializeObject_loop]. intros F W R b d.
  destruct (String.eqb k Key).
  - injection F as ->. rewrite N. reflexivity.
  - destruct (SV v "" b d); [apply IH; exact F | reflexivity].
Qed.

(** X16.  A conversion that fails still writes.  Binding [JsonArray&] to
    a member that is missing or is no array, on a document that is not
    const, throws "Field is not a JsonArray", and before it throws it has
    replaced the member by an empty array pointer.  The other members are
    untouched, but the document can no longer be serialized: the
    serializer dereferences the empty pointer. *)
Theorem failed_conversion_resets_member (doc : Json.t) (Root : JsonObject)
    (Key : string)
    (HRoot : Json.RootObject doc = Some Root)
    (HType : HasType TArray (JsonObject.load (Property Key) Root) = false) :
  exists Root',
    convert_JsonArray Key doc
    = (Raise (runtime_error "Field is not a JsonArray"),
       Json.with_RootObject doc (Some Root'))
    /\ unordered_map.find Key Root' = Some (VArray None)
    /\ (forall k, String.eqb Key k = false ->
                  unordered_map.find k Root' = unordered_map.find k Root)
    /\ forall bPretty,
         Json.Serialize bPretty (Json.with_RootObject doc (Some Root')) = None.
Proof.
  exists (JsonObject.store (Property Key) (VArray None)
            (unordered_map.subscript Key Root)).
  assert (F : unordered_map.find Key
                (JsonObject.store (Property Key) (VArray None)
                   (unordered_map.subscript Key Root)) = Some (VArray None))
    by (rewrite find_store_subscript, String.eqb_refl; reflexivity).
  split; [| split; [exact F | split]].
  - unfold convert_JsonArray, Json.subscript, Json.as_JsonArray,
      JsonValueWrapper.as_JsonArray, JsonValueWrapper.Get_Internal.
    rewrite HRoot.
    cbn [Json.RootObject Json.with_RootObject JsonValueWrapper.Value
         JsonValueWrapper.DefaultValue JsonValueWrapper.bIsConst].
    rewrite load_subscript, HType. reflexivity.
  - intros k E. rewrite find_store_subscript, E. reflexivity.
  - intros bPretty. unfold Json.Serialize, Json.SerializeObject,
      Json.SerializeObject_with.
    cbn [Json.RootObject Json.with_RootObject].
    rewrite (SerializeObject_loop_null Json.SerializeValue Key (VArray None));
      [reflexivity | reflexivity | exact F].
Qed.

Lemma failed_conversion_resets_member_witness :
  exists Root',
    convert_JsonArray "n"
      (Json.with_RootObject Json.new (Some [("n", VInt64 5)]))
    = (Raise (runtime_error "Field is not a JsonArray"),
       Json.with_RootObject
         (Json.with_RootObject Json.new (Some [("n", VInt64 5)])) (Some Root'))
    /\ unordered_map.find "n" Root' = Some (VArray None)
    /\ (forall k, String.eqb "n" k = false ->
                  unordered_map.find k Root'
                  = unordered_map.find k [("n", VInt64 5)])
    /\ forall bPretty,
         Json.Serialize bPretty
           (Json.with_RootObject
              (Json.with_RootObject Json.new (Some [("n", VInt64 5)]))
              (Some Root')) = None.
Proof.
  apply (failed_conversion_resets_member
           (Json.with_RootObject Json.new (Some [("n", VInt64 5)]))
           [("n", VInt64 5)] "n"); reflexivity.
Defined.

(** X17.  [CreateArray] and [CreateObject] give a container that is
    there.  Unless the slot holds an empty array pointer, which the call
    dereferences, [CreateArray] returns the elements of the array in the
    slot, and none when the slot held anything else, an empty object
    pointer included; the slot then holds an array of those elements, on
    which a second call, and the conversion to [JsonArray&] through any
    wrapper, return the same elements and change nothing.  [CreateObject]
    does the same with objects.  Containers are compared by what they
    hold. *)
Theorem Create_gives_container (w w' : JsonValueWrapper.t) (slot : JsonValue) :
  (slot <> VArray None ->
   let a := match slot with VArray (Some x) => x | _ => [] end in
   JsonValueWrapper.CreateArray w slot = Some (a, VArray (Some a))
   /\ JsonValueWrapper.CreateArray w (VArray (Some a))
      = Some (a, VArray (Some a))
   /\ JsonValueWrapper.as_JsonArray w' (VArray (Some a))
      = (Ok a, VArray (Some a)))
  /\ (slot <> VObject None ->
      let o := match slot with VObject (Some x) => x | _ => [] end in
      JsonValueWrapper.CreateObject w slot = Some (o, VObject (Some o))
      /\ JsonValueWrapper.CreateObject w (VObject (Some o))
         = Some (o, VObject (Some o))
      /\ JsonValueWrapper.as_JsonObject w' (VObject (Some o))
         = (Ok o, VObject (Some o)))
  /\ JsonValueWrapper.CreateArray w (VArray None) = None
  /\ JsonValueWrapper.CreateObject w (VObject None) = None.
Proof.
  assert (A : forall a, JsonValueWrapper.as_JsonArray w' (VArray (Some a))
                        = (Ok a, VArray (Some a))).
  { intros a. unfold JsonValueWrapper.as_JsonArray, JsonValueWrapper.Get_Internal.
    destruct (JsonValueWrapper.DefaultValue w'), (JsonValueWrapper.bIsConst w');
      reflexivity. }
  assert (O : forall o, JsonValueWrapper.as_JsonObject w' (VObject (Some o))
                        = (Ok o, VObject (Some o))).
  { intros o. unfold JsonValueWrapper.as_JsonObject, JsonValueWrapper.Get_Internal.
    destruct (JsonValueWrapper.DefaultValue w'), (JsonValueWrapper.bIsConst w');
      reflexivity. }
  split; [| split; [| split; reflexivity]].
  - intros H. cbn zeta.
    destruct slot as [| | b | n | d | s | [a |] | [o |]];
      try contradiction; repeat split; apply A.
  - intros H. cbn zeta.
    destruct slot as [| | b | n | d | s | [a |] | [o |]];
      try contradiction; repeat split; apply O.
Qed.

(** ** Serializing what was parsed *)

Lemma well_formed_serializes (v : JsonValue) :
  well_formed v = true ->
  forall bPretty Depth,
  exists s, Json.SerializeValue v "" bPretty Depth = Some s.
Proof.
  induction v using JsonValue_nested_ind; intros WF bPretty Depth;
    try discriminate WF; cbn [Json.SerializeValue];
    try (eexists; reflexivity).
  - cbn [well_formed] in WF. unfold Json.SerializeArray_with.
    destruct (SerializeArray_loop_some a bPretty (Depth + 1)) with
      (Written := 0) (Result := "" ++ "[") as (out & ->).
    + rewrite Forall_forall in *. intros x Hx. apply (H x Hx).
      rewrite forallb_forall in WF. apply WF, Hx.
    + eexists. reflexivity.
  - cbn [well_formed] in WF. apply andb_prop in WF as [WF _].
    unfold Json.SerializeObject_with.
    destruct (SerializeObject_loop_some o bPretty (Depth + 1)) with
      (Written := 0) (Result := "" ++ "{") as (out & ->).
    + rewrite Forall_forall in *. intros x Hx. apply (H x Hx).
      rewrite forallb_forall in WF. exact (WF x Hx).
    + eexists. reflexivity.
Qed.

Lemma Parse_error_root (Input : string) (j j' : Json.t) :
  Json.Parse Input j = Json.Returns tt j' ->
  Json.HasError j' = true ->
  Json.RootObject j' = None.
Proof.
  unfold Json.Parse, Json.ParseObject.
  destruct (Json.ParseObject_with _ _ _) as [p j1 | |] eqn:P; cbn [Json.bind];
    try discriminate.
  intros H. apply Returns_inj in H. destruct H as [_ <-].
  rewrite HasError_reroot. intros E. cbn [Json.with_RootObject Json.RootObject].
  f_equal.
  eapply ParseObject_with_error_null; [| exact P | exact E]. reflexivity.
Qed.

Lemma braces (body tail : string) :
  exists inner, "{" ++ body ++ tail ++ "}" = "{" ++ inner ++ "}".
Proof.
  exists (body ++ tail). cbn [append]. rewrite append_assoc. reflexivity.
Qed.

(** X18.  What [Parse] leaves holds no empty pointer for [Serialize] to
    meet.  After a parse that returned with an error the document has no
    root object and [Serialize] gives the empty text.  After a parse that
    returned without one, [Serialize] gives, in either mode, the text
    that [SerializeObject] writes for the root object that was parsed:
    an opening brace, the members, a closing brace. *)
Theorem Parse_then_Serialize (Input : string) (j j' : Json.t) (bPretty : bool)
    (HParse : Json.Parse Input j = Json.Returns tt j') :
  exists text,
    Json.Serialize bPretty j' = Some text
    /\ (Json.HasError j' = true ->
        Json.RootObject j' = None /\ text = "")
    /\ (Json.HasError j' = false ->
        exists Root members,
          Json.RootObject j' = Some Root
          /\ Json.SerializeObject Root "" bPretty 0 = Some text
          /\ text = "{" ++ members ++ "}").
Proof.
  destruct (Json.HasError j') eqn:E.
  - exists "". unfold Json.Serialize.
    rewrite (Parse_error_root Input j j' HParse E).
    split; [reflexivity |]. split; [split; reflexivity | discriminate].
  - destruct (Parse_quiet_root Input j j' HParse E) as (Root & HRoot & WF).
    assert (S : exists text,
               Json.SerializeObject Root "" bPretty 0 = Some text).
    { unfold Json.SerializeObject, Json.SerializeObject_with.
      cbn [well_formed] in WF. apply andb_prop in WF as [WF _].
      destruct (SerializeObject_loop_some Root bPretty 0) with
        (Written := 0) (Result := "" ++ "{") as (out & ->).
      - apply Forall_forall. intros x Hx. apply well_formed_serializes.
        rewrite forallb_forall in WF. exact (WF x Hx).
      - eexists. reflexivity. }
    destruct S as (text & S). exists text.
    unfold Json.Serialize. rewrite HRoot.
    split; [exact S |]. split; [discriminate |]. intros _.
    destruct (SerializeObject_with_text _ _ _ _ _ S) as (body & _ & T).
    destruct (braces body (closing bPretty ("{" ++ body) 0)) as (inner & B).
    exists Root, inner. split; [reflexivity |]. split; [exact S |].
    rewrite T. exact B.
Qed.

Lemma Parse_then_Serialize_witness :
  exists text,
    Json.Serialize false
      (match Json.Parse sample_text Json.new with
       | Json.Returns _ j' => j'
       | _ => Json.new
       end) = Some text
    /\ (Json.HasError
          (match Json.Parse sample_text Json.new with
           | Json.Returns _ j' => j'
           | _ => Json.new
           end) = true ->
        Json.RootObject
          (match Json.Parse sample_text Json.new with
           | Json.Returns _ j' => j'
           | _ => Json.new
           end) = None /\ text = "")
    /\ (Json.HasError
          (match Json.Parse sample_text Json.new with
           | Json.Returns _ j' => j'
           | _ => Json.new
           end) = false ->
        exists Root members,
          Json.RootObject
            (match Json.Parse sample_text Json.new with
             | Json.Returns _ j' => j'
             | _ => Json.new
             end) = Some Root
          /\ Json.SerializeObject Root "" false 0 = Some text
          /\ text = "{" ++ members ++ "}").
Proof.
  apply (Parse_then_Serialize sample_text Json.new). vm_compute. reflexivity.
Defined.

(** ** Arrays *)

(** X19.  [HasField] on an array tells when the subscript succeeds: it is
    true exactly for the indices at which [operator[]], const or not,
    returns a wrapper instead of throwing [std::out_of_range], and with a
    type it is true exactly when the element at that index holds the
    type. *)
Theorem HasField_guards_subscript (a : JsonArray) (Index : nat) :
  (JsonArray.HasField None a Index = true
   <-> exists w, JsonArray.subscript Index a = Ok w)
  /\ (JsonArray.HasField None a Index = true
      <-> exists w, JsonArray.subscript_const Index a = Ok w)
  /\ (JsonArray.HasField None a Index = false
      <-> JsonArray.subscript Index a = Raise out_of_range)
  /\ forall T,
       JsonArray.HasField (Some T) a Index = true
       <-> JsonArray.HasField None a Index = true
           /\ HasType T (JsonArray.load (Element Index) a) = true.
Proof.
  unfold JsonArray.HasField, JsonArray.subscript, JsonArray.subscript_const,
    JsonArray.load.
  destruct (nth_error a Index) as [v |] eqn:N.
  - assert (L : Index < length a) by (apply nth_error_Some; congruence).
    apply Nat.ltb_lt in L. rewrite L.
    rewrite (nth_error_nth _ _ VUndefined N).
    repeat split; try (intros; eexists; reflexivity); try discriminate;
      tauto.
  - assert (L : (Index <? length a)%nat = false).
    { apply Nat.ltb_ge. apply nth_error_None. exact N. }
    rewrite L.
    repeat split; try discriminate; try (intros [w H]; discriminate);
      try tauto.
Qed.

(** X20.  [AddValue] appends one slot and nothing else: the wrapper it
    returns is the one the subscript gives at the old length, the new
    element holds [Undefined] until it is assigned, an assignment through
    the wrapper makes the array the old one followed by the value, and the
    elements that were there stay where they were. *)
Theorem AddValue_appends (a : JsonArray) (v : JsonValue) :
  let w := fst (JsonArray.AddValue a) in
  let a' := snd (JsonArray.AddValue a) in
  length a' = S (length a)
  /\ JsonArray.subscript (length a) a' = Ok w
  /\ JsonArray.load (JsonValueWrapper.Value w) a' = VUndefined
  /\ JsonArray.HasField (Some TUndefined) a' (length a) = true
  /\ JsonArray.store (JsonValueWrapper.Value w) v a' = (a ++ [v])%list
  /\ forall i, i < length a -> nth_error a' i = nth_error a i.
Proof.
  cbn [JsonArray.AddValue fst snd JsonValueWrapper.Value].
  assert (L : length (a ++ [VUndefined])%list = S (length a))
    by (rewrite length_app; cbn; lia).
  assert (B : (length a <? length (a ++ [VUndefined])%list)%nat = true)
    by (apply Nat.ltb_lt; lia).
  split; [exact L |]. split.
  { unfold JsonArray.subscript. rewrite B. reflexivity. }
  split.
  { cbn [JsonArray.load]. rewrite app_nth2, Nat.sub_diag; [reflexivity | lia]. }
  split.
  { unfold JsonArray.HasField. rewrite nth_error_app2, Nat.sub_diag; [| lia].
    reflexivity. }
  split.
  { cbn [JsonArray.store]. rewrite B.
    rewrite firstn_app, firstn_all, Nat.sub_diag. cbn [firstn].
    rewrite app_nil_r. f_equal.
    rewrite skipn_all2; [reflexivity | lia]. }
  intros i H. apply nth_error_app1. exact H.
Qed.

(** ** The place of an error *)

Lemma length_substring (s : string) :
  forall n m, String.length (substring n m s) = Nat.min m (String.length s - n).
Proof.
  induction s as [| c s IH]; intros n m.
  - destruct n, m; cbn; lia.
  - destruct n as [| n].
    + destruct m as [| m]; [reflexivity |].
      cbn [substring String.length]. rewrite IH. lia.
    + cbn [substring String.length]. rewrite IH. lia.
Qed.

Lemma substring_substring (t : string) :
  forall d L, d <= L -> substring 0 d (substring 0 L t) = substring 0 d t.
Proof.
  induction t as [| c t IH]; intros d L H.
  - destruct d, L; reflexivity.
  - destruct d as [| d]; [destruct L; reflexivity |].
    destruct L as [| L]; [lia |].
    cbn [substring]. rewrite IH; [reflexivity | lia].
Qed.

Lemma drop_substring (d : nat) :
  forall L t, drop d (substring 0 L t) = substring 0 (L - d) (drop d t).
Proof.
  induction d as [| d IH]; intros L t.
  - rewrite Nat.sub_0_r. reflexivity.
  - destruct t as [| c t].
    + destruct L; cbn [substring drop]; destruct (_ - _); reflexivity.
    + destruct L as [| L].
      * cbn [substring drop Nat.sub]. destruct (drop d t); reflexivity.
      * cbn [substring drop Nat.sub]. apply IH.
Qed.

Lemma substring_min (s : string) :
  forall n m, substring n (Nat.min m (String.length s - n)) s = substring n m s.
Proof.
  induction s as [| c s IH]; intros n m.
  - destruct n, m; reflexivity.
  - destruct n as [| n].
    + destruct m as [| m]; [reflexivity |].
      cbn [String.length Nat.sub Nat.min substring].
      rewrite <- (IH 0 m), Nat.sub_0_r. reflexivity.
    + cbn [String.length Nat.sub substring]. apply IH.
Qed.

(** A window cut in two at [d]. *)
Lemma substring_split (s : string) (st L d : nat) :
  d <= L -> st + L <= String.length s ->
  substring 0 d (substring st L s) = substring st d s
  /\ substring d (String.length (substring st L s) - d) (substring st L s)
     = substring (st + d) (L - d) s.
Proof.
  intros H B. split.
  - rewrite (substring_drop st L), (substring_drop st d).
    apply substring_substring. exact H.
  - rewrite length_substring.
    replace (Nat.min L (String.length s - st)) with L by lia.
    rewrite (substring_drop d), (substring_drop st L), drop_substring.
    rewrite substring_substring by lia.
    rewrite <- drop_add, <- substring_drop. reflexivity.
Qed.

(** X21.  The place shown with an error.  For a token past the end of the
    input it is the text "Error position out of bounds".  Otherwise it is
    a window of the input around the position of the token: up to fifty
    characters before it, the marker, and from the token on fifty
    characters and as many again as were shown before it; the marker is
    left out for a token at the very start.  The window is never longer
    than 162 characters, whatever the length of the input. *)
Theorem ErrorLocation_window (Input : string) (Token : JsonToken.t) :
  let Position := JsonToken.Position Token in
  let Diff := Nat.min Position 50 in
  String.length (Json.ErrorLocation Input Token) <= 162
  /\ (size Input <= Position ->
      Json.ErrorLocation Input Token = "Error position out of bounds")
  /\ (Position < size Input ->
      Json.ErrorLocation Input Token
      = if (0 <? Position)%nat
        then substr Input (Position - Diff) Diff ++ " *ERROR*--> "
             ++ substr Input Position (50 + Diff)
        else substr Input 0 50).
Proof.
  cbn zeta. unfold Json.ErrorLocation, Json.MaxErrorLocation.
  set (P := JsonToken.Position Token).
  destruct (size Input <=? P)%nat eqn:O.
  { apply Nat.leb_le in O. split; [cbn; lia |]. split; [reflexivity | lia]. }
  apply Nat.leb_gt in O. unfold size in *.
  set (Start := if (50 <=? P)%nat then P - 50 else 0).
  assert (HS : Start = P - Nat.min P 50).
  { unfold Start. destruct (50 <=? P)%nat eqn:E;
      [apply Nat.leb_le in E | apply Nat.leb_gt in E]; lia. }
  assert (HD : P - Start = Nat.min P 50) by lia.
  rewrite HD.
  set (End := Nat.min (P + 50 + Nat.min P 50) (String.length Input)).
  assert (HL : End - Start = Nat.min P 50 + (End - P)) by (unfold End; lia).
  assert (X : (if (0 <? Nat.min P 50)%nat
               then substr (substr Input Start (End - Start)) 0 (Nat.min P 50)
                    ++ " *ERROR*--> "
                    ++ substr_from (substr Input Start (End - Start))
                         (Nat.min P 50)
               else substr Input Start (End - Start))
              = if (0 <? P)%nat
                then substr Input (P - Nat.min P 50) (Nat.min P 50)
                     ++ " *ERROR*--> " ++ substr Input P (50 + Nat.min P 50)
                else substr Input 0 50).
  { destruct (0 <? P)%nat eqn:Z;
      [apply Nat.ltb_lt in Z | apply Nat.ltb_ge in Z].
    - replace (0 <? Nat.min P 50)%nat with true
        by (symmetry; apply Nat.ltb_lt; lia).
      unfold substr, substr_from, size.
      destruct (substring_split Input Start (End - Start) (Nat.min P 50)
                  ltac:(lia) ltac:(unfold End; lia)) as [A B].
      rewrite A, B, <- HS. do 2 f_equal.
      replace (Start + Nat.min P 50) with P by lia.
      replace (End - Start - Nat.min P 50)
        with (Nat.min (50 + Nat.min P 50) (String.length Input - P))
        by (unfold End; lia).
      apply substring_min.
    - assert (P = 0) by lia.
      replace (Nat.min P 50) with 0 by lia. cbn [Nat.ltb Nat.leb].
      unfold substr. replace Start with 0 by lia.
      replace (End - 0) with (Nat.min 50 (String.length Input - 0))
        by (unfold End; lia).
      apply substring_min. }
  split; [| split; [lia | intros _; exact X]].
  rewrite X. unfold substr.
  destruct (0 <? P)%nat; rewrite ?length_append, !length_substring;
    cbn [String.length]; lia.
Qed.

(** ** A key that comes twice *)

(** X22.  Of two members with the same key the parser keeps the first:
    the second value is parsed, and checked, and then dropped, and no
    error is recorded.  Here for a document with two members, whatever
    their values and whatever follows the closing brace. *)
Theorem duplicate_key_keeps_first (Key : string) (v1 v2 : JsonValue)
    (s1 s2 trailing : string) (j : Json.t)
    (HKey : plain Key = true)
    (HTree1 : round_trips v1 = true)
    (HTree2 : round_trips v2 = true)
    (HText1 : Json.SerializeValue v1 "" false 0 = Some s1)
    (HText2 : Json.SerializeValue v2 "" false 0 = Some s2) :
  exists j',
    Json.Parse ("{" ++ quoted Key ++ ":" ++ s1 ++ "," ++ quoted Key ++ ":"
                    ++ s2 ++ "}" ++ trailing) j
    = Json.Returns tt j'
    /\ Json.HasError j' = false
    /\ Json.RootObject j' = Some [(Key, v1)].
Proof.
  assert (Em : unordered_map.emplace Key v2 (unordered_map.emplace Key v1 [])
               = [(Key, v1)]).
  { unfold unordered_map.emplace. cbn [unordered_map.find app].
    rewrite String.eqb_refl. reflexivity. }
  unfold Json.Parse, Json.ParseObject, Json.ParseObject_with.
  set (Input := "{" ++ _).
  set (j0 := Json.make _ _ _ _).
  assert (Ln : size Input
               = S (String.length (quoted Key ++ ":" ++ s1 ++ ","
                                    ++ quoted Key ++ ":" ++ s2 ++ "}"
                                    ++ trailing))) by reflexivity.
  assert (L1 : String.length s1 <= S (size Input)).
  { rewrite Ln, !length_append. lia. }
  assert (L2 : String.length s2 <= S (size Input)).
  { rewrite Ln, !length_append. lia. }
  set (F := S (size Input)) in L1, L2 |- *.
  assert (HF : F = S (size Input)) by reflexivity.
  set (PV := Json.ParseValue F). rewrite HF. clearbody F.
  assert (E0 : Json.ErrorMessage j0 = None) by reflexivity.
  assert (R0 : Reads (Json.Tokenizer j0) Input) by apply Reads_Init.
  unfold Input in R0. cbn [append] in R0.
  destruct (Consume_Reads j0 _ JsonTokenType.ObjectStart "{" _ R0 eq_refl
              ltac:(discriminate)) as (Ty1 & _ & R1 & Er1).
  token_is Ty1. rewrite quoted_append in R1.
  match type of R1 with Reads _ (String quote (Key ++ String quote ?k)) =>
    pose proof (lex_string Key k HKey) as LK end.
  destruct (Peek_Reads _ _ _ _ _ R1 LK ltac:(discriminate))
    as (Ty2 & _ & R2 & Er2).
  token_is Ty2. rule_step. token_is Ty2.
  destruct (Consume_Reads _ _ _ _ _ R2 LK ltac:(discriminate))
    as (_ & Va3 & R3 & Er3).
  cbn [append] in R3.
  destruct (Consume_Reads _ _ JsonTokenType.Colon ":" _ R3 eq_refl
              ltac:(discriminate)) as (Ty4 & _ & R4 & Er4).
  token_is Ty4.
  match type of R4 with Reads (Json.Tokenizer ?J) _ =>
    assert (E4 : Json.HasError J = false)
      by (unfold Json.HasError; rewrite Er4, Er3, Er2, Er1, E0; reflexivity)
  end.
  destruct (ParseValue_reads_back v1 false 0 s1 HText1 HTree1 F _ _ L1 E4 R4
              eq_refl) as (j5 & P5 & E5 & R5).
  unfold PV at 1. rewrite P5. rule_step. rewrite E5.
  cbn [append] in R5.
  destruct (Consume_Reads j5 _ JsonTokenType.Comma "," _ R5 eq_refl
              ltac:(discriminate)) as (Ty6 & _ & R6 & Er6).
  token_is Ty6. rewrite Ln. rule_step.
  rewrite quoted_append in R6.
  match type of R6 with Reads _ (String quote (Key ++ String quote ?k)) =>
    pose proof (lex_string Key k HKey) as LK2 end.
  destruct (Peek_Reads _ _ _ _ _ R6 LK2 ltac:(discriminate))
    as (Ty7 & _ & R7 & Er7).
  token_is Ty7.
  destruct (Consume_Reads _ _ _ _ _ R7 LK2 ltac:(discriminate))
    as (_ & Va8 & R8 & Er8).
  cbn [append] in R8.
  destruct (Consume_Reads _ _ JsonTokenType.Colon ":" _ R8 eq_refl
              ltac:(discriminate)) as (Ty9 & _ & R9 & Er9).
  token_is Ty9.
  match type of R9 with Reads (Json.Tokenizer ?J) _ =>
    assert (E9 : Json.HasError J = false)
      by (rewrite (HasError_same _ _ Er9), (HasError_same _ _ Er8),
            (HasError_same _ _ Er7), (HasError_same _ _ Er6); exact E5)
  end.
  destruct (ParseValue_reads_back v2 false 0 s2 HText2 HTree2 F _ _ L2 E9 R9
              eq_refl) as (j10 & P10 & E10 & R10).
  unfold PV. rewrite P10. rule_step. rewrite E10.
  cbn [append] in R10.
  destruct (Consume_Reads j10 _ JsonTokenType.ObjectEnd "}" _ R10 eq_refl
              ltac:(discriminate)) as (Ty11 & _ & _ & Er11).
  token_is Ty11. rewrite Va3, Va8.
  eexists. split; [reflexivity |]. split.
  - rewrite HasError_reroot, (HasError_same _ _ Er11). exact E10.
  - cbn [Json.with_RootObject Json.RootObject]. rewrite Em. reflexivity.
Qed.

Lemma duplicate_key_keeps_first_witness :
  exists j',
    Json.Parse ("{" ++ quoted "a" ++ ":" ++ "1" ++ "," ++ quoted "a" ++ ":"
                    ++ "[true]" ++ "}" ++ "") Json.new
    = Json.Returns tt j'
    /\ Json.HasError j' = false
    /\ Json.RootObject j' = Some [("a", VInt64 1)].
Proof.
  apply (duplicate_key_keeps_first "a" (VInt64 1) (VArray (Some [VBool true]))
           "1" "[true]" "" Json.new); reflexivity.
Defined.

(** ** A parse starts afresh *)

(** X23.  [Parse] keeps nothing of the document it is called on: the
    tokenizer is reset, the error is cleared and the root object is
    replaced, so that whether it returns or throws, and the document it
    leaves when it returns, depend on the input alone.  Nothing is merged
    into what was there. *)
Theorem Parse_forgets (Input : string) (j j' : Json.t) :
  Json.Parse Input j = Json.Parse Input j'.
Proof. exact (Parse_fresh Input j j'). Qed.

(** ** What an error message says *)

Lemma fill_Input (tz : JsonTokenizer.t) :
  JsonTokenizer.Input (JsonTokenizer.fill tz) = JsonTokenizer.Input tz.
Proof.
  unfold JsonTokenizer.fill.
  destruct (JsonToken.is_a JsonTokenType.Invalid _); [| reflexivity].
  destruct (NextToken_lex tz) as (tok & tz' & -> & _ & M & _).
  exact M.
Qed.

Lemma PeekToken_Input (tz : JsonTokenizer.t) :
  JsonTokenizer.Input (snd (JsonTokenizer.PeekToken tz)) = JsonTokenizer.Input tz.
Proof. apply fill_Input. Qed.

Lemma GetToken_Input (tz : JsonTokenizer.t) :
  JsonTokenizer.Input (snd (JsonTokenizer.GetToken tz)) = JsonTokenizer.Input tz.
Proof.
  unfold JsonTokenizer.GetToken.
  destruct (NextToken_lex (JsonTokenizer.fill tz)) as (tok & tz' & -> & _ & M & _).
  cbn [snd JsonTokenizer.with_CurrentToken JsonTokenizer.Input].
  rewrite M. apply fill_Input.
Qed.

Lemma ThrowError_reported (Input : string) (Token : JsonToken.t)
    (message : string) (j : Json.t) :
  reported Input j -> In message parse_errors ->
  reported Input (Json.ThrowError Token message j).
Proof.
  intros [I E] M. unfold Json.ThrowError, Json.HasError.
  destruct (Json.ErrorMessage j) as [e |] eqn:Ee.
  - split; [exact I |]. rewrite Ee. exact E.
  - split; [exact I |].
    cbn [Json.with_ErrorMessage Json.ErrorMessage].
    unfold JsonTokenizer.GetInput. rewrite I.
    exists Token, message. split; [reflexivity | exact M].
Qed.

Lemma UpdateToken_reported (Input : string) (bPeak : bool) (j : Json.t) :
  reported Input j -> reported Input (Json.UpdateToken bPeak j).
Proof.
  intros [I E]. unfold Json.UpdateToken.
  assert (In' : JsonTokenizer.Input
                  (snd (if bPeak
                        then JsonTokenizer.PeekToken (Json.Tokenizer j)
                        else JsonTokenizer.GetToken (Json.Tokenizer j)))
                = Input).
  { destruct bPeak; [rewrite PeekToken_Input | rewrite GetToken_Input];
      exact I. }
  destruct (if bPeak then _ else _) as [tok tz]. cbn [snd] in In'.
  assert (R : reported Input
                (Json.make tz tok (Json.ErrorMessage j) (Json.RootObject j)))
    by (split; [exact In' | exact E]).
  cbn [Json.CurrentToken].
  destruct (JsonToken.is_a JsonTokenType.Invalid tok); [| exact R].
  apply ThrowError_reported; [exact R | left; reflexivity].
Qed.

Lemma Consume_reported (Input : string) (j : Json.t) :
  reported Input j -> reported Input (Json.Consume j).
Proof. apply UpdateToken_reported. Qed.

Lemma Peek_reported (Input : string) (j : Json.t) :
  reported Input j -> reported Input (Json.Peek j).
Proof. apply UpdateToken_reported. Qed.

Lemma ThrowParserError_reported {A : Type} (Input : string) (empty : A)
    (message : string) (j : Json.t) (r : A) (j' : Json.t) :
  reported Input j -> In message parse_errors ->
  Json.ThrowParserError empty message j = Json.Returns r j' ->
  reported Input j'.
Proof.
  intros R M. unfold Json.ThrowParserError. returned.
  apply ThrowError_reported; assumption.
Qed.

Ltac known_reason :=
  unfold parse_errors; cbn [In]; repeat (try (left; reflexivity); right).

Section Reasons.
Variable ParseValue : Json.t -> Json.outcome JsonValue.
Hypothesis ParseValue_reports : reports ParseValue.

Lemma ParseArray_loop_reports (n : nat) (Values : JsonArray) :
  reports (Json.ParseArray_loop ParseValue n Values).
Proof.
  revert Values. induction n as [| n IH]; intros Values Input j r j' R;
    rule_step; [discriminate |].
  destruct (ParseValue j) as [v j1 | |] eqn:PV; rule_step; try discriminate.
  pose proof (ParseValue_reports _ _ _ _ R PV) as R1.
  destruct (Json.HasError j1); [returned; exact R1 |].
  pose proof (Consume_reported _ _ R1) as R2.
  destruct (negb _ && negb _).
  { apply ThrowParserError_reported; [exact R2 | known_reason]. }
  destruct (JsonToken.is_a JsonTokenType.ArrayEnd _); [returned; exact R2 |].
  apply IH. apply Peek_reported. exact R2.
Qed.

Lemma ParseArray_with_reports (n : nat) :
  reports (Json.ParseArray_with ParseValue n).
Proof.
  intros Input j r j' R. unfold Json.ParseArray_with.
  pose proof (Consume_reported _ _ R) as R1.
  destruct (negb _).
  { apply ThrowParserError_reported; [exact R1 | known_reason]. }
  pose proof (Peek_reported _ _ R1) as R2.
  destruct (JsonToken.is_a JsonTokenType.ArrayEnd _).
  - returned. apply Consume_reported. exact R2.
  - apply ParseArray_loop_reports. exact R2.
Qed.

Lemma ParseObject_loop_reports (n : nat) (Result : JsonObject) :
  reports (Json.ParseObject_loop ParseValue n Result).
Proof.
  revert Result. induction n as [| n IH]; intros Result Input j r j' R;
    rule_step; [discriminate |].
  destruct (negb (JsonToken.is_a JsonTokenType.String _)).
  { apply ThrowParserError_reported; [exact R | known_reason]. }
  pose proof (Consume_reported _ _ (Consume_reported _ _ R)) as R2.
  destruct (negb (JsonToken.is_a JsonTokenType.Colon _)).
  { apply ThrowParserError_reported; [exact R2 | known_reason]. }
  destruct (ParseValue _) as [v j3 | |] eqn:PV; rule_step; try discriminate.
  pose proof (ParseValue_reports _ _ _ _ R2 PV) as R3.
  destruct (Json.HasError j3); [returned; exact R3 |].
  pose proof (Consume_reported _ _ R3) as R4.
  destruct (negb _ && negb _).
  { apply ThrowParserError_reported; [exact R4 | known_reason]. }
  destruct (JsonToken.is_a JsonTokenType.ObjectEnd _); [returned; exact R4 |].
  apply IH. apply Peek_reported. exact R4.
Qed.

Lemma ParseObject_with_reports (n : nat) :
  reports (Json.ParseObject_with ParseValue n).
Proof.
  intros Input j r j' R. unfold Json.ParseObject_with.
  pose proof (Consume_reported _ _ R) as R1.
  destruct (negb _).
  { apply ThrowParserError_reported; [exact R1 | known_reason]. }
  pose proof (Peek_reported _ _ R1) as R2.
  destruct (JsonToken.is_a JsonTokenType.ObjectEnd _).
  - returned. apply Consume_reported. exact R2.
  - apply ParseObject_loop_reports. exact R2.
Qed.
End Reasons.

Lemma ParseValue_reports (fuel : nat) : reports (Json.ParseValue fuel).
Proof.
  induction fuel as [| fuel IH]; intros Input j r j' R; rule_step;
    [discriminate |].
  pose proof (Peek_reported _ _ R) as R1.
  pose proof (Consume_reported _ _ R1) as R2.
  destruct (JsonToken.Type_ (Json.CurrentToken (Json.Peek j)));
    try match goal with
    | |- Json.ThrowParserError _ _ _ = _ -> _ =>
        apply ThrowParserError_reported; [exact R1 | known_reason]
    | |- Json.Returns _ _ = _ -> _ => returned; exact R2
    end.
  - destruct (Json.ParseObject_with _ _ _) as [p j1 | |] eqn:P; rule_step;
      try discriminate.
    returned. exact (ParseObject_with_reports _ IH _ _ _ _ _ R1 P).
  - destruct (Json.ParseArray_with _ _ _) as [p j1 | |] eqn:P; rule_step;
      try discriminate.
    returned. exact (ParseArray_with_reports _ IH _ _ _ _ _ R1 P).
  - unfold Json.convert. destruct (Json.IsFloat _).
    + destruct (stod _); [returned; exact R2 | discriminate].
    + destruct (stoll _); [returned; exact R2 | discriminate].
Qed.

(** X24.  What [GetError] says after a parse.  When [Parse] returns with
    an error, the message is the one [ThrowError] formats: the position
    and the text of a token, the window of the input around it, and one
    of the eight reasons of the parser.  It is never the empty text, so
    that [GetError] is empty exactly when [HasError] is false. *)
Theorem Parse_error_message (Input : string) (j j' : Json.t)
    (HParse : Json.Parse Input j = Json.Returns tt j') :
  (Json.HasError j' = true ->
   exists Token reason,
     Json.GetError j'
     = Json.format_error Token (Json.ErrorLocation Input Token) reason
     /\ In reason parse_errors)
  /\ (Json.GetError j' = "" <-> Json.HasError j' = false).
Proof.
  assert (R : reported Input j').
  { revert HParse. unfold Json.Parse, Json.ParseObject.
    destruct (Json.ParseObject_with _ _ _) as [p j1 | |] eqn:P;
      cbn [Json.bind]; try discriminate.
    intros H. apply Returns_inj in H. destruct H as [_ <-].
    apply (ParseObject_with_reports _
             (ParseValue_reports (S (size Input))) _ Input) in P.
    - destruct P as [I E]. split; [exact I | exact E].
    - split; [reflexivity | exact I]. }
  destruct R as [_ E]. unfold Json.GetError, Json.HasError.
  destruct (Json.ErrorMessage j') as [e |].
  - destruct E as (Token & reason & -> & M). split.
    + intros _. exists Token, reason. split; [reflexivity | exact M].
    + split; [| discriminate]. unfold Json.format_error. cbn [append].
      discriminate.
  - split; [discriminate | split; reflexivity].
Qed.

Lemma Parse_error_message_witness :
  Json.GetError
    (match Json.Parse "[1]" Json.new with
     | Json.Returns _ j' => j'
     | _ => Json.new
     end) = ""
  <-> Json.HasError
        (match Json.Parse "[1]" Json.new with
         | Json.Returns _ j' => j'
         | _ => Json.new
         end) = false.
Proof.
  apply (Parse_error_message "[1]" Json.new). vm_compute. reflexivity.
Defined.

(** ** Integers with something after the digits *)

Lemma read_digits_stop (tail : string) (acc : Z) (count : nat) :
  match tail with
  | EmptyString => true
  | String c _ => negb (isdigit c)
  end = true ->
  read_digits tail acc count = (acc, count, tail).
Proof.
  destruct tail as [| c r]; [reflexivity |]. cbn [read_digits].
  destruct (isdigit c); [discriminate | reflexivity].
Qed.

Lemma number_chars_append (a b : string) :
  number_chars (a ++ b) = number_chars a && number_chars b.
Proof.
  induction a as [| c a IH]; [reflexivity |].
  cbn [append number_chars]. rewrite IH, andb_assoc. reflexivity.
Qed.

Lemma contains_append (c : ascii) (a b : string) :
  contains c (a ++ b) = contains c a || contains c b.
Proof.
  induction a as [| x a IH]; [reflexivity |].
  cbn [append contains]. rewrite IH, orb_assoc. reflexivity.
Qed.

(** [std::stoll] stops at the first character that is no digit. *)
Lemma stoll_tail (n : Z) (tail : string) :
  in_int64 n = true ->
  match tail with
  | EmptyString => true
  | String c _ => negb (isdigit c)
  end = true ->
  stoll (to_string_int64 n ++ tail) = Ok n.
Proof.
  unfold in_int64. intros B H.
  destruct n as [| p | p].
  - change (to_string_int64 0) with "0". unfold stoll.
    cbn [append skip_space read_sign]. change (isspace "0") with false.
    cbv iota. cbn [read_sign read_digits]. change (isdigit "0") with true.
    cbv iota. rewrite (read_digits_stop tail _ _ H). reflexivity.
  - rewrite to_string_int64_pos. unfold stoll.
    pose proof (DecimalPos.Unsigned.to_uint_nonnil p) as NN.
    destruct (uint_head _ NN) as (c & r & E & D).
    destruct (isdigit_facts c D) as (Sp & _ & M & P & _).
    assert (Sk : skip_space (NilEmpty.string_of_uint (Pos.to_uint p) ++ tail)
                 = NilEmpty.string_of_uint (Pos.to_uint p) ++ tail).
    { rewrite E. cbn [append skip_space]. rewrite Sp. reflexivity. }
    assert (Sg : read_sign (NilEmpty.string_of_uint (Pos.to_uint p) ++ tail)
                 = (false, NilEmpty.string_of_uint (Pos.to_uint p) ++ tail)).
    { rewrite E. cbn [append]. unfold read_sign.
      apply Ascii.eqb_neq in M, P.
      destruct c as [[] [] [] [] [] [] [] []]; try reflexivity; congruence. }
    rewrite Sk, Sg. cbv beta iota.
    rewrite read_digits_uint, (read_digits_stop tail _ _ H).
    cbn [Nat.add]. rewrite DecimalPos.Unsigned.of_to. cbn [Z.of_N].
    pose proof (nb_digits_pos _ NN) as NZ.
    destruct (Decimal.nb_digits (Pos.to_uint p)); [contradiction |].
    cbv beta iota. rewrite B. reflexivity.
  - rewrite to_string_int64_neg. unfold stoll.
    pose proof (DecimalPos.Unsigned.to_uint_nonnil p) as NN.
    cbn [append].
    change (skip_space (String "-" ?x)) with (String "-" x).
    cbn [read_sign].
    rewrite read_digits_uint, (read_digits_stop tail _ _ H).
    cbn [Nat.add]. rewrite DecimalPos.Unsigned.of_to. cbn [Z.of_N].
    pose proof (nb_digits_pos _ NN) as NZ.
    destruct (Decimal.nb_digits (Pos.to_uint p)); [contradiction |].
    cbv beta iota. change (- Zpos p)%Z with (Zneg p). rewrite B. reflexivity.
Qed.

Lemma ParseValue_tail (n : Z) (tail : string) (fuel : nat) (j : Json.t)
    (k : string) :
  in_int64 n = true -> ignored_tail tail = true ->
  Json.HasError j = false ->
  Reads (Json.Tokenizer j) ((to_string_int64 n ++ tail) ++ k) ->
  stops k = true ->
  exists j',
    Json.ParseValue (S fuel) j = Json.Returns (VInt64 n) j'
    /\ Json.HasError j' = false
    /\ Reads (Json.Tokenizer j') k.
Proof.
  intros B G E R K. unfold ignored_tail in G.
  apply andb_prop in G as [G Ge]. apply andb_prop in G as [G Gp].
  apply andb_prop in G as [Gd Gc].
  apply negb_true_iff in Ge, Gp.
  destruct (to_string_int64_text n) as (T0 & T1 & T2).
  assert (NT : number_text (to_string_int64 n ++ tail) = true).
  { unfold number_text in *.
    destruct (to_string_int64 n) as [| c r] eqn:Es; [discriminate |].
    cbn [append]. change (String c (r ++ tail)) with (String c r ++ tail).
    rewrite number_chars_append, T0, Gc. reflexivity. }
  pose proof (lex_number _ _ NT K) as L.
  destruct (ParseValue_scalar (S fuel) j _ _ _ _ E R L ltac:(discriminate))
    as (Ty & Va & E' & R').
  rule_step. rewrite Ty. cbv iota. unfold Json.IsFloat. rewrite Va.
  rewrite !contains_append, T1, T2, Ge, Gp. cbn [orb]. cbv iota.
  rewrite (stoll_tail n tail B Gd). cbn [Json.convert].
  eexists. split; [reflexivity | split; assumption].
Qed.

(** X25.  What follows the digits of an integer literal is dropped
    without an error.  A number token that starts with an integer and
    goes on with signs, capital [E]s or further digits after them (1E5,
    1-2, 12+) holds neither a point nor a small e, so it is converted by
    [std::stoll], which stops at the first character that is no digit:
    the member is the integer in front and [Parse] records no error. *)
Theorem integer_tail_is_dropped (Key : string) (n : Z) (tail trailing : string)
    (j : Json.t)
    (HKey : plain Key = true)
    (HRange : in_int64 n = true)
    (HTail : ignored_tail tail = true) :
  exists j',
    Json.Parse ("{" ++ quoted Key ++ ":" ++ (to_string_int64 n ++ tail)
                    ++ "}" ++ trailing) j
    = Json.Returns tt j'
    /\ Json.HasError j' = false
    /\ Json.RootObject j' = Some [(Key, VInt64 n)].
Proof.
  unfold Json.Parse, Json.ParseObject, Json.ParseObject_with.
  set (Input := "{" ++ _).
  set (j0 := Json.make _ _ _ _).
  set (PV := Json.ParseValue (S (size Input))).
  assert (E0 : Json.ErrorMessage j0 = None) by reflexivity.
  assert (R0 : Reads (Json.Tokenizer j0) Input) by apply Reads_Init.
  unfold Input in R0. cbn [append] in R0.
  destruct (Consume_Reads j0 _ JsonTokenType.ObjectStart "{" _ R0 eq_refl
              ltac:(discriminate)) as (Ty1 & _ & R1 & Er1).
  token_is Ty1. rewrite quoted_append in R1.
  match type of R1 with Reads _ (String quote (Key ++ String quote ?k)) =>
    pose proof (lex_string Key k HKey) as LK end.
  destruct (Peek_Reads _ _ _ _ _ R1 LK ltac:(discriminate))
    as (Ty2 & _ & R2 & Er2).
  token_is Ty2. rule_step. token_is Ty2.
  destruct (Consume_Reads _ _ _ _ _ R2 LK ltac:(discriminate))
    as (_ & Va3 & R3 & Er3).
  cbn [append] in R3.
  destruct (Consume_Reads _ _ JsonTokenType.Colon ":" _ R3 eq_refl
              ltac:(discriminate)) as (Ty4 & _ & R4 & Er4).
  token_is Ty4.
  match type of R4 with Reads (Json.Tokenizer ?J) _ =>
    assert (E4 : Json.HasError J = false)
      by (unfold Json.HasError; rewrite Er4, Er3, Er2, Er1, E0; reflexivity)
  end.
  destruct (ParseValue_tail n tail (size Input) _ ("}" ++ trailing)
              HRange HTail E4 R4 eq_refl) as (j5 & P5 & E5 & R5).
  unfold PV. rewrite P5. rule_step. rewrite E5.
  cbn [append] in R5.
  destruct (Consume_Reads j5 _ JsonTokenType.ObjectEnd "}" _ R5 eq_refl
              ltac:(discriminate)) as (Ty6 & _ & _ & Er6).
  token_is Ty6. rewrite Va3.
  eexists. split; [reflexivity |]. split.
  - rewrite HasError_reroot, (HasError_same _ _ Er6). exact E5.
  - reflexivity.
Qed.

Lemma integer_tail_is_dropped_witness :
  exists j',
    Json.Parse ("{" ++ quoted "a" ++ ":" ++ (to_string_int64 12 ++ "-34")
                    ++ "}" ++ "") Json.new
    = Json.Returns tt j'
    /\ Json.HasError j' = false
    /\ Json.RootObject j' = Some [("a", VInt64 12)].
Proof.
  apply (integer_tail_is_dropped "a" 12 "-34" "" Json.new); reflexivity.
Defined.

(** ** Subscripting a const document *)

(** X26.  A const document is written to by its subscript.  On a
    document with a root object, the const [operator[]] of a missing key
    inserts the key with [Undefined], as the other one does; the wrapper
    it returns is const, so that a typed read through it throws "Field is
    not of the requested type", and the key stays in the document, where
    [HasField] now finds it. *)
Theorem const_subscript_inserts (doc : Json.t) (Root : JsonObject)
    (Key : string) (T : JsonType)
    (HRoot : Json.RootObject doc = Some Root)
    (HMissing : unordered_map.find Key Root = None)
    (HType : CIsValidJsonGetValue T = true) :
  exists w,
    Json.subscript_const Key doc
    = Ok (w, Json.with_RootObject doc
               (Some (Root ++ [(Key, VUndefined)])%list))
    /\ JsonValueWrapper.bIsConst w = true
    /\ Json.HasField None doc Key = false
    /\ Json.HasField None
         (Json.with_RootObject doc (Some (Root ++ [(Key, VUndefined)])%list))
         Key = true
    /\ Json.GetAs T w
         (Json.with_RootObject doc (Some (Root ++ [(Key, VUndefined)])%list))
       = Raise (runtime_error "Field is not of the requested type").
Proof.
  destruct (find_subscript_absent Key Root HMissing) as [S F].
  eexists. unfold Json.subscript_const. rewrite HRoot, S.
  split; [reflexivity |]. split; [reflexivity |].
  unfold Json.HasField, Json.GetRootObject, JsonObject.HasField.
  rewrite HRoot, HMissing. split; [reflexivity |].
  cbn [Json.RootObject Json.with_RootObject]. rewrite <- S, F.
  split; [reflexivity |].
  unfold Json.GetAs, JsonObject.GetAs, JsonValueWrapper.GetAs,
    JsonValueWrapper.Get_Internal, JsonObject.load.
  cbn [Json.RootObject Json.with_RootObject JsonValueWrapper.Value
       JsonValueWrapper.DefaultValue JsonValueWrapper.bIsConst].
  rewrite F. destruct T; try discriminate HType; reflexivity.
Qed.

Lemma const_subscript_inserts_witness :
  exists w,
    Json.subscript_const "a" Json.new
    = Ok (w, Json.with_RootObject Json.new (Some [("a", VUndefined)]))
    /\ JsonValueWrapper.bIsConst w = true
    /\ Json.HasField None Json.new "a" = false
    /\ Json.HasField None
         (Json.with_RootObject Json.new (Some [("a", VUndefined)])) "a" = true
    /\ Json.GetAs TInt64 w
         (Json.with_RootObject Json.new (Some [("a", VUndefined)]))
       = Raise (runtime_error "Field is not of the requested type").
Proof.
  apply (const_subscript_inserts Json.new [] "a" TInt64); reflexivity.
Defined.
